(** * ergoroute: file-system route discovery and hot reload

    A shallow embedding of [src/core/index.ts] (class [EnhancedRouteBuilder])
    and of the configuration object of [src/utils/config.rediect.ts].

    Strings are [string] (sequences of bytes; a non-ASCII character is its
    UTF-8 encoding).  The Node [path] module is modelled for POSIX hosts
    ([path.sep = "/"]).  The file system, the module loader and the Elysia
    server are external: the file system and the loader are a record of
    functions that the code queries, the server is a value plus a trace of
    the calls made on it. *)

From Stdlib Require Import String Ascii List Bool Arith Lia.
Import ListNotations.
Open Scope string_scope.

(* ------------------------------------------------------------------ *)
(** ** JavaScript string primitives *)

Module Str.

Definition slash : ascii := "/"%char.
Definition backslash : ascii := "\"%char.
Definition dot : ascii := "."%char.

Definition chars (s : string) : list ascii := list_ascii_of_string s.
Definition ofChars (l : list ascii) : string := string_of_list_ascii l.

(** [s.startsWith(p)] *)
Fixpoint startsWith (s p : string) {struct p} : bool :=
  match p with
  | EmptyString => true
  | String c p' =>
      match s with
      | EmptyString => false
      | String d s' => Ascii.eqb d c && startsWith s' p'
      end
  end.

(** [s.endsWith(p)] *)
Definition endsWith (s p : string) : bool :=
  startsWith (ofChars (rev (chars s))) (ofChars (rev (chars p))).

(** [s.split(sep)] for a one-character separator: never the empty list. *)
Fixpoint split (sep : ascii) (s : string) : list string :=
  match s with
  | EmptyString => [EmptyString]
  | String c s' =>
      if Ascii.eqb c sep then EmptyString :: split sep s'
      else match split sep s' with
           | [] => [String c EmptyString]
           | h :: t => String c h :: t
           end
  end.

(** [l.join(sep)] *)
Fixpoint join (sep : string) (l : list string) : string :=
  match l with
  | [] => EmptyString
  | [x] => x
  | x :: rest => x ++ sep ++ join sep rest
  end.

(** [s.replace(/\\/g, "/")] *)
Fixpoint replaceBackslashes (s : string) : string :=
  match s with
  | EmptyString => EmptyString
  | String c s' =>
      String (if Ascii.eqb c backslash then slash else c) (replaceBackslashes s')
  end.

Definition isLower (c : ascii) : bool :=
  ((97 <=? nat_of_ascii c)%nat && (nat_of_ascii c <=? 122)%nat).

(** The characters the regular-expression atom [.] refuses: LF, CR and
    the UTF-8 encodings E2 80 A8 / E2 80 A9 of U+2028 and U+2029. *)
Fixpoint hasLineTerminator (l : list ascii) : bool :=
  match l with
  | [] => false
  | c :: l' =>
      let n := nat_of_ascii c in
      (n =? 10)%nat || (n =? 13)%nat ||
      match l' with
      | c1 :: c2 :: _ =>
          (n =? 226)%nat && (nat_of_ascii c1 =? 128)%nat &&
          ((nat_of_ascii c2 =? 168)%nat || (nat_of_ascii c2 =? 169)%nat)
      | _ => false
      end
      || hasLineTerminator l'
  end.

Definition noSlash (s : string) : bool :=
  forallb (fun c => negb (Ascii.eqb c slash)) (chars s).

End Str.

(* ------------------------------------------------------------------ *)
(** ** The Node [path] module on a POSIX host *)

Module Path.

(** [normalizeString]: the segments are folded left to right; [acc] holds
    the segments kept so far, last one first. *)
Fixpoint normalizeSegs (allowAboveRoot : bool) (acc segs : list string)
  : list string :=
  match segs with
  | [] => rev acc
  | seg :: rest =>
      if (seg =? "")%string || (seg =? ".")%string then
        normalizeSegs allowAboveRoot acc rest
      else if (seg =? "..")%string then
        match acc with
        | last :: acc' =>
            if (last =? "..")%string
            then normalizeSegs allowAboveRoot
                   (if allowAboveRoot then ".." :: acc else acc) rest
            else normalizeSegs allowAboveRoot acc' rest
        | [] =>
            normalizeSegs allowAboveRoot
              (if allowAboveRoot then [".."] else []) rest
        end
      else normalizeSegs allowAboveRoot (seg :: acc) rest
  end.

Definition isAbsolute (p : string) : bool := Str.startsWith p "/".

(** [path.normalize] *)
Definition normalize (p : string) : string :=
  if (p =? "")%string then "." else
  let abs := isAbsolute p in
  let trailing := Str.endsWith p "/" in
  let body := Str.join "/" (normalizeSegs (negb abs) [] (Str.split Str.slash p)) in
  if (body =? "")%string then
    if abs then "/" else if trailing then "./" else "."
  else
    let body' := if trailing then body ++ "/" else body in
    if abs then "/" ++ body' else body'.

(** [path.join(a, b)] (and [path.posix.join]) *)
Definition join (a b : string) : string :=
  match (a =? "")%string, (b =? "")%string with
  | true, true => "."
  | true, false => normalize b
  | false, true => normalize a
  | false, false => normalize (a ++ "/" ++ b)
  end.

(** [path.resolve(cwd, p)]: always absolute, never a trailing slash. *)
Definition resolve (cwd p : string) : string :=
  let full := if isAbsolute p then p else cwd ++ "/" ++ p in
  "/" ++ Str.join "/" (normalizeSegs false [] (Str.split Str.slash full)).

Definition isSlash (c : ascii) : bool := Ascii.eqb c Str.slash.

Fixpoint dropWhile {A} (f : A -> bool) (l : list A) : list A :=
  match l with
  | [] => []
  | x :: l' => if f x then dropWhile f l' else l
  end.

Fixpoint takeWhile {A} (f : A -> bool) (l : list A) : list A :=
  match l with
  | [] => []
  | x :: l' => if f x then x :: takeWhile f l' else []
  end.

(** [path.dirname]: scanning backwards from the end down to index 1, the
    trailing slashes and then the last segment are passed over; the slash
    met next ends the result. *)
Definition dirname (p : string) : string :=
  match Str.chars p with
  | [] => "."
  | c0 :: rest =>
      let hasRoot := isSlash c0 in
      let r1 := dropWhile isSlash (rev rest) in
      let r2 := dropWhile (fun c => negb (isSlash c)) r1 in
      match r2 with
      | [] => if hasRoot then "/" else "."
      | _ :: r3 =>
          match r3 with
          | [] => if hasRoot then "//" else Str.ofChars [c0]
          | _ => Str.ofChars (c0 :: rev r3)
          end
      end
  end.

(** [path.basename]: the last segment, trailing slashes passed over. *)
Definition basename (p : string) : string :=
  let r1 := dropWhile isSlash (rev (Str.chars p)) in
  Str.ofChars (rev (takeWhile (fun c => negb (isSlash c)) r1)).

Fixpoint stripCommon (a b : list string) : list string * list string :=
  match a, b with
  | x :: a', y :: b' => if (x =? y)%string then stripCommon a' b' else (a, b)
  | _, _ => (a, b)
  end.

Definition nonEmptySegs (p : string) : list string :=
  filter (fun s => negb (s =? "")%string) (Str.split Str.slash p).

(** [path.relative(from, to)]: both ends are resolved, the common leading
    segments dropped, one [..] written per remaining segment of [from]. *)
Definition relative (cwd from to : string) : string :=
  if (from =? to)%string then "" else
  let f := resolve cwd from in
  let t := resolve cwd to in
  if (f =? t)%string then "" else
  let '(fr, tr) := stripCommon (nonEmptySegs f) (nonEmptySegs t) in
  Str.join "/" (map (fun _ => "..") fr ++ tr).

End Path.

(* ------------------------------------------------------------------ *)
(** ** Data model of [index.ts] *)

Module RouteExpectations.
Record t := mk { params : option (list string); bodyExpected : option bool }.
End RouteExpectations.

Record RouteDefinition := mkRoute {
  path : string;
  method : string;
  handlerPath : string;
  middlewares : list string;
  params : option (list string);
  bodyExpected : option bool
}.

Record Config := mkConfig {
  sourceDirectory : option string;
  basePath : option string;
  cacheable : option bool;
  port : option nat
}.

(** [defaultConfig] of [index.ts]. *)
Definition defaultConfig : Config :=
  {| sourceDirectory := Some "./src";
     basePath := Some "/api";
     cacheable := Some true;
     port := Some 3000 |}.

(** [config] of [utils/config.rediect.ts]; its [Config] has no [port]. *)
Definition utilsConfig : Config :=
  {| sourceDirectory := Some "./src";
     basePath := Some "/";
     cacheable := Some true;
     port := None |}.

Definition orElse {A} (a b : option A) : option A :=
  match a with Some _ => a | None => b end.

(** [{ ...defaultConfig, ...config }]: a property present on the right wins. *)
Definition spread (base over : Config) : Config :=
  {| sourceDirectory := orElse (sourceDirectory over) (sourceDirectory base);
     basePath := orElse (basePath over) (basePath base);
     cacheable := orElse (cacheable over) (cacheable base);
     port := orElse (port over) (port base) |}.

(** What a dynamically loaded module's default export can be. *)
Inductive Value :=
| VUndefined
| VFunction (id : nat)
| VExpectations (e : RouteExpectations.t).

Inductive EntryKind := IsFile | IsDirectory | IsOther.

Record Dirent := mkDirent { name : string; kind : EntryKind }.

(** The world outside the builder at one instant: the file system
    ([fs.existsSync], [fs.readdirSync] which throws on [None]), the module
    loader ([require(p).default], which throws on [None]) and the Elysia
    instance ([typeof app[m] === "function"]). *)
Record Env := mkEnv {
  existsSync : string -> bool;
  readdirSync : string -> option (list Dirent);
  requireDefault : string -> option Value;
  isFunctionProp : string -> bool
}.

(** Association lists in insertion order stand for the JavaScript [Map]s. *)
Section JsMap.
Context {V : Type}.

Fixpoint map_get (k : string) (m : list (string * V)) : option V :=
  match m with
  | [] => None
  | (k', v) :: m' => if (k' =? k)%string then Some v else map_get k m'
  end.

Definition map_has (k : string) (m : list (string * V)) : bool :=
  match map_get k m with Some _ => true | None => false end.

Fixpoint map_set (k : string) (v : V) (m : list (string * V))
  : list (string * V) :=
  match m with
  | [] => [(k, v)]
  | (k', v') :: m' =>
      if (k' =? k)%string then (k, v) :: m' else (k', v') :: map_set k v m'
  end.

Fixpoint map_delete (k : string) (m : list (string * V)) : list (string * V) :=
  match m with
  | [] => []
  | (k', v') :: m' =>
      if (k' =? k)%string then m' else (k', v') :: map_delete k m'
  end.

Definition map_values (m : list (string * V)) : list V := map snd m.
Definition map_keys (m : list (string * V)) : list string := map fst m.
End JsMap.

(* ------------------------------------------------------------------ *)
(** ** The two regular expressions *)

(** After the handler name: [\.([a-z]+)\.ts$].  The greedy [[a-z]+] takes
    the whole run of lowercase letters; a shorter run is followed by a
    letter, never by the dot, so backtracking into it cannot succeed. *)
Definition matchTail (rest : list ascii) : option string :=
  match rest with
  | c :: t =>
      if Ascii.eqb c Str.dot then
        let run := Path.takeWhile Str.isLower t in
        let after := Path.dropWhile Str.isLower t in
        match run with
        | [] => None
        | _ => if (Str.ofChars after =? ".ts")%string
               then Some (Str.ofChars run) else None
        end
      else None
  | [] => None
  end.

(** [^(.+?)\.([a-z]+)\.ts$]: the lazy [.+?] is tried at its shortest
    first and grows by one character at a time; [pre] is what it holds,
    last character first. *)
Fixpoint matchName (pre rest : list ascii) : option (string * string) :=
  match rest with
  | [] => None
  | c :: rest' =>
      let pre' := c :: pre in
      if Str.hasLineTerminator (rev pre') then None
      else match matchTail rest' with
           | Some m => Some (Str.ofChars (rev pre'), m)
           | None => matchName pre' rest'
           end
  end.

(** [s.match(/^(.+?)\.([a-z]+)\.ts$/)], giving the two groups. *)
Definition matchRouteFileName (s : string) : option (string * string) :=
  matchName [] (Str.chars s).

(** [s.match(/^\((.*?)\)$/)], giving the group. *)
Definition groupMatch (s : string) : option string :=
  match Str.chars s with
  | c :: t =>
      if Ascii.eqb c "("%char then
        match rev t with
        | d :: ri =>
            if Ascii.eqb d ")"%char then
              if Str.hasLineTerminator (rev ri) then None
              else Some (Str.ofChars (rev ri))
            else None
        | [] => None
        end
      else None
  | [] => None
  end.

Definition toLowerChar (c : ascii) : ascii :=
  let n := nat_of_ascii c in
  if ((65 <=? n)%nat && (n <=? 90)%nat)%bool then ascii_of_nat (n + 32) else c.

Fixpoint toLowerCase (s : string) : string :=
  match s with
  | EmptyString => EmptyString
  | String c s' => String (toLowerChar c) (toLowerCase s')
  end.

(* ------------------------------------------------------------------ *)
(** ** [parseRouteFile] and [scanDirectory] *)

(** How a call ends: it returns, it throws, or the model ran out of fuel
    (a loop that never ends runs out of every fuel). *)
Inductive Completion (A : Type) :=
| Returned (a : A)
| Threw
| NoFuel.
Arguments Returned {A} a.
Arguments Threw {A}.
Arguments NoFuel {A}.

Inductive LogEntry :=
| LogDirectoryMissing (dir : string)
| LogExpectationsError (file : string)
| LogScanError (dir : string).

Definition truthy (v : Value) : bool :=
  match v with VUndefined => false | _ => true end.

Definition paramsOf (v : Value) : option (list string) :=
  match v with VExpectations e => RouteExpectations.params e | _ => None end.

Definition bodyExpectedOf (v : Value) : option bool :=
  match v with VExpectations e => RouteExpectations.bodyExpected e | _ => None end.

Section Scanner.
Variable env : Env.
(** [process.cwd()] and [this.config.sourceDirectory]. *)
Variable cwd : string.
Variable src : string.

(** The [while] loop of [parseRouteFile]: it steps to the parent first
    and tests that parent's [middleware.ts] afterwards. *)
Fixpoint parentMiddlewares (fuel : nat) (parentDir : string)
  : option (list string) :=
  match fuel with
  | O => None
  | S fuel' =>
      if negb (parentDir =? src)%string && negb (parentDir =? ".")%string then
        let parentDir' := Path.dirname parentDir in
        let parentMiddleware := Path.join parentDir' "middleware.ts" in
        match parentMiddlewares fuel' parentDir' with
        | None => None
        | Some rest =>
            Some (if existsSync env parentMiddleware
                  then parentMiddleware :: rest else rest)
        end
      else Some []
  end.

(** The base path [parseRouteFile] computes when it is given none. *)
Definition derivedBasePath (filePath : string) : string :=
  let relPath := Path.relative cwd src (Path.dirname filePath) in
  let basePath := "/" ++ Str.join "/" (Str.split Str.slash relPath) in
  Str.join "/"
    (map (fun segment =>
            match groupMatch segment with
            | Some g => g
            | None => segment
            end)
         (Str.split Str.slash basePath)).

Definition parseRouteFile (fuel : nat) (filePath basePath : string)
    (localMiddleware : option string) (expectations : option Value)
  : Completion (option RouteDefinition) :=
  match matchRouteFileName (Path.basename filePath) with
  | None => Returned None
  | Some (fileName, method) =>
      let basePath :=
        if (basePath =? "")%string then derivedBasePath filePath else basePath in
      let routePath :=
        if (fileName =? "index")%string then basePath
        else Str.replaceBackslashes (Path.join basePath fileName) in
      match parentMiddlewares fuel (Path.dirname filePath) with
      | None => NoFuel
      | Some parents =>
          let middlewares :=
            match localMiddleware with
            | Some m => m :: parents
            | None => parents
            end in
          let exp :=
            match expectations with
            | Some v => if truthy v then Some v else None
            | None => None
            end in
          Returned (Some
            {| path := routePath;
               method := toLowerCase method;
               handlerPath := filePath;
               middlewares := middlewares;
               params := match exp with Some v => paramsOf v | None => None end;
               bodyExpected :=
                 match exp with Some v => bodyExpectedOf v | None => None end |})
      end
  end.

Definition ExpectationsCache := list (string * Value).

Record ScanResult := mkScan {
  scan_cache : ExpectationsCache;
  scan_log : list LogEntry;
  scan_routes : Completion (list RouteDefinition)
}.

(** The [for (const entry of entries)] loop of [scanDirectory]; [rec] is
    the recursive call, [routes] what has been pushed so far. *)
Fixpoint scanEntries
    (rec : ExpectationsCache -> string -> string -> ScanResult)
    (fuel : nat) (dirPath basePath : string)
    (localMiddleware : option string) (expectations : option Value)
    (entries : list Dirent)
    (cache : ExpectationsCache) (log : list LogEntry)
    (routes : list RouteDefinition) : ScanResult :=
  match entries with
  | [] => mkScan cache log (Returned routes)
  | entry :: rest =>
      let continue_ := scanEntries rec fuel dirPath basePath
                         localMiddleware expectations rest in
      if Str.startsWith (name entry) "_" then continue_ cache log routes
      else
        let fullPath := Path.join dirPath (name entry) in
        match kind entry with
        | IsDirectory =>
            let groupName :=
              match groupMatch (name entry) with
              | Some g => g
              | None => name entry
              end in
            let newBasePath :=
              Str.replaceBackslashes (Path.join basePath groupName) in
            let sub := rec cache fullPath newBasePath in
            match scan_routes sub with
            | Returned subRoutes =>
                continue_ (scan_cache sub) (log ++ scan_log sub)%list
                          (routes ++ subRoutes)%list
            | Threw => mkScan (scan_cache sub) (log ++ scan_log sub)%list Threw
            | NoFuel => mkScan (scan_cache sub) (log ++ scan_log sub)%list NoFuel
            end
        | IsFile =>
            if Str.endsWith (name entry) ".ts" then
              if (name entry =? "middleware.ts")%string
                 || (name entry =? "expectations.ts")%string
              then continue_ cache log routes
              else
                match parseRouteFile fuel fullPath basePath
                        localMiddleware expectations with
                | Returned (Some route) =>
                    continue_ cache log (routes ++ [route])%list
                | Returned None => continue_ cache log routes
                | Threw => mkScan cache log Threw
                | NoFuel => mkScan cache log NoFuel
                end
            else continue_ cache log routes
        | IsOther => continue_ cache log routes
        end
  end.

(** The [if (fs.existsSync(expectationsPath)) { try ... catch ... }] block
    of [scanDirectory]: what was loaded, the cache and the log entry. *)
Definition loadExpectations (cache : ExpectationsCache)
    (dirPath expectationsPath : string)
  : option Value * ExpectationsCache * list LogEntry :=
  if existsSync env expectationsPath then
    match requireDefault env expectationsPath with
    | Some v => (Some v, map_set dirPath v cache, [])
    | None => (None, cache, [LogExpectationsError expectationsPath])
    end
  else (None, cache, []).

Fixpoint scanDirectory (fuel : nat) (cache : ExpectationsCache)
    (dirPath basePath : string) : ScanResult :=
  match fuel with
  | O => mkScan cache [] NoFuel
  | S fuel' =>
      if negb (existsSync env dirPath) then
        mkScan cache [LogDirectoryMissing dirPath] (Returned [])
      else
        match readdirSync env dirPath with
        | None => mkScan cache [LogScanError dirPath] Threw
        | Some entries =>
            let middlewarePath := Path.join dirPath "middleware.ts" in
            let expectationsPath := Path.join dirPath "expectations.ts" in
            let localMiddleware :=
              if existsSync env middlewarePath
              then Some middlewarePath else None in
            let tried := loadExpectations cache dirPath expectationsPath in
            let loaded := fst (fst tried) in
            let cache1 := snd (fst tried) in
            let log1 := snd tried in
            let expectations :=
              match loaded with
              | Some v => if truthy v then Some v else map_get dirPath cache1
              | None => map_get dirPath cache1
              end in
            let r := scanEntries (scanDirectory fuel') fuel' dirPath basePath
                       localMiddleware expectations entries cache1 log1 [] in
            match scan_routes r with
            | Threw => mkScan (scan_cache r)
                         (scan_log r ++ [LogScanError dirPath])%list Threw
            | _ => r
            end
        end
  end.
End Scanner.

(* ------------------------------------------------------------------ *)
(** ** The builder: route table, caches, server, and the reactions *)

(** An Elysia instance as the builder sees it: which instance it is, and
    whether [app.server] is set. *)
Record App := mkApp { appId : nat; server : bool }.

(** The calls made on the outside world, oldest first.  [ERoute id m p h]
    is the call [routeApp[m](p, h)] of [applyRouteToApp] on instance [id],
    whatever function of the instance [m] names. *)
Inductive Effect :=
| ENew (id : nat)
| EGroup (id : nat) (base : string)
| EUse (id : nat) (mw : Value)
| ERoute (id : nat) (method path : string) (handler : Value)
| EStop (id : nat)
| EListen (id : nat) (port : nat)
| EInvalidate (file : string)
| ELogRouteTree
| EEmitRoutesUpdated
| EError (what : string).

Record Builder := mkBuilder {
  app : App;
  config : Config;
  projectRoot : string;
  routes : list (string * RouteDefinition);
  middlewareCache : list (string * Value);
  expectationsCache : list (string * Value);
  nextId : nat;
  trace : list Effect
}.

Definition emit (e : Effect) (b : Builder) : Builder :=
  {| app := app b; config := config b; projectRoot := projectRoot b;
     routes := routes b; middlewareCache := middlewareCache b;
     expectationsCache := expectationsCache b; nextId := nextId b;
     trace := (trace b ++ [e])%list |}.

Definition setRoutes (r : list (string * RouteDefinition)) (b : Builder) : Builder :=
  {| app := app b; config := config b; projectRoot := projectRoot b;
     routes := r; middlewareCache := middlewareCache b;
     expectationsCache := expectationsCache b; nextId := nextId b;
     trace := trace b |}.

Definition setMiddlewareCache (c : list (string * Value)) (b : Builder) : Builder :=
  {| app := app b; config := config b; projectRoot := projectRoot b;
     routes := routes b; middlewareCache := c;
     expectationsCache := expectationsCache b; nextId := nextId b;
     trace := trace b |}.

Definition setExpectationsCache (c : list (string * Value)) (b : Builder) : Builder :=
  {| app := app b; config := config b; projectRoot := projectRoot b;
     routes := routes b; middlewareCache := middlewareCache b;
     expectationsCache := c; nextId := nextId b;
     trace := trace b |}.

Definition setApp (a : App) (n : nat) (b : Builder) : Builder :=
  {| app := a; config := config b; projectRoot := projectRoot b;
     routes := routes b; middlewareCache := middlewareCache b;
     expectationsCache := expectationsCache b; nextId := n;
     trace := trace b |}.

(** [this.config.sourceDirectory!] *)
Definition sourceDir (b : Builder) : string :=
  match sourceDirectory (config b) with Some s => s | None => "" end.

(** The constructor: the configuration is spread over the defaults and a
    relative source directory is resolved against the project root.
    [userConfig = None] is the call without a second argument. *)
Definition newBuilder (cwd : string) (a : App) (fresh : nat)
    (userConfig : option Config) : Builder :=
  let given := match userConfig with Some c => c | None => defaultConfig end in
  let merged := spread defaultConfig given in
  let dir := match sourceDirectory merged with Some s => s | None => "" end in
  let dir' := if Path.isAbsolute dir then dir else Path.resolve cwd dir in
  {| app := a;
     config := {| sourceDirectory := Some dir';
                  basePath := basePath merged;
                  cacheable := cacheable merged;
                  port := port merged |};
     projectRoot := cwd;
     routes := []; middlewareCache := []; expectationsCache := [];
     nextId := fresh; trace := [] |}.

(** How a reaction (an [async] method) ends: its promise is fulfilled, it
    is rejected, or the reaction never ends.  The builder is what the
    reaction leaves behind. *)
Inductive Reaction :=
| Settled (b : Builder)
| Rejected (b : Builder)
| Hung.

(** The events of the chokidar watcher. *)
Inductive WatchEvent :=
| EvAdd (filePath : string)
| EvChange (filePath : string)
| EvUnlink (filePath : string)
| EvUnlinkDir (dirPath : string)
| EvError.

(** The [ignored] predicate handed to [chokidar.watch]; [isFile] is
    [stats?.isFile()], [None] when no stats are passed. *)
Definition ignored (filePath : string) (isFile : option bool) : bool :=
  match isFile with
  | Some true =>
      if negb (Str.endsWith filePath ".ts") then true
      else existsb (fun seg => Str.startsWith seg "_") (Str.split Str.slash filePath)
  | _ => existsb (fun seg => Str.startsWith seg "_") (Str.split Str.slash filePath)
  end.

Section Reactor.
Variable env : Env.

(** The middleware loop of [applyRouteToApp] on instance [id]. *)
Fixpoint useMiddlewares (id : nat) (mws : list string) (b : Builder) : Builder :=
  match mws with
  | [] => b
  | mwPath :: rest =>
      if map_has mwPath (middlewareCache b) then
        let mw := match map_get mwPath (middlewareCache b) with
                  | Some v => v | None => VUndefined end in
        useMiddlewares id rest (emit (EUse id mw) b)
      else
        match requireDefault env mwPath with
        | Some mw =>
            useMiddlewares id rest
              (emit (EUse id mw)
                 (setMiddlewareCache (map_set mwPath mw (middlewareCache b)) b))
        | None =>
            useMiddlewares id rest (emit (EError "Error loading middleware") b)
        end
  end.

(** [applyRouteToApp(route, app)] on instance [id]. *)
Definition applyRouteToApp (route : RouteDefinition) (id : nat) (b : Builder)
  : Builder :=
  match requireDefault env (handlerPath route) with
  | None => emit (EError "Error applying route") b
  | Some handler =>
      let b1 := useMiddlewares id (middlewares route) b in
      let m := toLowerCase (method route) in
      if isFunctionProp env m
      then emit (ERoute id m (path route) handler) b1
      else emit (EError "Method is not supported by Elysia instance") b1
  end.

Fixpoint applyRoutes (rs : list RouteDefinition) (id : nat) (b : Builder)
  : Builder :=
  match rs with
  | [] => b
  | r :: rs' => applyRoutes rs' id (applyRouteToApp r id b)
  end.

(** [rebuildApp]: a new instance, every route of the table registered in
    its base-path group, the running server stopped, the new one started. *)
Definition rebuildApp (b : Builder) : Builder :=
  let newId := nextId b in
  let base := match basePath (config b) with Some s => s | None => "" end in
  let b1 := emit (EGroup newId base) (emit (ENew newId) b) in
  let b2 := applyRoutes (map_values (routes b1)) newId b1 in
  let b3 := if server (app b2) then emit (EStop (appId (app b2))) b2 else b2 in
  let p := match port (config b3) with
           | Some 0 => 3000 | Some n => n | None => 3000 end in
  setApp (mkApp newId true) (S newId) (emit (EListen newId p) b3).

(** The end of a reaction: [this.logRouteTree()], then
    [this.emit("routesUpdated")].  [logRouteTree] is taken as a diagnostic
    that returns.  [printRouteTree] iterates the value under every key
    [methods] of the tree it prints, so for a table with a route path that
    has a segment [methods] it throws, and the reaction then rejects after
    the table and server work and before [routesUpdated] is emitted: the
    table, the caches and the server calls are as given here, the two
    diagnostics are not. *)
Definition finishReaction (b : Builder) : Builder :=
  emit EEmitRoutesUpdated (emit ELogRouteTree b).

(** The deleting loops of [handleDirectoryRemoval] and
    [rebuildDirectoryRoutes]. *)
Definition deleteStartingWith (dirPath : string)
    (m : list (string * RouteDefinition)) : list (string * RouteDefinition) :=
  filter (fun kv => negb (Str.startsWith (fst kv) dirPath)) m.

Fixpoint setAll (rs : list RouteDefinition) (m : list (string * RouteDefinition))
  : list (string * RouteDefinition) :=
  match rs with
  | [] => m
  | r :: rs' => setAll rs' (map_set (handlerPath r) r m)
  end.

Definition rebuildDirectoryRoutes (fuel : nat) (dirPath : string) (b : Builder)
  : Reaction :=
  let b1 := setRoutes (deleteStartingWith dirPath (routes b)) b in
  let r := scanDirectory env (projectRoot b1) (sourceDir b1) fuel
             (expectationsCache b1) dirPath "" in
  let b2 := setExpectationsCache (scan_cache r) b1 in
  match scan_routes r with
  | Returned rs => Settled (rebuildApp (setRoutes (setAll rs (routes b2)) b2))
  | Threw => Rejected b2
  | NoFuel => Hung
  end.

Definition handleFileChange (fuel : nat) (filePath : string) (b : Builder)
  : Reaction :=
  let b0 := emit (EInvalidate filePath) b in
  if (Path.basename filePath =? "middleware.ts")%string then
    match rebuildDirectoryRoutes fuel (Path.dirname filePath) b0 with
    | Settled b1 => Settled (finishReaction b1)
    | c => c
    end
  else if (Path.basename filePath =? "expectations.ts")%string then
    let b1 := setExpectationsCache
                (map_delete (Path.dirname filePath) (expectationsCache b0)) b0 in
    match rebuildDirectoryRoutes fuel (Path.dirname filePath) b1 with
    | Settled b2 => Settled (finishReaction b2)
    | c => c
    end
  else
    match parseRouteFile env (projectRoot b0) (sourceDir b0) fuel
            filePath "" None None with
    | Returned (Some route) =>
        Settled (finishReaction
          (applyRouteToApp route (appId (app b0))
             (setRoutes (map_set filePath route (routes b0)) b0)))
    | Returned None => Settled (finishReaction b0)
    | Threw => Rejected b0
    | NoFuel => Hung
    end.

Definition handleFileRemoval (filePath : string) (b : Builder) : Builder :=
  if map_has filePath (routes b)
  then finishReaction (rebuildApp (setRoutes (map_delete filePath (routes b)) b))
  else finishReaction b.

Definition handleDirectoryRemoval (dirPath : string) (b : Builder) : Builder :=
  finishReaction
    (rebuildApp (setRoutes (deleteStartingWith dirPath (routes b)) b)).

(** [buildRoutes]: the scan of the source directory replaces the table;
    whatever is thrown is caught and logged. *)
Definition buildRoutes (fuel : nat) (b : Builder) : Reaction :=
  let r := scanDirectory env (projectRoot b) (sourceDir b) fuel
             (expectationsCache b) (sourceDir b) "" in
  let b1 := setExpectationsCache (scan_cache r) b in
  match scan_routes r with
  | Returned rs => Settled (rebuildApp (setRoutes (setAll rs []) b1))
  | Threw => Settled (emit (EError "Error building routes") b1)
  | NoFuel => Hung
  end.

(** The listeners installed by [setupWatchers]. *)
Definition react (fuel : nat) (ev : WatchEvent) (b : Builder) : Reaction :=
  match ev with
  | EvAdd filePath => handleFileChange fuel filePath b
  | EvChange filePath => handleFileChange fuel filePath b
  | EvUnlink filePath => Settled (handleFileRemoval filePath b)
  | EvUnlinkDir dirPath => Settled (handleDirectoryRemoval dirPath b)
  | EvError => Settled (emit (EError "Watcher error") b)
  end.
End Reactor.

(* ------------------------------------------------------------------ *)
(** ** Concrete file systems *)

(** A file-system tree from which an [Env] is read off.  Every node has
    its name; a file carries what loading it gives ([None]: loading
    throws); a directory carries whether it can be listed. *)
#[warnings="-register-all"]
Inductive Node :=
| NFile (nm : string) (content : option Value)
| NDir (nm : string) (readable : bool) (children : list Node)
| NOther (nm : string).

Definition nodeName (n : Node) : string :=
  match n with NFile k _ => k | NDir k _ _ => k | NOther k => k end.

Fixpoint lookup (segs : list string) (n : Node) : option Node :=
  match segs with
  | [] => Some n
  | s :: rest =>
      match n with
      | NDir _ _ children =>
          (fix find (l : list Node) : option Node :=
             match l with
             | [] => None
             | c :: l' =>
                 if (nodeName c =? s)%string then lookup rest c else find l'
             end) children
      | _ => None
      end
  end.

Definition direntOf (n : Node) : Dirent :=
  {| name := nodeName n;
     kind := match n with
             | NFile _ _ => IsFile
             | NDir _ _ _ => IsDirectory
             | NOther _ => IsOther
             end |}.

(** The Elysia methods that are functions; the route verbs suffice here. *)
Definition elysiaMethods : list string :=
  ["get"; "post"; "put"; "delete"; "patch"; "head"; "options"; "all"].

(** [root] is the directory [/]. *)
Definition envOf (root : Node) : Env :=
  {| existsSync := fun p =>
       match lookup (Path.nonEmptySegs p) root with Some _ => true | None => false end;
     readdirSync := fun p =>
       match lookup (Path.nonEmptySegs p) root with
       | Some (NDir _ true children) => Some (map direntOf children)
       | _ => None
       end;
     requireDefault := fun p =>
       match lookup (Path.nonEmptySegs p) root with
       | Some (NFile _ (Some v)) => Some v
       | _ => None
       end;
     isFunctionProp := fun m => existsb (String.eqb m) elysiaMethods |}.

Definition dir (nm : string) (children : list Node) : Node := NDir nm true children.
Definition handler (nm : string) (id : nat) : Node := NFile nm (Some (VFunction id)).

(** [/srv/src/(admin)/users/list.get.ts] *)
Definition fsGroup : Node :=
  dir "" [dir "srv" [dir "src" [dir "(admin)" [dir "users"
    [handler "list.get.ts" 1]]]]].

Definition scanPaths (r : ScanResult) : Completion (list string) :=
  match scan_routes r with
  | Returned rs => Returned (map path rs)
  | Threw => Threw
  | NoFuel => NoFuel
  end.


(* ------------------------------------------------------------------ *)
(** ** Vocabulary of the statements *)

(** A name as [readdirSync] gives them: not empty, no slash, not [.] or [..]. *)
Definition plainSeg (s : string) : bool :=
  negb (s =? "")%string && Str.noSlash s
  && negb (s =? ".")%string && negb (s =? "..")%string.

(** The absolute, normalized path with the given segments ([/] for none). *)
Definition absPath (segs : list string) : string := "/" ++ Str.join "/" segs.

(** The effects an incremental application of [route] on the instance
    [id] may have: middleware and route registrations on that instance,
    loader invalidation, diagnostics.  Creating, grouping, stopping or
    starting a server is none of them. *)
Definition incrementalEffect (id : nat) (route : RouteDefinition) (e : Effect)
  : Prop :=
  match e with
  | ENew _ | EGroup _ _ | EStop _ | EListen _ _ => False
  | EUse id' _ => id' = id
  | ERoute id' m p _ =>
      id' = id /\ m = toLowerCase (method route) /\ p = path route
  | EInvalidate _ | ELogRouteTree | EEmitRoutesUpdated | EError _ => True
  end.

(** A builder as the constructor leaves it, in project [/srv], around a
    running instance 0. *)
Definition builder0 : Builder := newBuilder "/srv" (mkApp 0 true) 1 None.

Definition routeAt (p file : string) : RouteDefinition :=
  {| path := p; method := "get"; handlerPath := file; middlewares := [];
     params := None; bodyExpected := None |}.

(** [/srv/src/a/b/x.get.ts] and [/srv/src/a/bc/y.get.ts] *)
Definition fsSiblings : Node :=
  dir "" [dir "srv" [dir "src" [dir "a"
    [dir "b" [handler "x.get.ts" 1]; dir "bc" [handler "y.get.ts" 2]]]]].

Definition builderSiblings : Builder :=
  setRoutes [("/srv/src/a/b/x.get.ts", routeAt "a/b/x" "/srv/src/a/b/x.get.ts");
             ("/srv/src/a/bc/y.get.ts", routeAt "a/bc/y" "/srv/src/a/bc/y.get.ts")]
    builder0.

(** [/srv/src/users/list.get.ts] *)
Definition fsUsers : Node :=
  dir "" [dir "srv" [dir "src" [dir "users" [handler "list.get.ts" 1]]]].

(** The tree of [fsSiblings] once [/srv/src/a/b] is gone. *)
Definition fsSiblingsAfter : Node :=
  dir "" [dir "srv" [dir "src" [dir "a" [dir "bc" [handler "y.get.ts" 2]]]]].

Definition routeUsersList : RouteDefinition :=
  {| path := "/users/list"; method := "get";
     handlerPath := "/srv/src/users/list.get.ts"; middlewares := [];
     params := None; bodyExpected := None |}.

(** Modelled from the spec: the fixed set of recognized lowercase method
    tokens, "get, post, put, delete, patch, ..."; [index.ts] has no such
    set, so the HTTP request methods are taken for it. *)
Definition recognizedMethods : list string :=
  ["get"; "post"; "put"; "delete"; "patch"; "head"; "options"; "trace"; "connect"].

(** The file names [<name>.<method>.ts] the regular expression admits. *)
Definition routeFileShape (s name method : string) : Prop :=
  s = (name ++ "." ++ method ++ ".ts")%string
  /\ name <> "" /\ Str.hasLineTerminator (Str.chars name) = false
  /\ method <> "" /\ forallb Str.isLower (Str.chars method) = true.

Definition tsSuffix : list ascii := Str.chars ".ts".

(** Some existing directory could not be listed, and the log says so. *)
Definition listingFailed (env : Env) (log : list LogEntry) : Prop :=
  exists p, existsSync env p = true /\ readdirSync env p = None
            /\ In (LogScanError p) log.

(** [/srv/src] with a handler, an expectations module that throws when
    loaded, and a directory that cannot be listed. *)
Definition fsBroken : Node :=
  dir "" [dir "srv" [dir "src"
    [NFile "expectations.ts" None;
     handler "list.get.ts" 1;
     NDir "locked" false [handler "x.get.ts" 2]]]].

(** The same without the unreadable directory. *)
Definition fsMalformed : Node :=
  dir "" [dir "srv" [dir "src"
    [NFile "expectations.ts" None; handler "list.get.ts" 1]]].

(** *** Middleware chains, by directory segments *)

(** The [middleware.ts] of the directory with segments [dirSegs], if the
    file system has it (a list of none or one path). *)
Definition declared (env : Env) (dirSegs : list string) : list string :=
  let p := Path.join (absPath dirSegs) "middleware.ts" in
  if existsSync env p then [p] else [].

(** The declarations of the ancestors of [root/rel], nearest first, the
    source root [root] being the last one asked; [revRel] is [rel] with its
    last segment first. *)
Fixpoint ancestorsChain (env : Env) (root revRel : list string) : list string :=
  match revRel with
  | [] => []
  | _ :: up => (declared env (root ++ rev up) ++ ancestorsChain env root up)%list
  end.

(** Own directory first, then every ancestor up to and including the
    source root. *)
Definition chainToRoot (env : Env) (root rel : list string) : list string :=
  (declared env (root ++ rel) ++ ancestorsChain env root (rev rel))%list.

(** The chain in the words of the specification: own directory first, then
    the ancestors nearest first, the source root left out. *)
Fixpoint ancestorsBelowRoot (env : Env) (root revRel : list string) : list string :=
  match revRel with
  | [] => []
  | [_] => []
  | _ :: up => (declared env (root ++ rev up) ++ ancestorsBelowRoot env root up)%list
  end.

Definition chainBelowRoot (env : Env) (root rel : list string) : list string :=
  (declared env (root ++ rel) ++ ancestorsBelowRoot env root (rev rel))%list.

(** *** Well-formed listings *)

(** [readdirSync] gives plain names only. *)
Definition wfEnv (env : Env) : Prop :=
  forall d entries, readdirSync env d = Some entries ->
    Forall (fun e => plainSeg (name e) = true) entries.

Fixpoint wfTree (n : Node) : bool :=
  match n with
  | NDir _ _ children =>
      forallb (fun c => plainSeg (nodeName c) && wfTree c) children
  | _ => true
  end.

(** Not hidden by the ignore marker. *)
Definition cleanSeg (s : string) : bool := negb (Str.startsWith s "_").

Definition visibleSeg (s : string) : Prop :=
  plainSeg s = true /\ cleanSeg s = true.

(** *** Route paths, by directory names *)

(** The segment a directory named [d] stands for: the inner name of a
    parenthesized group, the name itself otherwise. *)
Definition groupName (d : string) : string :=
  match groupMatch d with Some g => g | None => d end.


(** The base path handed to the scan of the subdirectory [d]. *)
Definition stepBase (base d : string) : string :=
  Str.replaceBackslashes (Path.join base (groupName d)).

(** The base path reached from [base] through the directories [rel]. *)
Definition baseFrom (base : string) (rel : list string) : string :=
  fold_left stepBase rel base.

(** The route path of a handler [fileName] reached with base path [base]. *)
Definition finalPath (cwd src filePath base fileName : string) : string :=
  let base' :=
    if (base =? "")%string then derivedBasePath cwd src filePath else base in
  if (fileName =? "index")%string then base'
  else Str.replaceBackslashes (Path.join base' fileName).

(** A route found below [root/rel] by a scan started there with base path
    [base]: its handler is [root/rel/rel'/n] with visible names only, its
    chain is the one of [root/rel/rel'], and its path is made of [base],
    the segments of the directories [rel'] and the handler name. *)
Definition goodRoute (env : Env) (cwd : string) (root rel : list string)
    (base : string) (r : RouteDefinition) : Prop :=
  exists rel' n fileName m,
    handlerPath r = absPath (root ++ (rel ++ rel') ++ [n])
    /\ Forall visibleSeg (rel' ++ [n])
    /\ middlewares r = chainToRoot env root (rel ++ rel')
    /\ matchRouteFileName n = Some (fileName, m)
    /\ path r = finalPath cwd (absPath root) (handlerPath r)
                  (baseFrom base rel') fileName.

(** [/srv/src/a/list.get.ts] with a [middleware.ts] in [src] and in [a]. *)
Definition fsChain : Node :=
  dir "" [dir "srv" [dir "src"
    [handler "middleware.ts" 10;
     dir "a" [handler "middleware.ts" 11; handler "list.get.ts" 1]]]].

Definition scanMiddlewares (r : ScanResult) : Completion (list (list string)) :=
  match scan_routes r with
  | Returned rs => Returned (map middlewares rs)
  | Threw => Threw
  | NoFuel => NoFuel
  end.

Definition settledRoutes (r : Reaction) : list (string * RouteDefinition) :=
  match r with
  | Settled b => routes b
  | Rejected b => routes b
  | Hung => []
  end.

(** The route the scan of [fsChain] finds. *)
Definition routeChain : RouteDefinition :=
  {| path := "a/list"; method := "get";
     handlerPath := "/srv/src/a/list.get.ts";
     middlewares := ["/srv/src/a/middleware.ts"; "/srv/src/middleware.ts"];
     params := None; bodyExpected := None |}.


(* ------------------------------------------------------------------ *)
(** ** The watcher feeding the reactor *)

Definition eventPath (ev : WatchEvent) : option string :=
  match ev with
  | EvAdd p | EvChange p | EvUnlink p | EvUnlinkDir p => Some p
  | EvError => None
  end.

(** One delivery: the world at that instant, the event, and the
    [stats?.isFile()] the watcher had for its path. *)
Record Step := mkStep {
  step_env : Env;
  step_fuel : nat;
  step_event : WatchEvent;
  step_isFile : option bool
}.

(** chokidar raises no event for a path its [ignored] predicate refuses. *)
Definition dispatch (s : Step) (b : Builder) : Reaction :=
  match eventPath (step_event s) with
  | Some p =>
      if ignored p (step_isFile s) then Settled b
      else react (step_env s) (step_fuel s) (step_event s) b
  | None => react (step_env s) (step_fuel s) (step_event s) b
  end.

(** The reactions to a sequence of deliveries, one after the other; a
    rejected reaction leaves its builder to the next one, a reaction that
    never ends leaves nothing. *)
Fixpoint run (steps : list Step) (b : Builder) : option Builder :=
  match steps with
  | [] => Some b
  | s :: rest =>
      match dispatch s b with
      | Settled b' => run rest b'
      | Rejected b' => run rest b'
      | Hung => None
      end
  end.

(** The watcher reports normalized absolute paths inside the watched
    directory; an added or changed file lies strictly below it. *)
Definition eventBelow (root : list string) (ev : WatchEvent) : Prop :=
  match ev with
  | EvAdd p | EvChange p =>
      exists rel, rel <> [] /\ Forall (fun s => plainSeg s = true) rel
                  /\ p = absPath (root ++ rel)
  | EvUnlink p | EvUnlinkDir p =>
      exists rel, Forall (fun s => plainSeg s = true) rel
                  /\ p = absPath (root ++ rel)
  | EvError => True
  end.

Definition wfStep (root : list string) (s : Step) : Prop :=
  wfEnv (step_env s) /\ eventBelow root (step_event s).

(** A key of the route table all of whose segments below the source root
    are visible: no file or directory on the way starts with [_]. *)
Definition visibleKey (root : list string) (key : string) : Prop :=
  exists rel, key = absPath (root ++ rel) /\ Forall visibleSeg rel.

Definition tableVisible (root : list string) (b : Builder) : Prop :=
  sourceDir b = absPath root
  /\ forall key, In key (map_keys (routes b)) -> visibleKey root key.

(** [/srv/src] with hidden entries next to a visible handler. *)
Definition fsHidden : Node :=
  dir "" [dir "srv" [dir "src"
    [handler "_draft.get.ts" 1;
     dir "_private" [handler "secret.get.ts" 2];
     dir "users" [handler "list.get.ts" 3; handler "_old.get.ts" 4]]]].

(** The same after [users/middleware.ts] was added. *)
Definition fsHidden' : Node :=
  dir "" [dir "srv" [dir "src"
    [handler "_draft.get.ts" 1;
     dir "_private" [handler "secret.get.ts" 2];
     dir "users" [handler "list.get.ts" 3; handler "_old.get.ts" 4;
                  handler "middleware.ts" 5]]]].

Definition stepsHidden : list Step :=
  [ mkStep (envOf fsHidden) 10 (EvChange "/srv/src/_private/secret.get.ts") (Some true);
    mkStep (envOf fsHidden) 10 (EvChange "/srv/src/users/list.get.ts") (Some true);
    mkStep (envOf fsHidden') 10 (EvAdd "/srv/src/users/middleware.ts") (Some true);
    mkStep (envOf fsHidden') 10 (EvUnlink "/srv/src/users/_old.get.ts") None ].

(** What a reaction leaves behind satisfies [P], if it ends at all. *)
Definition afterReaction (P : Builder -> Prop) (r : Reaction) : Prop :=
  match r with
  | Settled b => P b
  | Rejected b => P b
  | Hung => True
  end.

Definition settledBuilder (r : Reaction) : Builder :=
  match r with
  | Settled b => b
  | Rejected b => b
  | Hung => builder0
  end.

(** The builder after the first scan of [fsHidden], and after the
    deliveries [stepsHidden]. *)
Definition builderHidden1 : Builder :=
  Eval vm_compute in settledBuilder (buildRoutes (envOf fsHidden) 10 builder0).

Definition builderHiddenN : Builder :=
  Eval vm_compute in
    match run stepsHidden builderHidden1 with Some b => b | None => builder0 end.

(** *** Finite trees *)

Fixpoint height (n : Node) : nat :=
  match n with
  | NDir _ _ children =>
      S (fold_right (fun c m => Nat.max (height c) m) 0 children)
  | _ => 0
  end.

(** The first child with the given name. *)
Fixpoint findChild (s : string) (children : list Node) : option Node :=
  match children with
  | [] => None
  | c :: rest => if (nodeName c =? s)%string then Some c else findChild s rest
  end.

(** Fuel that suffices to scan a directory [depth] levels below the source
    root whose subtree has height [h]. *)
Definition scanFuel (h depth : nat) : nat := 2 * h + depth + 2.

(* ------------------------------------------------------------------ *)
(** ** Further vocabulary: the table, the server, the watchers *)

(** The table as a JavaScript [Map] keeps it: one entry per key, and every
    route filed under the path of its own handler. *)
Definition tableKeyed (m : list (string * RouteDefinition)) : Prop :=
  NoDup (map_keys m)
  /\ Forall (fun kv => handlerPath (snd kv) = fst kv) m.

(** [start()]: the first build, then the route tree is logged
    ([logRouteTree] taken as in [finishReaction]); the listeners of
    [setupWatchers] are what [dispatch] runs afterwards. *)
Definition start (env : Env) (fuel : nat) (b : Builder) : Reaction :=
  match buildRoutes env fuel b with
  | Settled b' => Settled (emit ELogRouteTree b')
  | r => r
  end.

(** [getRoutes()] *)
Definition getRoutes (b : Builder) : list RouteDefinition := map_values (routes b).

(** An effect that creates, groups, stops or starts a server. *)
Definition lifecycleEffect (e : Effect) : bool :=
  match e with
  | ENew _ | EGroup _ _ | EStop _ | EListen _ _ => true
  | _ => false
  end.

(** A registration made on instance [id] (or a logged error). *)
Definition registrationOn (id : nat) (e : Effect) : Prop :=
  match e with
  | EUse id' _ | ERoute id' _ _ _ => id' = id
  | EError _ => True
  | _ => False
  end.

Definition isRouteEffect (e : Effect) : bool :=
  match e with ERoute _ _ _ _ => true | _ => false end.

(** The route registrations [applyRouteToApp] makes for [rs] on instance
    [id]: one per route whose handler loads and whose method is a function
    of the instance, in the order of [rs]. *)
Definition expectedRoutes (env : Env) (id : nat) (rs : list RouteDefinition)
  : list Effect :=
  flat_map (fun r =>
    match requireDefault env (handlerPath r) with
    | Some h =>
        if isFunctionProp env (toLowerCase (method r))
        then [ERoute id (toLowerCase (method r)) (path r) h] else []
    | None => []
    end) rs.

(** The port [rebuildApp] listens on: [this.config.port || 3000]. *)
Definition listenPort (b : Builder) : nat :=
  match port (config b) with Some 0 => 3000 | Some n => n | None => 3000 end.

(** The entries of a listing that the loop of [scanDirectory] does
    anything with: visible directories and visible [.ts] files other than
    [middleware.ts] and [expectations.ts]. *)
Definition scannable (e : Dirent) : bool :=
  negb (Str.startsWith (name e) "_")
  && match kind e with
     | IsDirectory => true
     | IsFile =>
         Str.endsWith (name e) ".ts"
         && negb ((name e =? "middleware.ts")%string
                  || (name e =? "expectations.ts")%string)
     | IsOther => false
     end.

(** The [ignored] predicate of [Parse.setWatcher] (the unnamed source
    part): [stats?.isFile() && !path.endsWith('.ts')]. *)
Definition parseIgnored (filePath : string) (isFile : option bool) : bool :=
  match isFile with
  | Some true => negb (Str.endsWith filePath ".ts")
  | _ => false
  end.

Definition hasHiddenSegment (p : string) : bool :=
  existsb (fun seg => Str.startsWith seg "_") (Str.split Str.slash p).

(** A route as [parseRouteFile] makes them: its method is the lowercase
    token between the last two dots of its handler's file name. *)
Definition parsedRoute (r : RouteDefinition) : Prop :=
  exists fileName,
    routeFileShape (Path.basename (handlerPath r)) fileName (method r).

Definition tableParsed (m : list (string * RouteDefinition)) : Prop :=
  Forall (fun kv => parsedRoute (snd kv)) m.

Definition tableSound (b : Builder) : Prop :=
  tableKeyed (routes b) /\ tableParsed (routes b).

(** The fields of a builder that registering routes never touches. *)
Definition sameButCacheAndTrace (b b' : Builder) : Prop :=
  routes b' = routes b /\ app b' = app b /\ nextId b' = nextId b
  /\ config b' = config b /\ projectRoot b' = projectRoot b
  /\ expectationsCache b' = expectationsCache b.

(** [/srv/src] with two handlers, one of a method Elysia has no function
    for, and one whose module throws when loaded. *)
Definition fsMixed : Node :=
  dir "" [dir "srv" [dir "src"
    [handler "a.get.ts" 1; handler "b.frob.ts" 2; NFile "c.post.ts" None;
     handler "d.post.ts" 4]]].

Definition builderMixed : Builder :=
  Eval vm_compute in settledBuilder (start (envOf fsMixed) 10 builder0).

Definition startedHidden : Builder :=
  Eval vm_compute in settledBuilder (start (envOf fsHidden) 10 builder0).

Definition startedHiddenN : Builder :=
  Eval vm_compute in
    match run stepsHidden startedHidden with Some b => b | None => builder0 end.

(** Every middleware handle cached in [b] is still cached, unchanged, in [b']. *)
Definition cachePersists (b b' : Builder) : Prop :=
  forall k v, map_get k (middlewareCache b) = Some v ->
              map_get k (middlewareCache b') = Some v.

(** [fsHidden'] after [users/middleware.ts] was rewritten: loading it now
    gives another function. *)
Definition fsHidden'' : Node :=
  dir "" [dir "srv" [dir "src"
    [handler "_draft.get.ts" 1;
     dir "_private" [handler "secret.get.ts" 2];
     dir "users" [handler "list.get.ts" 3; handler "_old.get.ts" 4;
                  handler "middleware.ts" 6]]]].

Definition stepsRewritten : list Step :=
  [ mkStep (envOf fsHidden'') 10 (EvChange "/srv/src/users/middleware.ts") (Some true) ].

Definition startedHiddenR : Builder :=
  Eval vm_compute in
    match run stepsRewritten startedHiddenN with Some b => b | None => builder0 end.

(** A segment that [path.join] and the backslash replacement leave alone. *)
Definition simpleSeg (s : string) : bool :=
  plainSeg s && forallb (fun c => negb (Ascii.eqb c Str.backslash)) (Str.chars s).

(** The route path of the handler [fileName] in the directory [rel] below
    the source root, for simple names: the segments of the directories
    (inner names for groups) and the handler name, [index] adding none;
    a leading slash only for handlers directly in the source root. *)
Definition urlPath (rel : list string) (fileName : string) : string :=
  match rel with
  | [] => if (fileName =? "index")%string then "/" else "/" ++ fileName
  | _ =>
      if (fileName =? "index")%string then Str.join "/" (map groupName rel)
      else Str.join "/" (map groupName rel ++ [fileName])
  end.

(** [/srv/src] with an index handler, a group and a nested index. *)
Definition fsIndex : Node :=
  dir "" [dir "srv" [dir "src"
    [handler "index.get.ts" 1;
     dir "(admin)" [dir "users" [handler "index.get.ts" 2;
                                 handler "list.post.ts" 3]]]]].

Definition routesIndex : list RouteDefinition :=
  Eval vm_compute in
    match scan_routes (scanDirectory (envOf fsIndex) "/srv" "/srv/src" 10 []
                         "/srv/src" "") with
    | Returned rs => rs
    | _ => []
    end.

Definition routeNestedIndex : RouteDefinition :=
  {| path := "admin/users"; method := "get";
     handlerPath := "/srv/src/(admin)/users/index.get.ts";
     middlewares := []; params := None; bodyExpected := None |}.




(** [/srv/src/users] with an expectations module that throws when loaded. *)
Definition fsExpectBroken : Node :=
  dir "" [dir "srv" [dir "src"
    [dir "users" [NFile "expectations.ts" None; handler "list.get.ts" 1]]]].

(** A builder whose cache still holds the expectations [users] had. *)
Definition builderStale : Builder :=
  setExpectationsCache
    [("/srv/src/users",
      VExpectations (RouteExpectations.mk (Some ["id"]) (Some true)))]
    builder0.

(** A table with a route under the unreadable directory of [fsBroken]. *)
Definition builderLocked : Builder :=
  setRoutes [("/srv/src/locked/x.get.ts",
              routeAt "locked/x" "/srv/src/locked/x.get.ts");
             ("/srv/src/list.get.ts", routeAt "/list" "/srv/src/list.get.ts")]
    builder0.

(* ------------------------------------------------------------------ *)
(** ** Incremental application, call by call *)











(* ------------------------------------------------------------------ *)
(** ** Directories that cannot be listed *)

(** The scan of [dirPath] comes upon an existing directory that cannot be
    listed: [dirPath] itself, or one below it on a way through listed
    directories whose names do not start with an underscore. *)
Inductive reachesUnlistable (env : Env) : string -> Prop :=
| unlistable_here (dirPath : string) :
    existsSync env dirPath = true -> readdirSync env dirPath = None ->
    reachesUnlistable env dirPath
| unlistable_below (dirPath : string) (entries : list Dirent) (e : Dirent) :
    existsSync env dirPath = true -> readdirSync env dirPath = Some entries ->
    In e entries -> Str.startsWith (name e) "_" = false ->
    kind e = IsDirectory ->
    reachesUnlistable env (Path.join dirPath (name e)) ->
    reachesUnlistable env dirPath.

(** [/srv/src/a/deep], which cannot be listed, beside [/srv/src/b/y.get.ts]. *)
Definition fsDeep : Node :=
  dir "" [dir "srv" [dir "src"
    [dir "a" [handler "x.get.ts" 1; NDir "deep" false []];
     dir "b" [handler "y.get.ts" 2]]]].

(* ------------------------------------------------------------------ *)
(** * Properties *)

(** ** Evaluation checks *)

Example normalize_ex1 : Path.normalize "/a//b/../c/" = "/a/c/".
Proof. reflexivity. Qed.

Example join_ex1 : Path.join "" "admin" = "admin".
Proof. reflexivity. Qed.

Example join_ex2 : Path.join "/srv/src" "users" = "/srv/src/users".
Proof. reflexivity. Qed.

Example dirname_ex1 : Path.dirname "/srv/src/users/list.get.ts" = "/srv/src/users".
Proof. reflexivity. Qed.

Example dirname_ex2 : Path.dirname "/srv" = "/" /\ Path.dirname "/" = "/"
  /\ Path.dirname "a" = "." /\ Path.dirname "a//b" = "a/".
Proof. repeat split. Qed.

Example basename_ex1 : Path.basename "/srv/src/users/list.get.ts" = "list.get.ts"
  /\ Path.basename "/a/b/" = "b" /\ Path.basename "/" = "".
Proof. repeat split. Qed.

Example relative_ex1 : Path.relative "/srv" "/srv/src" "/srv/src/users/x" = "users/x"
  /\ Path.relative "/srv" "/srv/src/a" "/srv/src" = ".."
  /\ Path.relative "/srv" "/srv/src" "/srv/src" = "".
Proof. repeat split. Qed.

Example matchRouteFileName_ex :
  matchRouteFileName "list.get.ts" = Some ("list", "get")
  /\ matchRouteFileName "a.b.c.ts" = Some ("a.b", "c")
  /\ matchRouteFileName "list.GET.ts" = None
  /\ matchRouteFileName ".get.ts" = None
  /\ matchRouteFileName "middleware.ts" = None
  /\ matchRouteFileName "list.get.ts.bak" = None.
Proof. repeat split. Qed.

Example groupMatch_ex :
  groupMatch "(admin)" = Some "admin" /\ groupMatch "()" = Some ""
  /\ groupMatch "admin" = None /\ groupMatch "(a)b" = None.
Proof. repeat split. Qed.

Example scan_fsGroup :
  scanPaths (scanDirectory (envOf fsGroup) "/srv" "/srv/src" 10 [] "/srv/src" "")
  = Returned ["admin/users/list"].
Proof. vm_compute. reflexivity. Qed.

(** ** Strings and paths *)

Lemma chars_app (a b : string) :
  Str.chars (a ++ b) = (Str.chars a ++ Str.chars b)%list.
Proof.
  induction a as [|c a IH]; simpl; [reflexivity|].
  unfold Str.chars in *. simpl. now rewrite IH.
Qed.

Lemma ofChars_chars (s : string) : Str.ofChars (Str.chars s) = s.
Proof. apply string_of_list_ascii_of_string. Qed.

Lemma chars_ofChars (l : list ascii) : Str.chars (Str.ofChars l) = l.
Proof. apply list_ascii_of_string_of_list_ascii. Qed.

Lemma append_assoc (a b c : string) : ((a ++ b) ++ c = a ++ (b ++ c))%string.
Proof. induction a; simpl; congruence. Qed.

Lemma append_empty_r (a : string) : (a ++ "")%string = a.
Proof. induction a; simpl; congruence. Qed.

Lemma noSlash_cons (c : ascii) (s : string) :
  Str.noSlash (String c s) = negb (Ascii.eqb c Str.slash) && Str.noSlash s.
Proof. reflexivity. Qed.

Lemma split_noSlash (s : string) :
  Str.noSlash s = true -> Str.split Str.slash s = [s].
Proof.
  induction s as [|c s IH]; [reflexivity|].
  rewrite noSlash_cons. intros H. apply andb_prop in H as [Hc Hs].
  simpl. apply negb_true_iff in Hc. rewrite Hc, (IH Hs). reflexivity.
Qed.

Lemma split_app_slash (a b : string) :
  Str.noSlash a = true ->
  Str.split Str.slash (a ++ String Str.slash b) = a :: Str.split Str.slash b.
Proof.
  induction a as [|c a IH]; intros H.
  - reflexivity.
  - rewrite noSlash_cons in H. apply andb_prop in H as [Hc Hs].
    apply negb_true_iff in Hc. simpl. rewrite Hc, (IH Hs). reflexivity.
Qed.

Lemma join_cons (x y : string) (l : list string) :
  Str.join "/" (x :: y :: l) = (x ++ "/" ++ Str.join "/" (y :: l))%string.
Proof. reflexivity. Qed.

Lemma join_snoc (l : list string) (x : string) :
  l <> [] -> Str.join "/" (l ++ [x]) = (Str.join "/" l ++ "/" ++ x)%string.
Proof.
  induction l as [|y l IH]; [congruence|]. intros _.
  destruct l as [|z l].
  - reflexivity.
  - change ((y :: z :: l) ++ [x])%list with (y :: z :: (l ++ [x]))%list.
    rewrite join_cons.
    change (z :: (l ++ [x]))%list with ((z :: l) ++ [x])%list.
    rewrite IH by discriminate.
    rewrite join_cons. now rewrite !append_assoc.
Qed.

Lemma split_join (l : list string) :
  l <> [] -> Forall (fun s => Str.noSlash s = true) l ->
  Str.split Str.slash (Str.join "/" l) = l.
Proof.
  induction l as [|x l IH]; [congruence|]. intros _ H.
  inversion H as [|? ? Hx Hl]; subst.
  destruct l as [|y l].
  - simpl. now apply split_noSlash.
  - rewrite join_cons. change ("/" ++ Str.join "/" (y :: l))%string
      with (String Str.slash (Str.join "/" (y :: l))).
    rewrite split_app_slash by assumption. f_equal. apply IH; [discriminate|assumption].
Qed.

Lemma plainSeg_noSlash (s : string) : plainSeg s = true -> Str.noSlash s = true.
Proof.
  unfold plainSeg. intros H.
  repeat (apply andb_prop in H as [H ?]). assumption.
Qed.

Lemma plainSeg_nonempty (s : string) : plainSeg s = true -> s <> "".
Proof.
  unfold plainSeg. intros H ->. discriminate.
Qed.

Lemma normalizeSegs_plain (b : bool) (l acc : list string) :
  Forall (fun s => plainSeg s = true) l ->
  Path.normalizeSegs b acc l = (rev acc ++ l)%list.
Proof.
  revert acc. induction l as [|x l IH]; intros acc H; simpl.
  - now rewrite app_nil_r.
  - inversion H as [|? ? Hx Hl]; subst.
    unfold plainSeg in Hx.
    apply andb_prop in Hx as [Hx H3]. apply andb_prop in Hx as [Hx H2].
    apply andb_prop in Hx as [H0 H1].
    apply negb_true_iff in H0, H2, H3. rewrite H0, H2, H3. simpl.
    rewrite IH by assumption. simpl. now rewrite <- app_assoc.
Qed.

Lemma dropWhile_all {A} (f : A -> bool) (l r : list A) :
  forallb f l = true -> Path.dropWhile f (l ++ r) = Path.dropWhile f r.
Proof.
  induction l as [|x l IH]; simpl; [reflexivity|].
  intros H. apply andb_prop in H as [Hx Hl]. now rewrite Hx, IH.
Qed.

Lemma takeWhile_all {A} (f : A -> bool) (l r : list A) :
  forallb f l = true ->
  Path.takeWhile f (l ++ r) = (l ++ Path.takeWhile f r)%list.
Proof.
  induction l as [|x l IH]; simpl; [reflexivity|].
  intros H. apply andb_prop in H as [Hx Hl]. now rewrite Hx, IH.
Qed.

Lemma forallb_rev {A} (f : A -> bool) (l : list A) :
  forallb f (rev l) = forallb f l.
Proof.
  induction l as [|x l IH]; simpl; [reflexivity|].
  rewrite forallb_app, IH. simpl. rewrite andb_true_r. apply andb_comm.
Qed.

(** The characters of a plain segment read backwards: a first one that is
    no slash, and no slash anywhere. *)
Lemma plainSeg_rev (n : string) :
  plainSeg n = true ->
  exists c r, rev (Str.chars n) = c :: r
    /\ Path.isSlash c = false
    /\ forallb (fun c => negb (Path.isSlash c)) (rev (Str.chars n)) = true.
Proof.
  intros H. pose proof (plainSeg_noSlash _ H) as Hs.
  pose proof (plainSeg_nonempty _ H) as Hn.
  unfold Str.noSlash in Hs.
  assert (Hr : forallb (fun c => negb (Path.isSlash c)) (rev (Str.chars n)) = true).
  { rewrite forallb_rev. exact Hs. }
  destruct (rev (Str.chars n)) as [|c r] eqn:E.
  - exfalso. apply Hn. apply (f_equal (@rev ascii)) in E.
    rewrite rev_involutive in E. simpl in E.
    rewrite <- (ofChars_chars n), E. reflexivity.
  - exists c, r. repeat split; [|exact Hr].
    simpl in Hr. apply andb_prop in Hr as [Hc _]. now apply negb_true_iff in Hc.
Qed.

Lemma endsWith_slash_plain (a n : string) :
  plainSeg n = true -> Str.endsWith (a ++ n) "/" = false.
Proof.
  intros H. destruct (plainSeg_rev _ H) as (c & r & E & Hc & _).
  unfold Str.endsWith. rewrite chars_app, rev_app_distr, E.
  change (Str.ofChars (rev (Str.chars "/"))) with "/".
  unfold Str.ofChars. rewrite <- app_comm_cons.
  cbn [string_of_list_ascii Str.startsWith].
  change (Ascii.eqb c "/") with (Path.isSlash c). now rewrite Hc.
Qed.

Lemma join_nonempty (x : string) (l : list string) :
  x <> "" -> Str.join "/" (x :: l) <> "".
Proof.
  intros Hx. destruct l; simpl; [assumption|].
  destruct x; [congruence|]. discriminate.
Qed.

Lemma eqb_false_of_neq (a b : string) : a <> b -> (a =? b)%string = false.
Proof. apply String.eqb_neq. Qed.

(** The segments of [d/n] after normalization, [d] absolute and normal. *)
Lemma normalizeSegs_abs_snoc (segs : list string) (n : string) :
  Forall (fun s => plainSeg s = true) segs -> plainSeg n = true ->
  Path.normalizeSegs false []
    (Str.split Str.slash (absPath segs ++ "/" ++ n)) = (segs ++ [n])%list.
Proof.
  intros Hs Hn. unfold absPath.
  destruct segs as [|x segs].
  - simpl Str.join. simpl append.
    change (Str.split Str.slash (String "/" (String "/" n)))
      with ("" :: "" :: Str.split Str.slash n).
    rewrite (split_noSlash n) by now apply plainSeg_noSlash.
    change (Path.normalizeSegs false [] [""; ""; n])
      with (Path.normalizeSegs false [] [n]).
    rewrite normalizeSegs_plain by (constructor; auto). reflexivity.
  - rewrite append_assoc. rewrite <- join_snoc by discriminate.
    change ("/" ++ Str.join "/" ((x :: segs) ++ [n]))%string
      with (String Str.slash (Str.join "/" ((x :: segs) ++ [n]))).
    change (Str.split Str.slash (String Str.slash ?s))
      with ("" :: Str.split Str.slash s).
    assert (Hall : Forall (fun s => plainSeg s = true) ((x :: segs) ++ [n])).
    { apply Forall_app; split; [assumption| constructor; auto]. }
    rewrite split_join.
    + change (Path.normalizeSegs false [] ("" :: ?l))
        with (Path.normalizeSegs false [] l).
      now rewrite normalizeSegs_plain.
    + discriminate.
    + eapply Forall_impl; [|exact Hall]. apply plainSeg_noSlash.
Qed.

(** [path.join(d, n)] appends the segment. *)
Lemma join_absPath (segs : list string) (n : string) :
  Forall (fun s => plainSeg s = true) segs -> plainSeg n = true ->
  Path.join (absPath segs) n = absPath (segs ++ [n]).
Proof.
  intros Hs Hn. unfold Path.join.
  rewrite (eqb_false_of_neq n "") by now apply plainSeg_nonempty.
  change (absPath segs =? "")%string with false. cbv iota.
  assert (H1 : ((absPath segs ++ "/" ++ n) =? "")%string = false) by reflexivity.
  assert (H2 : Path.isAbsolute (absPath segs ++ "/" ++ n) = true) by reflexivity.
  assert (H3 : Str.endsWith (absPath segs ++ "/" ++ n) "/" = false).
  { rewrite <- append_assoc. now apply endsWith_slash_plain. }
  pose proof (normalizeSegs_abs_snoc segs n Hs Hn) as H4.
  assert (H5 : (Str.join "/" (segs ++ [n]) =? "")%string = false).
  { apply eqb_false_of_neq. destruct segs as [|x segs]; simpl List.app.
    - now apply plainSeg_nonempty.
    - apply join_nonempty. inversion Hs; subst. now apply plainSeg_nonempty. }
  unfold Path.normalize.
  set (p := (absPath segs ++ "/" ++ n)%string) in *.
  rewrite H1, H2, H3. cbn [negb]. rewrite H4, H5. reflexivity.
Qed.

Lemma chars_absPath_snoc (segs : list string) (n : string) :
  Str.chars (absPath (segs ++ [n])) =
  match segs with
  | [] => Str.slash :: Str.chars n
  | _ => (Str.slash :: Str.chars (Str.join "/" segs) ++ Str.slash :: Str.chars n)%list
  end.
Proof.
  unfold absPath. destruct segs as [|x segs].
  - reflexivity.
  - rewrite join_snoc by discriminate.
    change ("/" ++ ?s)%string with (String Str.slash s).
    change (Str.chars (String Str.slash ?s)) with (Str.slash :: Str.chars s).
    rewrite chars_app. reflexivity.
Qed.

Lemma chars_nonempty (s : string) : s <> "" -> Str.chars s <> [].
Proof. destruct s; [congruence|discriminate]. Qed.

(** [path.dirname] undoes [path.join] on normalized absolute paths. *)
Lemma dirname_absPath (segs : list string) (n : string) :
  Forall (fun s => plainSeg s = true) segs -> plainSeg n = true ->
  Path.dirname (absPath (segs ++ [n])) = absPath segs.
Proof.
  intros Hs Hn. destruct (plainSeg_rev _ Hn) as (c & r & E & Hc & Hall).
  unfold Path.dirname. rewrite chars_absPath_snoc.
  destruct segs as [|x segs].
  - change (Path.isSlash Str.slash) with true. cbv iota.
    rewrite E. cbn [Path.dropWhile]. rewrite Hc.
    rewrite <- E. rewrite <- (app_nil_r (rev (Str.chars n))).
    rewrite dropWhile_all by exact Hall. reflexivity.
  - change (Path.isSlash Str.slash) with true. cbv iota.
    rewrite rev_app_distr. cbn [rev]. rewrite <- !app_assoc. cbn [List.app].
    rewrite E. rewrite <- app_comm_cons. cbn [Path.dropWhile]. rewrite Hc.
    rewrite app_comm_cons, <- E.
    rewrite dropWhile_all by exact Hall.
    change ([Str.slash] ++ ?l)%list with (Str.slash :: l).
    cbn [Path.dropWhile]. change (negb (Path.isSlash Str.slash)) with false.
    cbv iota.
    assert (Hne : rev (Str.chars (Str.join "/" (x :: segs))) <> []).
    { intros H0. apply (f_equal (@rev ascii)) in H0.
      rewrite rev_involutive in H0. simpl in H0.
      apply (chars_nonempty (Str.join "/" (x :: segs))); [|exact H0].
      apply join_nonempty. inversion Hs; subst. now apply plainSeg_nonempty. }
    destruct (rev (Str.chars (Str.join "/" (x :: segs)))) as [|d l] eqn:Er;
      [congruence|].
    rewrite <- Er, rev_involutive. unfold absPath.
    change (Str.ofChars (?a :: ?l)) with (String a (Str.ofChars l)).
    now rewrite ofChars_chars.
Qed.

Lemma basename_absPath (segs : list string) (n : string) :
  Forall (fun s => plainSeg s = true) segs -> plainSeg n = true ->
  Path.basename (absPath (segs ++ [n])) = n.
Proof.
  intros Hs Hn. destruct (plainSeg_rev _ Hn) as (c & r & E & Hc & Hall).
  unfold Path.basename. rewrite chars_absPath_snoc.
  assert (Hshape : exists tl,
    rev match segs with
        | [] => Str.slash :: Str.chars n
        | _ :: _ => (Str.slash :: Str.chars (Str.join "/" segs)
                     ++ Str.slash :: Str.chars n)%list
        end = (rev (Str.chars n) ++ Str.slash :: tl)%list).
  { destruct segs as [|x segs].
    - exists []. reflexivity.
    - exists (rev (Str.chars (Str.join "/" (x :: segs))) ++ [Str.slash])%list.
      cbn [rev]. rewrite rev_app_distr. cbn [rev].
      rewrite <- !app_assoc. reflexivity. }
  destruct Hshape as (tl & ->).
  rewrite E. rewrite <- app_comm_cons. cbn [Path.dropWhile]. rewrite Hc.
  rewrite app_comm_cons, <- E.
  rewrite takeWhile_all by exact Hall.
  cbn [Path.takeWhile]. change (negb (Path.isSlash Str.slash)) with false.
  cbv iota. rewrite app_nil_r, rev_involutive. apply ofChars_chars.
Qed.

(** ** The route table *)

Lemma map_get_set {V} (k k' : string) (v : V) (m : list (string * V)) :
  map_get k' (map_set k v m) = if (k =? k')%string then Some v else map_get k' m.
Proof.
  induction m as [|[k0 v0] m IH]; simpl.
  - reflexivity.
  - destruct (k0 =? k)%string eqn:E0; simpl.
    + apply String.eqb_eq in E0. subst k0.
      destruct (k =? k')%string; reflexivity.
    + rewrite IH. destruct (k =? k')%string eqn:E1; [|reflexivity].
      apply String.eqb_eq in E1. subst k'. now rewrite E0.
Qed.

(** ** Configuration *)

(** C7, as the code has it: without a user configuration the builder works
    with source directory [./src] resolved against the project root, base
    path [/api], [cacheable] set and port 3000; an empty configuration
    object gives the same. *)
Theorem C7_effective_defaults (cwd : string) (a : App) (fresh : nat) :
  config (newBuilder cwd a fresh None) =
    {| sourceDirectory := Some (Path.resolve cwd "./src");
       basePath := Some "/api";
       cacheable := Some true;
       port := Some 3000 |}
  /\ config (newBuilder cwd a fresh (Some (mkConfig None None None None)))
     = config (newBuilder cwd a fresh None).
Proof. split; reflexivity. Qed.

(** C7 as stated fails: the default base path is [/api], not [/]. *)
Lemma C7_default_basePath_is_not_root :
  basePath (config (newBuilder "/srv" (mkApp 0 false) 1 None)) <> Some "/"
  /\ basePath defaultConfig <> basePath utilsConfig.
Proof. split; discriminate. Qed.

(** ** Removal of a file *)

(** C10: an unlink of a path that is no key of the table leaves the table,
    the server and the caches as they are; the only effects are the two
    diagnostics, so nothing is created, stopped or started. *)
Theorem C10_unlink_unknown_path (env : Env) (filePath : string) (b : Builder) :
  map_has filePath (routes b) = false ->
  let b' := handleFileRemoval env filePath b in
  routes b' = routes b /\ app b' = app b /\ nextId b' = nextId b
  /\ trace b' = (trace b ++ [ELogRouteTree; EEmitRoutesUpdated])%list.
Proof.
  intros H. unfold handleFileRemoval. rewrite H. simpl.
  repeat split. now rewrite <- app_assoc.
Qed.

Lemma C10_unlink_unknown_path_witness :
  routes (handleFileRemoval (envOf fsUsers) "/srv/src/users/gone.get.ts" builder0)
    = routes builder0.
Proof.
  apply (C10_unlink_unknown_path (envOf fsUsers) "/srv/src/users/gone.get.ts"
           builder0).
  reflexivity.
Defined.

(** ** Removal of a directory *)

(** C2, the code at the failing input: removing directory [a/b] also
    removes the route of [a/bc/y.get.ts]. *)
Theorem C2_raw_prefix_removes_sibling :
  map_has "/srv/src/a/bc/y.get.ts" (routes builderSiblings) = true
  /\ map_keys (routes (handleDirectoryRemoval (envOf fsSiblingsAfter)
                         "/srv/src/a/b" builderSiblings)) = [].
Proof. split; vm_compute; reflexivity. Qed.

(** ** Incremental application *)

Lemma trace_emit (e : Effect) (b : Builder) : trace (emit e b) = (trace b ++ [e])%list.
Proof. reflexivity. Qed.

Lemma useMiddlewares_frame (env : Env) (id : nat) (route : RouteDefinition)
    (mws : list string) (b : Builder) :
  let b' := useMiddlewares env id mws b in
  routes b' = routes b /\ app b' = app b /\ nextId b' = nextId b
  /\ config b' = config b
  /\ exists added, trace b' = (trace b ++ added)%list
       /\ Forall (incrementalEffect id route) added.
Proof.
  revert b. induction mws as [|mw mws IH]; intros b; cbn [useMiddlewares].
  - repeat split. exists []. split; [now rewrite app_nil_r|constructor].
  - destruct (map_has mw (middlewareCache b)).
    + destruct (IH (emit (EUse id match map_get mw (middlewareCache b) with
                                  | Some v => v | None => VUndefined end) b))
        as (Hr & Ha & Hn & Hc & added & Ht & Hf).
      cbv zeta in *. rewrite Hr, Ha, Hn, Hc. repeat split.
      eexists (_ :: added). split.
      * rewrite Ht, trace_emit, <- app_assoc. reflexivity.
      * constructor; [reflexivity|assumption].
    + destruct (requireDefault env mw) as [v|].
      * destruct (IH (emit (EUse id v)
                        (setMiddlewareCache (map_set mw v (middlewareCache b)) b)))
          as (Hr & Ha & Hn & Hc & added & Ht & Hf).
        cbv zeta in *. rewrite Hr, Ha, Hn, Hc. repeat split.
        eexists (_ :: added). split.
        -- rewrite Ht, trace_emit, <- app_assoc. reflexivity.
        -- constructor; [reflexivity|assumption].
      * destruct (IH (emit (EError "Error loading middleware") b))
          as (Hr & Ha & Hn & Hc & added & Ht & Hf).
        cbv zeta in *. rewrite Hr, Ha, Hn, Hc. repeat split.
        eexists (_ :: added). split.
        -- rewrite Ht, trace_emit, <- app_assoc. reflexivity.
        -- constructor; [exact I|assumption].
Qed.

Lemma applyRouteToApp_frame (env : Env) (route : RouteDefinition) (id : nat)
    (b : Builder) :
  let b' := applyRouteToApp env route id b in
  routes b' = routes b /\ app b' = app b /\ nextId b' = nextId b
  /\ config b' = config b
  /\ exists added, trace b' = (trace b ++ added)%list
       /\ Forall (incrementalEffect id route) added.
Proof.
  unfold applyRouteToApp. destruct (requireDefault env (handlerPath route)) as [h|].
  - destruct (useMiddlewares_frame env id route (middlewares route) b)
      as (Hr & Ha & Hn & Hc & added & Ht & Hf).
    cbv zeta in *.
    destruct (isFunctionProp env (toLowerCase (method route)));
      cbn [emit routes app nextId config trace]; rewrite Hr, Ha, Hn, Hc;
      repeat split; eexists (added ++ [_])%list; (split;
        [rewrite Ht, <- app_assoc; reflexivity
        |apply Forall_app; split; [assumption|constructor; [|constructor]]]).
    + repeat split.
    + exact I.
  - cbn. repeat split. eexists [_]. split; [reflexivity|].
    constructor; [exact I|constructor].
Qed.

(** ** The file-name grammar *)

Lemma hasLineTerminator_app (l r : list ascii) :
  Str.hasLineTerminator (l ++ r) = false -> Str.hasLineTerminator l = false.
Proof.
  induction l as [|c l IH]; [reflexivity|].
  cbn [List.app Str.hasLineTerminator]. intros H.
  apply orb_false_iff in H as [H H3]. apply orb_false_iff in H as [H H2].
  rewrite H, (IH H3). cbn [orb]. rewrite orb_false_r.
  destruct l as [|c1 [|c2 l]]; try reflexivity. exact H2.
Qed.

Lemma takeWhile_dropWhile {A} (f : A -> bool) (l : list A) :
  (Path.takeWhile f l ++ Path.dropWhile f l)%list = l.
Proof.
  induction l as [|x l IH]; simpl; [reflexivity|].
  destruct (f x); simpl; congruence.
Qed.

Lemma takeWhile_forallb {A} (f : A -> bool) (l : list A) :
  forallb f (Path.takeWhile f l) = true.
Proof.
  induction l as [|x l IH]; simpl; [reflexivity|].
  destruct (f x) eqn:E; simpl; [now rewrite E|reflexivity].
Qed.

Lemma dropWhile_length_le {A} (f : A -> bool) (l : list A) :
  List.length (Path.dropWhile f l) <= List.length l.
Proof.
  induction l as [|x l IH]; simpl; [lia|]. destruct (f x); simpl; lia.
Qed.

Lemma dropWhile_app_length {A} (f : A -> bool) (x y : list A) :
  List.length (Path.dropWhile f y) <= List.length (Path.dropWhile f (x ++ y)).
Proof.
  induction x as [|a x IH]; simpl; [lia|].
  destruct (f a); [exact IH|]. simpl. rewrite length_app.
  pose proof (dropWhile_length_le f y). lia.
Qed.

Lemma chars_inj (a b : string) : Str.chars a = Str.chars b -> a = b.
Proof.
  intros H. rewrite <- (ofChars_chars a), <- (ofChars_chars b). now rewrite H.
Qed.

Lemma ofChars_nonempty (l : list ascii) : l <> [] -> Str.ofChars l <> "".
Proof. destruct l; [congruence|discriminate]. Qed.

Lemma matchTail_sound (rest : list ascii) (m : string) :
  matchTail rest = Some m ->
  rest = (Str.dot :: Str.chars m ++ tsSuffix)%list
  /\ m <> "" /\ forallb Str.isLower (Str.chars m) = true.
Proof.
  unfold matchTail. destruct rest as [|c t]; [discriminate|].
  destruct (Ascii.eqb c Str.dot) eqn:Ec; [|discriminate].
  apply Ascii.eqb_eq in Ec. subst c.
  destruct (Path.takeWhile Str.isLower t) as [|r0 run] eqn:Er; [discriminate|].
  destruct (Str.ofChars (Path.dropWhile Str.isLower t) =? ".ts")%string eqn:Ea;
    [|discriminate].
  intros H. injection H as <-. apply String.eqb_eq in Ea.
  change (String r0 (Str.ofChars run)) with (Str.ofChars (r0 :: run)).
  rewrite chars_ofChars. repeat split.
  - f_equal. rewrite <- (takeWhile_dropWhile Str.isLower t) at 1.
    rewrite Er. f_equal. unfold tsSuffix. rewrite <- Ea. now rewrite chars_ofChars.
  - apply ofChars_nonempty. discriminate.
  - rewrite <- Er. apply takeWhile_forallb.
Qed.

Lemma matchTail_complete (m : string) :
  m <> "" -> forallb Str.isLower (Str.chars m) = true ->
  matchTail (Str.dot :: Str.chars m ++ tsSuffix) = Some m.
Proof.
  intros Hm Hl. unfold matchTail.
  change (Ascii.eqb Str.dot Str.dot) with true. cbv iota.
  rewrite takeWhile_all, dropWhile_all by assumption.
  change (Path.takeWhile Str.isLower tsSuffix) with (@nil ascii).
  change (Path.dropWhile Str.isLower tsSuffix) with tsSuffix.
  rewrite app_nil_r.
  destruct (Str.chars m) as [|c r] eqn:E.
  - exfalso. apply Hm. apply chars_inj. now rewrite E.
  - rewrite <- E. change (Str.ofChars tsSuffix =? ".ts")%string with true.
    cbv iota. now rewrite ofChars_chars.
Qed.

(** Before the end of the handler name the tail does not match: what is
    left after the letters is longer than [.ts]. *)
Lemma matchTail_early (k : list ascii) (m : string) :
  k <> [] -> m <> "" ->
  matchTail (k ++ Str.dot :: Str.chars m ++ tsSuffix) = None.
Proof.
  intros Hk Hm. destruct k as [|c k]; [congruence|].
  unfold matchTail. rewrite <- app_comm_cons.
  destruct (Ascii.eqb c Str.dot); [|reflexivity].
  destruct (Path.takeWhile Str.isLower (k ++ Str.dot :: Str.chars m ++ tsSuffix));
    [reflexivity|].
  destruct (Str.ofChars _ =? ".ts")%string eqn:E; [|reflexivity].
  exfalso. apply String.eqb_eq in E.
  apply (f_equal Str.chars) in E. rewrite chars_ofChars in E.
  apply (f_equal (@List.length ascii)) in E.
  pose proof (dropWhile_app_length Str.isLower k
                (Str.dot :: Str.chars m ++ tsSuffix)) as Hlen.
  rewrite E in Hlen.
  change (Path.dropWhile Str.isLower (Str.dot :: Str.chars m ++ tsSuffix))
    with (Str.dot :: Str.chars m ++ tsSuffix)%list in Hlen.
  cbn [List.length] in Hlen. rewrite length_app in Hlen.
  destruct (Str.chars m) as [|c0 r0] eqn:Em.
  - apply Hm. apply chars_inj. now rewrite Em.
  - simpl in Hlen. lia.
Qed.

Lemma matchName_sound (rest pre : list ascii) (n m : string) :
  matchName pre rest = Some (n, m) ->
  exists k, k <> []
    /\ Str.chars n = (rev pre ++ k)%list
    /\ rest = (k ++ Str.dot :: Str.chars m ++ tsSuffix)%list
    /\ Str.hasLineTerminator (Str.chars n) = false
    /\ m <> "" /\ forallb Str.isLower (Str.chars m) = true.
Proof.
  revert pre. induction rest as [|c rest IH]; intros pre; cbn [matchName];
    [discriminate|].
  destruct (Str.hasLineTerminator (rev (c :: pre))) eqn:Elt; [discriminate|].
  destruct (matchTail rest) as [m'|] eqn:Et.
  - intros H. injection H as <- <-.
    destruct (matchTail_sound _ _ Et) as (Hrest & Hm & Hl).
    exists [c]. rewrite chars_ofChars. repeat split; try assumption.
    + discriminate.
    + now rewrite Hrest.
  - intros H. destruct (IH _ H) as (k & Hk & Hn & Hrest & Hlt & Hm & Hl).
    exists (c :: k). repeat split; try assumption.
    + discriminate.
    + rewrite Hn. cbn [rev]. now rewrite <- app_assoc.
    + now rewrite Hrest.
Qed.

Lemma matchName_complete (k pre : list ascii) (m : string) :
  k <> [] -> Str.hasLineTerminator (rev pre ++ k) = false ->
  m <> "" -> forallb Str.isLower (Str.chars m) = true ->
  matchName pre (k ++ Str.dot :: Str.chars m ++ tsSuffix)
    = Some (Str.ofChars (rev pre ++ k), m).
Proof.
  revert pre. induction k as [|c k IH]; intros pre Hk Hlt Hm Hl; [congruence|].
  rewrite <- app_comm_cons. cbn [matchName].
  assert (Hpre : Str.hasLineTerminator (rev (c :: pre)) = false).
  { apply (hasLineTerminator_app _ k). cbn [rev]. now rewrite <- app_assoc. }
  rewrite Hpre. destruct k as [|c' k].
  - cbn [List.app]. rewrite matchTail_complete by assumption. reflexivity.
  - rewrite matchTail_early by (assumption || discriminate).
    rewrite IH; try assumption; try discriminate.
    + cbn [rev]. now rewrite <- app_assoc.
    + cbn [rev]. now rewrite <- app_assoc.
Qed.

(** C4, as the code has it: a file name parses to [(name, method)] exactly
    when it is [name.method.ts] with a non-empty name free of line
    terminators and a non-empty method of lowercase letters [a-z]; there
    is no list of admitted methods. *)
Theorem C4_file_name_grammar (s n m : string) :
  matchRouteFileName s = Some (n, m) <-> routeFileShape s n m.
Proof.
  unfold matchRouteFileName, routeFileShape. split.
  - intros H. destruct (matchName_sound _ _ _ _ H) as (k & Hk & Hn & Hs & Hlt & Hm & Hl).
    cbn [rev List.app] in Hn. subst k. repeat split; try assumption.
    + apply chars_inj. rewrite Hs, !chars_app. reflexivity.
    + intros ->. now apply Hk.
  - intros (Hs & Hn & Hlt & Hm & Hl). subst s.
    rewrite !chars_app.
    change (Str.chars "." ++ Str.chars m ++ Str.chars ".ts")%list
      with (Str.dot :: Str.chars m ++ tsSuffix)%list.
    rewrite (matchName_complete (Str.chars n) [] m); try assumption.
    + cbn [rev List.app]. now rewrite ofChars_chars.
    + now apply chars_nonempty.
Qed.

(** C4 as stated fails: [foo] is no recognized method, yet [list.foo.ts]
    parses. *)
Lemma C4_unrecognized_method_parses :
  existsb (String.eqb "foo") recognizedMethods = false
  /\ matchRouteFileName "list.foo.ts" = Some ("list", "foo")
  /\ matchRouteFileName "list.foo.ts" <> None.
Proof. repeat split. discriminate. Qed.

(** ** Errors during a scan *)

Lemma parseRouteFile_never_throws env cwd src fuel filePath basePath lm ex :
  parseRouteFile env cwd src fuel filePath basePath lm ex <> Threw.
Proof.
  unfold parseRouteFile.
  destruct (matchRouteFileName (Path.basename filePath)) as [[n m]|];
    [|discriminate].
  destruct (parentMiddlewares env src fuel (Path.dirname filePath)); discriminate.
Qed.

Lemma listingFailed_app_r env (l1 l2 : list LogEntry) :
  listingFailed env l2 -> listingFailed env (l1 ++ l2).
Proof.
  intros (p & H1 & H2 & H3). exists p. repeat split; try assumption.
  apply in_or_app. now right.
Qed.

Lemma listingFailed_app_l env (l1 l2 : list LogEntry) :
  listingFailed env l1 -> listingFailed env (l1 ++ l2).
Proof.
  intros (p & H1 & H2 & H3). exists p. repeat split; try assumption.
  apply in_or_app. now left.
Qed.

Section ScanErrors.
Variable env : Env.
Variables cwd src : string.

Lemma scanEntries_threw rec fuel dirPath basePath lm ex :
  (forall c d b, scan_routes (rec c d b) = Threw ->
                 listingFailed env (scan_log (rec c d b))) ->
  forall entries cache log routes,
    let r := scanEntries env cwd src rec fuel dirPath basePath lm ex
               entries cache log routes in
    scan_routes r = Threw -> listingFailed env (scan_log r).
Proof.
  intros Hrec. induction entries as [|e entries IH]; intros cache log routes;
    cbn [scanEntries]; [discriminate|].
  destruct (Str.startsWith (name e) "_"); [apply IH|].
  destruct (kind e).
  - destruct (Str.endsWith (name e) ".ts"); [|apply IH].
    destruct ((name e =? "middleware.ts")%string
              || (name e =? "expectations.ts")%string); [apply IH|].
    destruct (parseRouteFile env cwd src fuel (Path.join dirPath (name e))
                basePath lm ex) as [[route|]| |] eqn:Ep;
      try apply IH; cbn; try discriminate.
    exfalso. now apply (parseRouteFile_never_throws _ _ _ _ _ _ _ _ Ep).
  - destruct (scan_routes (rec cache (Path.join dirPath (name e)) _)) eqn:Es.
    + apply IH.
    + cbn. intros _. apply listingFailed_app_r. now apply Hrec.
    + cbn. discriminate.
  - apply IH.
Qed.

Lemma scanEntries_log_prefix rec fuel dirPath basePath lm ex :
  forall entries cache log routes,
  exists extra,
    scan_log (scanEntries env cwd src rec fuel dirPath basePath lm ex
                entries cache log routes) = (log ++ extra)%list.
Proof.
  induction entries as [|e entries IH]; intros cache log routes;
    cbn [scanEntries].
  - exists []. cbn. now rewrite app_nil_r.
  - destruct (Str.startsWith (name e) "_"); [apply IH|].
    destruct (kind e).
    + destruct (Str.endsWith (name e) ".ts"); [|apply IH].
      destruct ((name e =? "middleware.ts")%string
                || (name e =? "expectations.ts")%string); [apply IH|].
      destruct (parseRouteFile env cwd src fuel (Path.join dirPath (name e))
                  basePath lm ex) as [[route|]| |];
        try apply IH; exists []; cbn; now rewrite app_nil_r.
    + destruct (scan_routes (rec cache (Path.join dirPath (name e)) _)).
      * destruct (IH (scan_cache (rec cache (Path.join dirPath (name e))
                        (Str.replaceBackslashes (Path.join basePath
                           match groupMatch (name e) with
                           | Some g => g | None => name e end))))
                     (log ++ scan_log (rec cache (Path.join dirPath (name e))
                        (Str.replaceBackslashes (Path.join basePath
                           match groupMatch (name e) with
                           | Some g => g | None => name e end))))%list
                     (routes ++ a)%list) as (extra & Hx).
        rewrite Hx. eexists. rewrite <- app_assoc. reflexivity.
      * eexists. cbn. reflexivity.
      * eexists. cbn. reflexivity.
    + apply IH.
Qed.

Lemma scanDirectory_threw fuel :
  forall cache dirPath basePath,
    let r := scanDirectory env cwd src fuel cache dirPath basePath in
    scan_routes r = Threw -> listingFailed env (scan_log r).
Proof.
  induction fuel as [|fuel IH]; intros cache dirPath basePath;
    cbn [scanDirectory]; [discriminate|].
  destruct (existsSync env dirPath) eqn:Ed; cbn [negb]; [|discriminate].
  destruct (readdirSync env dirPath) as [entries|] eqn:Er.
  2:{ intros _. exists dirPath. repeat split; try assumption. now left. }
  match goal with
  | |- context [scanEntries env cwd src ?rec ?f ?d ?b ?lm ?ex ?es ?c ?l ?rs] =>
      pose proof (scanEntries_threw rec f d b lm ex IH es c l rs) as Hloop;
      destruct (scan_routes (scanEntries env cwd src rec f d b lm ex es c l rs))
        eqn:Es
  end; cbv zeta in *.
  - rewrite Es. discriminate.
  - cbn. intros _. apply listingFailed_app_l. now apply Hloop.
  - rewrite Es. discriminate.
Qed.
End ScanErrors.

(** A listing error is logged and rethrown, at the directory itself and
    from a subdirectory through the loop over the entries. *)
Lemma scanDirectory_listing_error env cwd src (fuel : nat)
    (cache : ExpectationsCache) (dirPath basePath : string) :
  existsSync env dirPath = true -> readdirSync env dirPath = None ->
  scanDirectory env cwd src (S fuel) cache dirPath basePath
  = mkScan cache [LogScanError dirPath] Threw.
Proof.
  intros Hd Hr. cbn [scanDirectory]. now rewrite Hd, Hr.
Qed.

Lemma scanEntries_rethrows env cwd src rec (fuel : nat) (dirPath basePath : string)
    lm ex (e : Dirent) (rest : list Dirent) cache log routes :
  Str.startsWith (name e) "_" = false -> kind e = IsDirectory ->
  scan_routes (rec cache (Path.join dirPath (name e))
                 (Str.replaceBackslashes (Path.join basePath
                    match groupMatch (name e) with
                    | Some g => g
                    | None => name e
                    end))) = Threw ->
  scan_routes (scanEntries env cwd src rec fuel dirPath basePath lm ex
                 (e :: rest) cache log routes) = Threw.
Proof.
  intros Hu Hk Hs. cbn [scanEntries]. now rewrite Hu, Hk, Hs.
Qed.

(** A directory the loop descends into whose scan does not return keeps
    the loop from returning, wherever it stands among the entries. *)
Lemma scanEntries_aborts env cwd src rec (fuel : nat) (dirPath basePath : string)
    lm ex (e : Dirent) :
  Str.startsWith (name e) "_" = false -> kind e = IsDirectory ->
  (forall cache b rs,
     scan_routes (rec cache (Path.join dirPath (name e)) b) <> Returned rs) ->
  forall entries, In e entries ->
  forall cache log routes rs,
    scan_routes (scanEntries env cwd src rec fuel dirPath basePath lm ex
                   entries cache log routes) <> Returned rs.
Proof.
  intros Hu Hk Hrec.
  induction entries as [|e0 entries IH]; intros Hin cache log routes rs;
    [destruct Hin|].
  destruct Hin as [->|Hin]; cbn [scanEntries].
  - rewrite Hu, Hk.
    destruct (scan_routes (rec cache (Path.join dirPath (name e)) _)) eqn:Es;
      cbn; try discriminate.
    exfalso. exact (Hrec _ _ _ Es).
  - destruct (Str.startsWith (name e0) "_"); [now apply IH|].
    destruct (kind e0).
    + destruct (Str.endsWith (name e0) ".ts"); [|now apply IH].
      destruct ((name e0 =? "middleware.ts")%string
                || (name e0 =? "expectations.ts")%string); [now apply IH|].
      destruct (parseRouteFile env cwd src fuel (Path.join dirPath (name e0))
                  basePath lm ex) as [[route|]| |];
        try (now apply IH); cbn; discriminate.
    + destruct (scan_routes (rec cache (Path.join dirPath (name e0)) _));
        [now apply IH|cbn; discriminate|cbn; discriminate].
    + now apply IH.
Qed.

Lemma scanDirectory_aborts env cwd src (dirPath : string) :
  reachesUnlistable env dirPath ->
  forall fuel cache basePath rs,
    scan_routes (scanDirectory env cwd src fuel cache dirPath basePath)
    <> Returned rs.
Proof.
  induction 1 as [dirPath Hd Hr|dirPath entries e Hd Hr Hin Hu Hk _ IH];
    intros [|fuel] cache basePath rs; cbn [scanDirectory]; try discriminate.
  - rewrite Hd, Hr. cbn. discriminate.
  - rewrite Hd, Hr. cbn [negb].
    match goal with
    | |- context [scanEntries env cwd src ?rec ?f ?d ?b ?lm ?ex ?es ?c ?l ?rs0] =>
        pose proof (scanEntries_aborts env cwd src rec f d b lm ex e Hu Hk
                      (fun c' b' rs' => IH fuel c' b' rs') es Hin c l rs0) as Hloop;
        destruct (scan_routes (scanEntries env cwd src rec f d b lm ex es c l rs0))
          eqn:Es
    end; cbv zeta in *.
    + exfalso. exact (Hloop _ eq_refl).
    + cbn. discriminate.
    + rewrite Es. discriminate.
Qed.

(** A scan throws only when it came upon a directory that cannot be
    listed. *)
Lemma scanEntries_threw_entry env cwd src rec (fuel : nat)
    (dirPath basePath : string) lm ex :
  forall entries cache log routes,
    scan_routes (scanEntries env cwd src rec fuel dirPath basePath lm ex
                   entries cache log routes) = Threw ->
    exists e c b,
      In e entries /\ Str.startsWith (name e) "_" = false
      /\ kind e = IsDirectory
      /\ scan_routes (rec c (Path.join dirPath (name e)) b) = Threw.
Proof.
  induction entries as [|e entries IH]; intros cache log routes;
    cbn [scanEntries]; [cbn; discriminate|].
  assert (Hnext : forall c l rs0,
            scan_routes (scanEntries env cwd src rec fuel dirPath basePath lm ex
                           entries c l rs0) = Threw ->
            exists e' c' b,
              In e' (e :: entries) /\ Str.startsWith (name e') "_" = false
              /\ kind e' = IsDirectory
              /\ scan_routes (rec c' (Path.join dirPath (name e')) b) = Threw).
  { intros c l rs0 H. destruct (IH _ _ _ H) as (e' & c' & b & H1 & H2).
    exists e', c', b. split; [now right|exact H2]. }
  destruct (Str.startsWith (name e) "_") eqn:Hu; [apply Hnext|].
  destruct (kind e) eqn:Hk.
  - destruct (Str.endsWith (name e) ".ts"); [|apply Hnext].
    destruct ((name e =? "middleware.ts")%string
              || (name e =? "expectations.ts")%string); [apply Hnext|].
    destruct (parseRouteFile env cwd src fuel (Path.join dirPath (name e))
                basePath lm ex) as [[route|]| |] eqn:Ep;
      try apply Hnext; cbn; try discriminate.
    exfalso. now apply (parseRouteFile_never_throws _ _ _ _ _ _ _ _ Ep).
  - destruct (scan_routes (rec cache (Path.join dirPath (name e)) _)) eqn:Es.
    + apply Hnext.
    + intros _. eexists e, _, _. repeat split; try eassumption. now left.
    + cbn. discriminate.
  - apply Hnext.
Qed.

Lemma scanDirectory_threw_reaches env cwd src (fuel : nat) :
  forall cache dirPath basePath,
    scan_routes (scanDirectory env cwd src fuel cache dirPath basePath) = Threw ->
    reachesUnlistable env dirPath.
Proof.
  induction fuel as [|fuel IH]; intros cache dirPath basePath;
    cbn [scanDirectory]; [discriminate|].
  destruct (existsSync env dirPath) eqn:Ed; cbn [negb]; [|discriminate].
  destruct (readdirSync env dirPath) as [entries|] eqn:Er.
  2:{ intros _. now apply unlistable_here. }
  match goal with
  | |- context [scanEntries env cwd src ?rec ?f ?d ?b ?lm ?ex ?es ?c ?l ?rs] =>
      pose proof (scanEntries_threw_entry env cwd src rec f d b lm ex es c l rs)
        as Hloop;
      destruct (scan_routes (scanEntries env cwd src rec f d b lm ex es c l rs))
        eqn:Es
  end; cbv zeta in *.
  - rewrite Es. discriminate.
  - intros _. destruct (Hloop eq_refl) as (e & c & b & Hin & Hu & Hk & Ht).
    eapply unlistable_below; try eassumption. eapply IH. exact Ht.
  - rewrite Es. discriminate.
Qed.

(** C6, as the code has it.  A directory that cannot be listed, reached
    anywhere in the scan, keeps the scan from returning its routes: the
    error is rethrown through every enclosing directory, so the scan that
    ends has thrown; a scan throws in that event only, and the log then
    names a directory that could not be listed.  An error raised while
    loading a directory's expectations module is logged and the loop over
    all the entries of that directory still runs, with no expectations
    loaded and the cache untouched. *)
Theorem C6_scan_errors (env : Env) (cwd src : string) (fuel : nat)
    (cache : ExpectationsCache) (dirPath basePath : string) :
  let r := scanDirectory env cwd src fuel cache dirPath basePath in
  (reachesUnlistable env dirPath ->
     (forall rs, scan_routes r <> Returned rs)
     /\ (scan_routes r <> NoFuel -> scan_routes r = Threw))
  /\ (scan_routes r = Threw ->
        reachesUnlistable env dirPath /\ listingFailed env (scan_log r))
  /\ (forall fuel' entries,
        fuel = S fuel' ->
        existsSync env dirPath = true ->
        readdirSync env dirPath = Some entries ->
        existsSync env (Path.join dirPath "expectations.ts") = true ->
        requireDefault env (Path.join dirPath "expectations.ts") = None ->
        let loop :=
          scanEntries env cwd src (scanDirectory env cwd src fuel') fuel'
            dirPath basePath
            (if existsSync env (Path.join dirPath "middleware.ts")
             then Some (Path.join dirPath "middleware.ts") else None)
            (map_get dirPath cache) entries cache
            [LogExpectationsError (Path.join dirPath "expectations.ts")] [] in
        scan_routes r = scan_routes loop
        /\ scan_cache r = scan_cache loop
        /\ In (LogExpectationsError (Path.join dirPath "expectations.ts"))
             (scan_log r)).
Proof.
  intros r. split; [|split].
  - intros Hu.
    assert (Hn : forall rs, scan_routes r <> Returned rs)
      by (intros rs; now apply scanDirectory_aborts).
    split; [exact Hn|].
    intros Hf. destruct (scan_routes r) as [rs| |]; [|reflexivity|congruence].
    exfalso. exact (Hn rs eq_refl).
  - intros Ht. split.
    + eapply scanDirectory_threw_reaches. exact Ht.
    + now apply scanDirectory_threw.
  - intros fuel' entries -> Hd Hr He Hl loop.
    assert (Hlog : In (LogExpectationsError (Path.join dirPath "expectations.ts"))
                     (scan_log loop)).
    { destruct (scanEntries_log_prefix env cwd src (scanDirectory env cwd src fuel')
                  fuel' dirPath basePath
                  (if existsSync env (Path.join dirPath "middleware.ts")
                   then Some (Path.join dirPath "middleware.ts") else None)
                  (map_get dirPath cache) entries cache
                  [LogExpectationsError (Path.join dirPath "expectations.ts")] [])
        as (extra & Hx).
      unfold loop. rewrite Hx. now left. }
    assert (Hrl : r = match scan_routes loop with
                      | Threw => mkScan (scan_cache loop)
                                   (scan_log loop ++ [LogScanError dirPath]) Threw
                      | _ => loop
                      end).
    { unfold r. cbn [scanDirectory]. rewrite Hd, Hr. cbn [negb].
      unfold loadExpectations. rewrite He, Hl. reflexivity. }
    split; [|split].
    + rewrite Hrl. destruct (scan_routes loop) eqn:E; cbn; congruence.
    + rewrite Hrl. destruct (scan_routes loop) eqn:E; reflexivity.
    + rewrite Hrl. destruct (scan_routes loop) eqn:E; cbn; try assumption.
      apply in_or_app. now left.
Qed.

Lemma C6_scan_errors_witness :
  scan_routes (scanDirectory (envOf fsDeep) "/srv" "/srv/src" 5 [] "/srv/src" "")
    = Threw
  /\ listingFailed (envOf fsDeep)
       (scan_log (scanDirectory (envOf fsDeep) "/srv" "/srv/src" 5 []
                    "/srv/src" ""))
  /\ In (LogExpectationsError "/srv/src/expectations.ts")
       (scan_log (scanDirectory (envOf fsBroken) "/srv" "/srv/src" 3 []
                    "/srv/src" "")).
Proof.
  destruct (C6_scan_errors (envOf fsDeep) "/srv" "/srv/src" 5 [] "/srv/src" "")
    as (H1 & H2 & _).
  destruct (C6_scan_errors (envOf fsBroken) "/srv" "/srv/src" 3 [] "/srv/src" "")
    as (_ & _ & H3).
  assert (Ht : scan_routes (scanDirectory (envOf fsDeep) "/srv" "/srv/src" 5 []
                              "/srv/src" "") = Threw).
  { apply H1.
    - apply (unlistable_below _ "/srv/src"
               [mkDirent "a" IsDirectory; mkDirent "b" IsDirectory]
               (mkDirent "a" IsDirectory));
        try reflexivity; [now left|].
      apply (unlistable_below _ "/srv/src/a"
               [mkDirent "x.get.ts" IsFile; mkDirent "deep" IsDirectory]
               (mkDirent "deep" IsDirectory));
        try reflexivity; [right; now left|].
      apply unlistable_here; reflexivity.
    - vm_compute. discriminate. }
  split; [exact Ht|]. split.
  - now apply H2.
  - destruct (H3 2 [mkDirent "expectations.ts" IsFile; mkDirent "list.get.ts" IsFile;
                    mkDirent "locked" IsDirectory])
      as (_ & _ & H4); try reflexivity.
    exact H4.
Defined.

(** C6 as stated fails: a directory that cannot be listed makes the whole
    scan throw, and the route of its sibling [list.get.ts] is lost with it;
    without that directory the sibling is found, the malformed expectations
    module notwithstanding. *)
Lemma C6_unreadable_directory_aborts_scan :
  scan_routes (scanDirectory (envOf fsBroken) "/srv" "/srv/src" 3 []
                 "/srv/src" "") = Threw
  /\ scanPaths (scanDirectory (envOf fsMalformed) "/srv" "/srv/src" 3 []
                  "/srv/src" "") = Returned ["/list"].
Proof. split; vm_compute; reflexivity. Qed.

(** ** Middleware chains *)

Lemma absPath_split (segs : list string) :
  segs <> [] -> Forall (fun s => plainSeg s = true) segs ->
  Str.split Str.slash (absPath segs) = "" :: segs.
Proof.
  intros Hne H. unfold absPath.
  change ("/" ++ ?s)%string with (String Str.slash s).
  change (Str.split Str.slash (String Str.slash ?s))
    with ("" :: Str.split Str.slash s).
  f_equal. apply split_join; [assumption|].
  eapply Forall_impl; [|exact H]. apply plainSeg_noSlash.
Qed.

Lemma absPath_inj (a b : list string) :
  Forall (fun s => plainSeg s = true) a -> Forall (fun s => plainSeg s = true) b ->
  absPath a = absPath b -> a = b.
Proof.
  intros Ha Hb E.
  destruct a as [|x a], b as [|y b]; try reflexivity.
  - exfalso. apply (f_equal (Str.split Str.slash)) in E.
    rewrite (absPath_split (y :: b)) in E by (assumption || discriminate).
    change (Str.split Str.slash (absPath [])) with [""; ""] in E.
    injection E as <- _. inversion Hb; discriminate.
  - exfalso. apply (f_equal (Str.split Str.slash)) in E.
    rewrite (absPath_split (x :: a)) in E by (assumption || discriminate).
    change (Str.split Str.slash (absPath [])) with [""; ""] in E.
    injection E as -> _. inversion Ha; discriminate.
  - apply (f_equal (Str.split Str.slash)) in E.
    rewrite !absPath_split in E by (assumption || discriminate).
    injection E as -> ->. reflexivity.
Qed.

Lemma plain_middleware : plainSeg "middleware.ts" = true.
Proof. reflexivity. Qed.

Section Chains.
Variable env : Env.
Variable root : list string.
Hypothesis root_plain : Forall (fun s => plainSeg s = true) root.

(** The loop of [parseRouteFile] started in [root/rel] ends after
    [length rel] rounds with the chain of the ancestors. *)
Lemma parentMiddlewares_spec (fuel : nat) :
  forall rel, Forall (fun s => plainSeg s = true) rel ->
    parentMiddlewares env (absPath root) fuel (absPath (root ++ rel)) =
    if (List.length rel <? fuel)%nat
    then Some (ancestorsChain env root (rev rel)) else None.
Proof.
  induction fuel as [|fuel IH]; intros rel Hrel; [reflexivity|].
  cbn [parentMiddlewares].
  destruct rel as [|d rel0] using rev_ind.
  - rewrite app_nil_r, String.eqb_refl. reflexivity.
  - clear IHrel0. apply Forall_app in Hrel as [Hrel0 Hd].
    inversion Hd as [|? ? Hd' _]; subst.
    assert (Hall : Forall (fun s => plainSeg s = true) (root ++ rel0)).
    { apply Forall_app. now split. }
    assert (Hne : (absPath (root ++ rel0 ++ [d]) =? absPath root)%string = false).
    { apply eqb_false_of_neq. intros E. apply absPath_inj in E.
      - apply (f_equal (@List.length string)) in E.
        rewrite !length_app in E. simpl in E. lia.
      - apply Forall_app. split; [assumption|].
        apply Forall_app. split; [assumption|constructor; auto].
      - assumption. }
    rewrite Hne.
    change (absPath (root ++ rel0 ++ [d]) =? ".")%string with false.
    cbn [negb andb].
    rewrite app_assoc, dirname_absPath by assumption.
    rewrite IH by assumption.
    rewrite length_app. cbn [List.length].
    replace (List.length rel0 + 1 <? S fuel)%nat
      with (List.length rel0 <? fuel)%nat.
    2:{ destruct (Nat.ltb_spec (List.length rel0) fuel);
        destruct (Nat.ltb_spec (List.length rel0 + 1) (S fuel)); (reflexivity || lia). }
    destruct (List.length rel0 <? fuel)%nat; [|reflexivity].
    rewrite rev_app_distr. cbn [rev List.app ancestorsChain].
    rewrite rev_involutive. unfold declared.
    destruct (existsSync env (Path.join (absPath (root ++ rel0)) "middleware.ts"));
      reflexivity.
Qed.
End Chains.

Section ScanShape.
Variable env : Env.
Variable cwd : string.
Variable root : list string.
Hypothesis root_plain : Forall (fun s => plainSeg s = true) root.
Hypothesis env_wf : wfEnv env.

Let plain := fun s : string => plainSeg s = true.

Lemma parseRouteFile_good (fuel : nat) (rel : list string) (n basePath : string)
    (ex : option Value) (r : RouteDefinition) :
  Forall plain rel -> visibleSeg n ->
  parseRouteFile env cwd (absPath root) fuel (absPath ((root ++ rel) ++ [n]))
    basePath
    (if existsSync env (Path.join (absPath (root ++ rel)) "middleware.ts")
     then Some (Path.join (absPath (root ++ rel)) "middleware.ts") else None)
    ex = Returned (Some r) ->
  goodRoute env cwd root rel basePath r.
Proof.
  intros Hrel [Hn Hc]. unfold parseRouteFile.
  assert (Hall : Forall plain (root ++ rel)) by (apply Forall_app; now split).
  rewrite basename_absPath by assumption.
  destruct (matchRouteFileName n) as [[fn m]|] eqn:Em; [|discriminate].
  rewrite dirname_absPath by assumption.
  rewrite (parentMiddlewares_spec env root root_plain fuel rel Hrel).
  destruct (List.length rel <? fuel)%nat; [|discriminate].
  intros H. injection H as <-.
  exists [], n, fn, m. rewrite app_nil_r.
  cbn [handlerPath middlewares path List.app].
  split; [|split; [|split; [|split]]].
  - now rewrite app_assoc.
  - constructor; [now split|constructor].
  - unfold chainToRoot, declared.
    destruct (existsSync env (Path.join (absPath (root ++ rel)) "middleware.ts"));
      reflexivity.
  - exact Em.
  - reflexivity.
Qed.

Lemma goodRoute_up (rel : list string) (d base : string) (r : RouteDefinition) :
  visibleSeg d ->
  goodRoute env cwd root (rel ++ [d]) (stepBase base d) r ->
  goodRoute env cwd root rel base r.
Proof.
  intros Hd (rel' & n & fn & m & Hh & Hv & Hm & Hf & Hp).
  exists (d :: rel'), n, fn, m. split; [|split; [|split; [|split]]].
  - rewrite Hh. now rewrite <- (app_assoc rel [d] rel').
  - constructor; assumption.
  - rewrite Hm. now rewrite <- (app_assoc rel [d] rel').
  - exact Hf.
  - exact Hp.
Qed.

Lemma scanEntries_good rec (fuel : nat) (rel : list string) (basePath : string)
    (ex : option Value) :
  Forall plain rel ->
  (forall c d b rs, visibleSeg d ->
     scan_routes (rec c (absPath ((root ++ rel) ++ [d])) b) = Returned rs ->
     Forall (goodRoute env cwd root (rel ++ [d]) b) rs) ->
  forall entries cache log routes rs,
    Forall (fun e => plain (name e)) entries ->
    Forall (goodRoute env cwd root rel basePath) routes ->
    scan_routes
      (scanEntries env cwd (absPath root) rec fuel (absPath (root ++ rel)) basePath
         (if existsSync env (Path.join (absPath (root ++ rel)) "middleware.ts")
          then Some (Path.join (absPath (root ++ rel)) "middleware.ts") else None)
         ex entries cache log routes) = Returned rs ->
    Forall (goodRoute env cwd root rel basePath) rs.
Proof.
  intros Hrel Hrec.
  assert (Hall : Forall plain (root ++ rel)) by (apply Forall_app; now split).
  induction entries as [|e entries IH]; intros cache log routes rs He Hroutes;
    cbn [scanEntries].
  - cbn. intros H. now injection H as <-.
  - inversion He as [|? ? Hname Hrest]; subst.
    destruct (Str.startsWith (name e) "_") eqn:Eu; [now apply IH|].
    assert (Hvis : visibleSeg (name e)).
    { split; [exact Hname|]. unfold cleanSeg. now rewrite Eu. }
    rewrite (join_absPath (root ++ rel) (name e)) by assumption.
    destruct (kind e).
    + destruct (Str.endsWith (name e) ".ts"); [|now apply IH].
      destruct ((name e =? "middleware.ts")%string
                || (name e =? "expectations.ts")%string); [now apply IH|].
      destruct (parseRouteFile _ _ _ _ _ _ _ _) as [[route|]| |] eqn:Ep;
        try (now apply IH); try (cbn; discriminate).
      apply IH; [assumption|].
      apply Forall_app. split; [assumption|].
      constructor; [|constructor].
      eapply parseRouteFile_good; eauto.
    + change (Str.replaceBackslashes
                (Path.join basePath
                   match groupMatch (name e) with
                   | Some g => g
                   | None => name e
                   end)) with (stepBase basePath (name e)).
      destruct (scan_routes (rec cache _ _)) as [sub| |] eqn:Es;
        try (cbn; discriminate).
      apply IH; [assumption|].
      apply Forall_app. split; [assumption|].
      eapply Forall_impl; [|eapply Hrec; eauto].
      intros r. now apply goodRoute_up.
    + now apply IH.
Qed.

(** Every route a scan of [root/rel] returns has a visible handler path
    below it, the chain up to the root and the path of its directories. *)
Lemma scanDirectory_good (fuel : nat) :
  forall rel cache basePath rs,
    Forall plain rel ->
    scan_routes (scanDirectory env cwd (absPath root) fuel cache
                   (absPath (root ++ rel)) basePath) = Returned rs ->
    Forall (goodRoute env cwd root rel basePath) rs.
Proof.
  induction fuel as [|fuel IH]; intros rel cache basePath rs Hrel;
    cbn [scanDirectory]; [discriminate|].
  destruct (existsSync env (absPath (root ++ rel))); cbn [negb].
  2:{ cbn. intros H. injection H as <-. constructor. }
  destruct (readdirSync env (absPath (root ++ rel))) as [entries|] eqn:Er;
    [|discriminate].
  assert (Hall : Forall plain (root ++ rel)) by (apply Forall_app; now split).
  match goal with
  | |- context [scanEntries env cwd _ ?rec ?f ?d ?b ?lm ?ex ?es ?c ?l ?rs0] =>
      pose proof (scanEntries_good rec f rel b ex Hrel) as Hloop;
      destruct (scan_routes (scanEntries env cwd (absPath root) rec f d b lm ex
                               es c l rs0)) eqn:Es
  end; cbv zeta in *; try (cbn; discriminate).
  - rewrite Es. intros H. injection H as <-.
    eapply Hloop; [|eapply env_wf; eassumption|constructor|exact Es].
    intros c d b rs' Hd Hs. rewrite <- app_assoc in Hs.
    eapply IH; [|exact Hs].
    apply Forall_app. split; [assumption|]. constructor; [apply Hd|constructor].
  - rewrite Es. discriminate.
Qed.
End ScanShape.

Lemma lookup_wf (segs : list string) :
  forall n n', wfTree n = true -> lookup segs n = Some n' -> wfTree n' = true.
Proof.
  induction segs as [|s segs IH]; intros n n' Hn; cbn [lookup].
  - intros H. now injection H as <-.
  - destruct n as [| nm rd children |]; try discriminate.
    cbn [wfTree] in Hn. revert Hn.
    induction children as [|c children IHc]; [discriminate|].
    cbn [forallb]. intros Hn. apply andb_prop in Hn as [Hc Hrest].
    apply andb_prop in Hc as [_ Hc].
    destruct (nodeName c =? s)%string.
    + now apply IH.
    + now apply IHc.
Qed.

Lemma wfEnv_envOf (t : Node) : wfTree t = true -> wfEnv (envOf t).
Proof.
  intros Ht d entries. cbn [envOf readdirSync].
  destruct (lookup (Path.nonEmptySegs d) t) as [[| nm rd children |]|] eqn:E;
    try discriminate.
  destruct rd; [|discriminate].
  intros H. injection H as <-.
  pose proof (lookup_wf _ _ _ Ht E) as Hw. cbn [wfTree] in Hw.
  rewrite Forall_map. rewrite forallb_forall in Hw.
  apply Forall_forall. intros c Hc. specialize (Hw c Hc).
  apply andb_prop in Hw as [Hp _]. exact Hp.
Qed.

(** C3, as the code has it: every route a scan of the source root returns
    has, as its chain, the [middleware.ts] of the handler's own directory
    first, then that of every ancestor directory, nearest first, up to and
    including the source root itself; and for a directory [rel] below the
    root the walk up the ancestors ends at the root, after as many rounds
    as [rel] has segments. *)
Theorem C3_scan_chain_reaches_root (env : Env) (cwd : string) (root : list string)
    (fuel : nat) (cache : ExpectationsCache) (rs : list RouteDefinition) :
  Forall (fun s => plainSeg s = true) root ->
  wfEnv env ->
  scan_routes (scanDirectory env cwd (absPath root) fuel cache (absPath root) "")
    = Returned rs ->
  (forall r, In r rs ->
     exists rel n,
       handlerPath r = absPath (root ++ rel ++ [n])
       /\ Forall visibleSeg (rel ++ [n])
       /\ middlewares r = chainToRoot env root rel)
  /\ (forall rel, Forall (fun s => plainSeg s = true) rel ->
        parentMiddlewares env (absPath root) (S (List.length rel))
          (absPath (root ++ rel))
        = Some (ancestorsChain env root (rev rel))).
Proof.
  intros Hroot Hwf Hs. split.
  - intros r Hr.
    pose proof (scanDirectory_good env cwd root Hroot Hwf fuel [] cache "" rs
                  (Forall_nil _)) as Hg.
    rewrite app_nil_r in Hg. specialize (Hg Hs).
    rewrite Forall_forall in Hg.
    destruct (Hg r Hr) as (rel & n & fn & m & H1 & H2 & H3 & _).
    exists rel, n. now repeat split.
  - intros rel Hrel.
    rewrite (parentMiddlewares_spec env root Hroot (S (List.length rel)) rel Hrel).
    assert (Hlt : (List.length rel <? S (List.length rel))%nat = true)
      by (apply Nat.ltb_lt; lia).
    now rewrite Hlt.
Qed.

Lemma C3_scan_chain_reaches_root_witness :
  (exists rel n,
     handlerPath routeChain = absPath (["srv"; "src"] ++ rel ++ [n])
     /\ Forall visibleSeg (rel ++ [n])
     /\ middlewares routeChain = chainToRoot (envOf fsChain) ["srv"; "src"] rel)
  /\ parentMiddlewares (envOf fsChain) "/srv/src" 2 "/srv/src/a"
     = Some ["/srv/src/middleware.ts"].
Proof.
  destruct (C3_scan_chain_reaches_root (envOf fsChain) "/srv" ["srv"; "src"] 5 []
              [routeChain]) as [H1 H2].
  - repeat constructor.
  - apply wfEnv_envOf. vm_compute. reflexivity.
  - vm_compute. reflexivity.
  - split.
    + apply H1. left. reflexivity.
    + apply (H2 ["a"]). repeat constructor.
Defined.

(** C3 as stated fails: the chain of [/srv/src/a/list.get.ts] holds the
    declaration of the source root [/srv/src], which the chain in the
    words of the specification leaves out. *)
Lemma C3_chain_includes_source_root :
  scanMiddlewares (scanDirectory (envOf fsChain) "/srv" "/srv/src" 5 []
                     "/srv/src" "")
    = Returned [["/srv/src/a/middleware.ts"; "/srv/src/middleware.ts"]]
  /\ chainBelowRoot (envOf fsChain) ["srv"; "src"] ["a"]
     = ["/srv/src/a/middleware.ts"]
  /\ scanMiddlewares (scanDirectory (envOf fsChain) "/srv" "/srv/src" 5 []
                        "/srv/src" "")
     <> Returned [chainBelowRoot (envOf fsChain) ["srv"; "src"] ["a"]].
Proof. repeat split; vm_compute; try reflexivity. discriminate. Qed.

(** The single-file change path hands [parseRouteFile] no local
    middleware: the chain it stores for the same file lacks the
    declaration of the file's own directory. *)
Example incremental_change_chain :
  map (fun kv => middlewares (snd kv))
    (settledRoutes (handleFileChange (envOf fsChain) 5 "/srv/src/a/list.get.ts"
                      builder0))
  = [["/srv/src/middleware.ts"]].
Proof. vm_compute. reflexivity. Qed.

(** ** Group directories *)




(** ** The route table under a sequence of events *)

Lemma keys_map_set {V} (k k0 : string) (v : V) (m : list (string * V)) :
  In k (map_keys (map_set k0 v m)) -> k = k0 \/ In k (map_keys m).
Proof.
  induction m as [|[k1 v1] m IH]; cbn.
  - intros [H|[]]. now left.
  - destruct (k1 =? k0)%string; cbn.
    + intros [H|H]; [now left|right; now right].
    + intros [H|H]; [right; now left|].
      destruct (IH H); [now left|right; now right].
Qed.

Lemma keys_map_delete {V} (k k0 : string) (m : list (string * V)) :
  In k (map_keys (map_delete k0 m)) -> In k (map_keys m).
Proof.
  induction m as [|[k1 v1] m IH]; cbn; [tauto|].
  destruct (k1 =? k0)%string; cbn; [now right|].
  intros [H|H]; [now left|right; now apply IH].
Qed.

Lemma keys_deleteStartingWith (k dirPath : string)
    (m : list (string * RouteDefinition)) :
  In k (map_keys (deleteStartingWith dirPath m)) -> In k (map_keys m).
Proof.
  unfold deleteStartingWith, map_keys. rewrite !in_map_iff.
  intros ([k' v] & <- & Hin). apply filter_In in Hin as [Hin _].
  now exists (k', v).
Qed.

Lemma keys_setAll (k : string) (rs : list RouteDefinition) :
  forall m, In k (map_keys (setAll rs m)) ->
    In k (map_keys m) \/ exists r, In r rs /\ k = handlerPath r.
Proof.
  induction rs as [|r rs IH]; intros m; cbn [setAll]; [now left|].
  intros H. destruct (IH _ H) as [H1|(r' & Hr & Hk)].
  - destruct (keys_map_set _ _ _ _ H1) as [->|H2]; [|now left].
    right. exists r. split; [now left|reflexivity].
  - right. exists r'. split; [now right|assumption].
Qed.

Lemma applyRoutes_frame (env : Env) (rs : list RouteDefinition) (id : nat) :
  forall b, routes (applyRoutes env rs id b) = routes b
            /\ config (applyRoutes env rs id b) = config b.
Proof.
  induction rs as [|r rs IH]; intros b; cbn [applyRoutes]; [now split|].
  destruct (IH (applyRouteToApp env r id b)) as [H1 H2].
  destruct (applyRouteToApp_frame env r id b) as (Hr & _ & _ & Hc & _).
  cbv zeta in *. rewrite H1, H2. now split.
Qed.

Lemma rebuildApp_frame (env : Env) (b : Builder) :
  routes (rebuildApp env b) = routes b /\ config (rebuildApp env b) = config b.
Proof.
  unfold rebuildApp.
  destruct (applyRoutes_frame env
              (map_values (routes (emit (EGroup (nextId b)
                 match basePath (config b) with Some s => s | None => "" end)
                 (emit (ENew (nextId b)) b))))
              (nextId b)
              (emit (EGroup (nextId b)
                 match basePath (config b) with Some s => s | None => "" end)
                 (emit (ENew (nextId b)) b))) as [H1 H2].
  cbn [setApp emit routes config] in *.
  match goal with
  | |- context [if ?c then _ else _] => destruct c
  end; cbn [emit routes config]; rewrite H1, H2; now split.
Qed.

Lemma not_ignored_clean (root rel : list string) (st : option bool) :
  Forall (fun s => plainSeg s = true) (root ++ rel) ->
  ignored (absPath (root ++ rel)) st = false ->
  Forall visibleSeg rel.
Proof.
  intros Hp Hi.
  assert (He : existsb (fun seg => Str.startsWith seg "_")
                 (Str.split Str.slash (absPath (root ++ rel))) = false).
  { unfold ignored in Hi. destruct st as [[|]|]; try exact Hi.
    destruct (negb (Str.endsWith (absPath (root ++ rel)) ".ts"));
      [discriminate|exact Hi]. }
  destruct rel as [|x rel]; [constructor|].
  rewrite absPath_split in He by (assumption || (destruct root; discriminate)).
  apply Forall_forall. intros s Hs. split.
  - apply Forall_app in Hp as [_ Hp]. rewrite Forall_forall in Hp. now apply Hp.
  - unfold cleanSeg. apply negb_true_iff.
    destruct (Str.startsWith s "_") eqn:E; [|reflexivity].
    rewrite <- He. symmetry. apply existsb_exists. exists s. split; [|exact E].
    right. apply in_or_app. now right.
Qed.

Lemma sourceDir_config (b b' : Builder) :
  config b' = config b -> sourceDir b' = sourceDir b.
Proof. unfold sourceDir. now intros ->. Qed.

Lemma tableVisible_subset (root : list string) (b b' : Builder) :
  config b' = config b ->
  (forall k, In k (map_keys (routes b')) -> In k (map_keys (routes b))) ->
  tableVisible root b -> tableVisible root b'.
Proof.
  intros Hc Hk [Hs Hv]. split.
  - now rewrite (sourceDir_config _ _ Hc).
  - intros k Hin. apply Hv. now apply Hk.
Qed.

Lemma visibleSeg_plain (l : list string) :
  Forall visibleSeg l -> Forall (fun s => plainSeg s = true) l.
Proof. apply Forall_impl. now intros s [H _]. Qed.

Section TableInvariant.
Variable root : list string.
Hypothesis root_plain : Forall (fun s => plainSeg s = true) root.

Lemma goodRoute_visibleKey env cwd (rel : list string) (base : string)
    (r : RouteDefinition) :
  Forall visibleSeg rel -> goodRoute env cwd root rel base r ->
  visibleKey root (handlerPath r).
Proof.
  intros Hrel (rel' & n & fn & m & Hh & Hv & _).
  exists ((rel ++ rel') ++ [n])%list. split; [exact Hh|].
  rewrite <- app_assoc. apply Forall_app. now split.
Qed.

Lemma rebuildDirectoryRoutes_visible env (fuel : nat) (rel : list string)
    (b : Builder) :
  wfEnv env -> Forall visibleSeg rel -> tableVisible root b ->
  afterReaction (tableVisible root)
    (rebuildDirectoryRoutes env fuel (absPath (root ++ rel)) b).
Proof.
  intros Hwf Hrel [Hs Hv]. unfold rebuildDirectoryRoutes.
  cbn [setRoutes setExpectationsCache projectRoot expectationsCache routes].
  change (sourceDir (setRoutes _ b)) with (sourceDir b). rewrite Hs.
  destruct (scan_routes (scanDirectory env (projectRoot b) (absPath root) fuel
              (expectationsCache b) (absPath (root ++ rel)) "")) as [rs| |] eqn:Es;
    cbn [afterReaction]; [| |exact I].
  - pose proof (scanDirectory_good env (projectRoot b) root root_plain Hwf fuel
                  rel (expectationsCache b) "" rs (visibleSeg_plain _ Hrel) Es) as Hg.
    destruct (rebuildApp_frame env
                (setRoutes (setAll rs (deleteStartingWith (absPath (root ++ rel))
                                         (routes b)))
                   (setExpectationsCache
                      (scan_cache (scanDirectory env (projectRoot b) (absPath root)
                                     fuel (expectationsCache b)
                                     (absPath (root ++ rel)) ""))
                      (setRoutes (deleteStartingWith (absPath (root ++ rel))
                                    (routes b)) b)))) as [Hr Hc].
    split.
    + rewrite (sourceDir_config _ _ Hc). exact Hs.
    + intros k Hk. rewrite Hr in Hk. cbn [setRoutes routes] in Hk.
      destruct (keys_setAll _ _ _ Hk) as [H1|(r & Hin & ->)].
      * apply Hv. now apply keys_deleteStartingWith in H1.
      * rewrite Forall_forall in Hg.
        eapply goodRoute_visibleKey; [exact Hrel|now apply Hg].
  - split; [exact Hs|].
    intros k Hk. cbn [setExpectationsCache setRoutes routes] in Hk.
    apply Hv. now apply keys_deleteStartingWith in Hk.
Qed.

Lemma finishReaction_visible (b : Builder) :
  tableVisible root b -> tableVisible root (finishReaction b).
Proof. apply tableVisible_subset; [reflexivity|now intros k]. Qed.

Lemma handleFileChange_visible env (fuel : nat) (rel : list string)
    (st : option bool) (b : Builder) :
  wfEnv env -> rel <> [] -> Forall (fun s => plainSeg s = true) rel ->
  ignored (absPath (root ++ rel)) st = false ->
  tableVisible root b ->
  afterReaction (tableVisible root)
    (handleFileChange env fuel (absPath (root ++ rel)) b).
Proof.
  intros Hwf Hne Hp Hi Hb.
  assert (Hvis : Forall visibleSeg rel).
  { eapply not_ignored_clean; [|exact Hi]. apply Forall_app. now split. }
  destruct rel as [|n rel0] using rev_ind; [congruence|]. clear IHrel0.
  apply Forall_app in Hp as [Hp0 Hn]. inversion Hn as [|? ? Hn' _]; subst.
  apply Forall_app in Hvis as [Hvis0 _].
  assert (Hb0 : tableVisible root (emit (EInvalidate (absPath (root ++ rel0 ++ [n]))) b)).
  { revert Hb. apply tableVisible_subset; [reflexivity|now intros k]. }
  assert (Hdir : Path.dirname (absPath (root ++ rel0 ++ [n])) = absPath (root ++ rel0)).
  { rewrite app_assoc. apply dirname_absPath; [|assumption].
    apply Forall_app. now split. }
  unfold handleFileChange. rewrite Hdir.
  destruct (Path.basename (absPath (root ++ rel0 ++ [n])) =? "middleware.ts")%string.
  { pose proof (rebuildDirectoryRoutes_visible env fuel rel0 _ Hwf Hvis0 Hb0) as H.
    destruct (rebuildDirectoryRoutes env fuel (absPath (root ++ rel0)) _);
      cbn [afterReaction] in *; assumption. }
  destruct (Path.basename (absPath (root ++ rel0 ++ [n])) =? "expectations.ts")%string.
  { match goal with
    | |- context [rebuildDirectoryRoutes env fuel _ ?b1] =>
        assert (Hb1 : tableVisible root b1)
          by (revert Hb0; apply tableVisible_subset; [reflexivity|now intros k]);
        pose proof (rebuildDirectoryRoutes_visible env fuel rel0 b1 Hwf Hvis0 Hb1) as H;
        destruct (rebuildDirectoryRoutes env fuel (absPath (root ++ rel0)) b1)
    end; cbn [afterReaction] in *; assumption. }
  destruct (parseRouteFile env _ _ fuel _ "" None None) as [[route|]| |];
    cbn [afterReaction]; try exact I; try assumption.
  - apply finishReaction_visible.
    match goal with
    | |- tableVisible root (applyRouteToApp env route ?id ?b1) =>
        destruct (applyRouteToApp_frame env route id b1) as (Hr & _ & _ & Hc & _)
    end.
    cbv zeta in *. destruct Hb0 as [Hs Hv]. split.
    + rewrite (sourceDir_config _ _ Hc). exact Hs.
    + intros k Hk. rewrite Hr in Hk. cbn [setRoutes routes] in Hk.
      destruct (keys_map_set _ _ _ _ Hk) as [->|H1].
      * exists (rel0 ++ [n])%list. split; [reflexivity|].
        eapply not_ignored_clean; [|exact Hi].
        apply Forall_app. split; [assumption|].
        apply Forall_app. split; [assumption|constructor; auto].
      * now apply Hv.
Qed.
End TableInvariant.

Section Reachable.
Variable root : list string.
Hypothesis root_plain : Forall (fun s => plainSeg s = true) root.

Lemma dispatch_visible (s : Step) (b : Builder) :
  wfStep root s -> tableVisible root b ->
  afterReaction (tableVisible root) (dispatch s b).
Proof.
  intros [Hwf Hev] Hb. unfold dispatch.
  destruct (step_event s) as [p|p|p|p|] eqn:E; cbn [eventPath react eventBelow] in *.
  - destruct Hev as (rel & Hne & Hp & ->).
    destruct (ignored _ _) eqn:Hi; [exact Hb|].
    now apply (handleFileChange_visible root root_plain _ _ rel (step_isFile s)).
  - destruct Hev as (rel & Hne & Hp & ->).
    destruct (ignored _ _) eqn:Hi; [exact Hb|].
    now apply (handleFileChange_visible root root_plain _ _ rel (step_isFile s)).
  - destruct (ignored _ _); [exact Hb|]. cbn [afterReaction].
    unfold handleFileRemoval. destruct (map_has p (routes b)).
    + apply finishReaction_visible.
      destruct (rebuildApp_frame (step_env s)
                  (setRoutes (map_delete p (routes b)) b)) as [Hr Hc].
      destruct Hb as [Hs Hv]. split.
      * now rewrite (sourceDir_config _ _ Hc).
      * intros k Hk. rewrite Hr in Hk. apply Hv.
        now apply keys_map_delete in Hk.
    + now apply finishReaction_visible.
  - destruct (ignored _ _); [exact Hb|]. cbn [afterReaction].
    unfold handleDirectoryRemoval. apply finishReaction_visible.
    destruct (rebuildApp_frame (step_env s)
                (setRoutes (deleteStartingWith p (routes b)) b)) as [Hr Hc].
    destruct Hb as [Hs Hv]. split.
    + now rewrite (sourceDir_config _ _ Hc).
    + intros k Hk. rewrite Hr in Hk. apply Hv.
      now apply keys_deleteStartingWith in Hk.
  - cbn [afterReaction]. revert Hb.
    apply tableVisible_subset; [reflexivity|now intros k].
Qed.

Lemma run_visible (steps : list Step) :
  forall b bN, Forall (wfStep root) steps -> tableVisible root b ->
    run steps b = Some bN -> tableVisible root bN.
Proof.
  induction steps as [|s steps IH]; intros b bN Hw Hb; cbn [run].
  - intros H. now injection H as <-.
  - inversion Hw as [|? ? Hs Hrest]; subst.
    pose proof (dispatch_visible s b Hs Hb) as Hd.
    destruct (dispatch s b); cbn [afterReaction] in Hd; try discriminate;
      now apply IH.
Qed.

Lemma buildRoutes_visible env (fuel : nat) (b : Builder) :
  wfEnv env -> sourceDir b = absPath root -> routes b = [] ->
  afterReaction (tableVisible root) (buildRoutes env fuel b).
Proof.
  intros Hwf Hs Hempty. unfold buildRoutes. rewrite Hs.
  destruct (scan_routes (scanDirectory env (projectRoot b) (absPath root) fuel
              (expectationsCache b) (absPath root) "")) as [rs| |] eqn:Es;
    cbn [afterReaction]; [| |exact I].
  - pose proof (scanDirectory_good env (projectRoot b) root root_plain Hwf fuel
                  [] (expectationsCache b) "" rs (Forall_nil _)) as Hg.
    rewrite app_nil_r in Hg. specialize (Hg Es).
    match goal with
    | |- tableVisible root (rebuildApp env ?b1) =>
        destruct (rebuildApp_frame env b1) as [Hr Hc]
    end.
    split.
    + now rewrite (sourceDir_config _ _ Hc).
    + intros k Hk. rewrite Hr in Hk. cbn [setRoutes routes] in Hk.
      destruct (keys_setAll _ _ _ Hk) as [[]|(r & Hin & ->)].
      rewrite Forall_forall in Hg.
      eapply (goodRoute_visibleKey root); [constructor|now apply Hg].
  - split; [exact Hs|]. cbn [emit setExpectationsCache routes].
    rewrite Hempty. intros k [].
Qed.
End Reachable.

(** C8: after the first scan and whatever events follow, every key of the
    route table is a path below the source root none of whose segments,
    directory or file, begins with [_]. *)
Theorem C8_hidden_entries_never_in_table (root : list string) (b0 : Builder)
    (env0 : Env) (fuel0 : nat) (steps : list Step) (b1 bN : Builder) :
  Forall (fun s => plainSeg s = true) root ->
  sourceDir b0 = absPath root ->
  routes b0 = [] ->
  wfEnv env0 ->
  Forall (wfStep root) steps ->
  buildRoutes env0 fuel0 b0 = Settled b1 ->
  run steps b1 = Some bN ->
  forall key, In key (map_keys (routes bN)) ->
    exists rel, key = absPath (root ++ rel)
      /\ Forall (fun s => plainSeg s = true /\ Str.startsWith s "_" = false) rel.
Proof.
  intros Hroot Hs Hempty Hwf Hsteps Hb Hrun key Hkey.
  pose proof (buildRoutes_visible root Hroot env0 fuel0 b0 Hwf Hs Hempty) as H1.
  rewrite Hb in H1. cbn [afterReaction] in H1.
  pose proof (run_visible root Hroot steps b1 bN Hsteps H1 Hrun) as [_ HN].
  destruct (HN key Hkey) as (rel & -> & Hv).
  exists rel. split; [reflexivity|].
  eapply Forall_impl; [|exact Hv].
  intros s [Hp Hc]. split; [exact Hp|].
  unfold cleanSeg in Hc. now apply negb_true_iff in Hc.
Qed.

Lemma C8_hidden_entries_never_in_table_witness :
  map_keys (routes builderHiddenN) = ["/srv/src/users/list.get.ts"]
  /\ exists rel, "/srv/src/users/list.get.ts" = absPath (["srv"; "src"] ++ rel)
       /\ Forall (fun s => plainSeg s = true /\ Str.startsWith s "_" = false) rel.
Proof.
  split; [reflexivity|].
  apply (C8_hidden_entries_never_in_table ["srv"; "src"] builder0
           (envOf fsHidden) 10 stepsHidden builderHidden1 builderHiddenN).
  - repeat constructor.
  - reflexivity.
  - reflexivity.
  - apply wfEnv_envOf. reflexivity.
  - repeat constructor; try (apply wfEnv_envOf; reflexivity); cbn.
    + exists ["_private"; "secret.get.ts"]. repeat split; try discriminate.
      repeat constructor.
    + exists ["users"; "list.get.ts"]. repeat split; try discriminate.
      repeat constructor.
    + exists ["users"; "middleware.ts"]. repeat split; try discriminate.
      repeat constructor.
    + exists ["users"; "_old.get.ts"]. repeat split. repeat constructor.
  - vm_compute. reflexivity.
  - vm_compute. reflexivity.
  - left. reflexivity.
Defined.

(** ** Scans of finite trees end *)

Lemma lookup_cons (s : string) (rest : list string) (n : Node) :
  lookup (s :: rest) n =
  match n with
  | NDir _ _ children =>
      match findChild s children with
      | Some c => lookup rest c
      | None => None
      end
  | _ => None
  end.
Proof.
  destruct n as [| nm rd children |]; try reflexivity.
  cbn [lookup]. induction children as [|c children IH]; [reflexivity|].
  cbn [findChild]. destruct (nodeName c =? s)%string; [reflexivity|exact IH].
Qed.

Lemma lookup_snoc (segs : list string) (s : string) :
  forall n, lookup (segs ++ [s]) n =
    match lookup segs n with
    | Some (NDir _ _ children) => findChild s children
    | _ => None
    end.
Proof.
  induction segs as [|x segs IH]; intros n.
  - cbn [List.app]. rewrite lookup_cons. cbn [lookup].
    destruct n as [| nm rd children |]; try reflexivity.
    now destruct (findChild s children).
  - cbn [List.app]. rewrite !lookup_cons.
    destruct n as [| nm rd children |]; try reflexivity.
    destruct (findChild x children); [apply IH|reflexivity].
Qed.

Lemma findChild_height (s : string) (children : list Node) (c : Node) :
  findChild s children = Some c ->
  height c <= fold_right (fun c m => Nat.max (height c) m) 0 children.
Proof.
  induction children as [|d children IH]; cbn [findChild fold_right];
    [discriminate|].
  destruct (nodeName d =? s)%string.
  - intros H. injection H as <-. lia.
  - intros H. specialize (IH H). lia.
Qed.

Lemma nonEmptySegs_absPath (segs : list string) :
  Forall (fun s => plainSeg s = true) segs ->
  Path.nonEmptySegs (absPath segs) = segs.
Proof.
  intros H.
  assert (Hf : forall l, Forall (fun s => plainSeg s = true) l ->
                 filter (fun s => negb (s =? "")%string) l = l).
  { induction 1 as [|y l Hy Hl IH]; [reflexivity|].
    cbn [filter]. rewrite (eqb_false_of_neq y "") by now apply plainSeg_nonempty.
    cbn [negb]. now rewrite IH. }
  unfold Path.nonEmptySegs. destruct segs as [|x segs]; [reflexivity|].
  rewrite absPath_split by (assumption || discriminate).
  change (filter (fun s => negb (s =? "")%string) ("" :: x :: segs))
    with (filter (fun s => negb (s =? "")%string) (x :: segs)).
  now apply Hf.
Qed.

Section FiniteTrees.
Variable t : Node.
Variable cwd : string.
Variable root : list string.
Hypothesis root_plain : Forall (fun s => plainSeg s = true) root.
Hypothesis t_wf : wfTree t = true.

Let plain := fun s : string => plainSeg s = true.

Lemma scanEntries_ends rec (fuel : nat) (rel : list string) (basePath : string)
    (lm : option string) (ex : option Value) :
  Forall plain rel -> List.length rel < fuel ->
  forall entries,
    Forall (fun e => plain (name e)) entries ->
    (forall e c b, In e entries ->
       scan_routes (rec c (absPath ((root ++ rel) ++ [name e])) b) <> NoFuel) ->
    forall cache log routes,
      scan_routes
        (scanEntries (envOf t) cwd (absPath root) rec fuel (absPath (root ++ rel))
           basePath lm ex entries cache log routes) <> NoFuel.
Proof.
  intros Hrel Hfuel.
  assert (Hall : Forall plain (root ++ rel)) by (apply Forall_app; now split).
  induction entries as [|e entries IH]; intros He Hrec cache log routes;
    cbn [scanEntries]; [discriminate|].
  inversion He as [|? ? Hname Hrest]; subst.
  assert (IH' := IH Hrest (fun e' c b Hin => Hrec e' c b (or_intror Hin))).
  destruct (Str.startsWith (name e) "_"); [apply IH'|].
  rewrite (join_absPath (root ++ rel) (name e)) by assumption.
  destruct (kind e).
  - destruct (Str.endsWith (name e) ".ts"); [|apply IH'].
    destruct ((name e =? "middleware.ts")%string
              || (name e =? "expectations.ts")%string); [apply IH'|].
    destruct (parseRouteFile _ _ _ _ _ _ _ _) as [[route|]| |] eqn:Ep;
      try apply IH'; try (cbn; discriminate).
    exfalso. revert Ep. unfold parseRouteFile.
    destruct (matchRouteFileName _) as [[fn m]|]; [|discriminate].
    rewrite dirname_absPath by assumption.
    rewrite (parentMiddlewares_spec (envOf t) root root_plain fuel rel Hrel).
    apply Nat.ltb_lt in Hfuel. rewrite Hfuel. discriminate.
  - destruct (scan_routes (rec cache _ _)) as [sub| |] eqn:Es.
    + apply IH'.
    + cbn. discriminate.
    + exfalso. eapply Hrec; [now left|exact Es].
  - apply IH'.
Qed.

(** With the fuel of [scanFuel] the scan of a directory of the tree never
    runs out: it returns or it throws. *)
Lemma scanDirectory_ends (h : nat) :
  forall rel fuel cache basePath,
    Forall plain rel ->
    match lookup (root ++ rel) t with
    | Some node => height node <= h
    | None => True
    end ->
    scanFuel h (List.length rel) <= fuel ->
    scan_routes (scanDirectory (envOf t) cwd (absPath root) fuel cache
                   (absPath (root ++ rel)) basePath) <> NoFuel.
Proof.
  unfold scanFuel.
  induction h as [|h IH]; intros rel fuel cache basePath Hrel Hh Hfuel;
    (destruct fuel as [|fuel]; [lia|]); cbn [scanDirectory];
    assert (Hall : Forall plain (root ++ rel)) by (apply Forall_app; now split);
    cbn [envOf existsSync readdirSync];
    rewrite (nonEmptySegs_absPath _ Hall);
    destruct (lookup (root ++ rel) t) as [[| nm rd children |]|] eqn:El;
    cbn [negb]; try (cbn; discriminate).
  - cbn [height] in Hh. lia.
  - destruct rd; [|cbn; discriminate].
    match goal with
    | |- context [scanEntries ?env cwd _ ?rec ?f ?d ?b ?lm ?ex ?es ?c ?l ?rs0] =>
        assert (Hloop : scan_routes (scanEntries env cwd (absPath root) rec f d b
                                       lm ex es c l rs0) <> NoFuel)
    end.
    { apply scanEntries_ends; [assumption|lia| |].
      - pose proof (lookup_wf _ _ _ t_wf El) as Hw. cbn [wfTree] in Hw.
        rewrite Forall_map. rewrite forallb_forall in Hw.
        apply Forall_forall. intros c Hc. specialize (Hw c Hc).
        now apply andb_prop in Hw as [Hp _].
      - intros e c b Hin. rewrite <- app_assoc.
        apply in_map_iff in Hin as (ch & <- & Hch).
        assert (Hp : plain (nodeName ch)).
        { pose proof (lookup_wf _ _ _ t_wf El) as Hw. cbn [wfTree] in Hw.
          rewrite forallb_forall in Hw. specialize (Hw ch Hch).
          now apply andb_prop in Hw as [Hp _]. }
        apply IH.
        + apply Forall_app. split; [assumption|constructor; [exact Hp|constructor]].
        + rewrite app_assoc, lookup_snoc, El. cbn [direntOf name].
          destruct (findChild (nodeName ch) children) as [c'|] eqn:Ef; [|exact I].
          apply findChild_height in Ef. cbn [height] in Hh. lia.
        + rewrite length_app. cbn [List.length]. lia. }
    destruct (scan_routes (scanEntries _ _ _ _ _ _ _ _ _ _ _ _ _)) eqn:Es;
      cbv zeta; rewrite ?Es; try discriminate. now apply Hloop.
Qed.
End FiniteTrees.

(* ------------------------------------------------------------------ *)
(** * Further properties of the builder *)

(** ** The table as a map *)

Lemma map_keys_set {V} (k : string) (v : V) (m : list (string * V)) :
  map_keys (map_set k v m) =
  if map_has k m then map_keys m else (map_keys m ++ [k])%list.
Proof.
  unfold map_has, map_keys. induction m as [|[k1 v1] m IH]; cbn; [reflexivity|].
  destruct (k1 =? k)%string eqn:E; cbn.
  - apply String.eqb_eq in E. now subst.
  - rewrite IH. now destruct (map_get k m).
Qed.

Lemma map_has_in_keys {V} (k : string) (m : list (string * V)) :
  map_has k m = true <-> In k (map_keys m).
Proof.
  unfold map_has. induction m as [|[k1 v1] m IH]; cbn.
  - split; [discriminate|tauto].
  - destruct (k1 =? k)%string eqn:E.
    + apply String.eqb_eq in E. subst. split; [now left|reflexivity].
    + apply String.eqb_neq in E. rewrite IH. split; [now right|].
      intros [H|H]; [congruence|assumption].
Qed.

Lemma NoDup_map_set {V} (k : string) (v : V) (m : list (string * V)) :
  NoDup (map_keys m) -> NoDup (map_keys (map_set k v m)).
Proof.
  intros H. rewrite map_keys_set. destruct (map_has k m) eqn:E; [assumption|].
  apply NoDup_app; [assumption|repeat constructor; tauto|].
  intros x Hx [<-|[]]. apply map_has_in_keys in Hx. congruence.
Qed.

Lemma NoDup_map_delete {V} (k : string) (m : list (string * V)) :
  NoDup (map_keys m) -> NoDup (map_keys (map_delete k m)).
Proof.
  induction m as [|[k1 v1] m IH]; cbn; [trivial|].
  intros H. inversion H as [|? ? Hn Hm]; subst.
  destruct (k1 =? k)%string; cbn; [assumption|].
  constructor; [|now apply IH].
  intros Hin. apply Hn. now apply keys_map_delete in Hin.
Qed.

Lemma map_get_not_in {V} (k : string) (m : list (string * V)) :
  ~ In k (map_keys m) -> map_get k m = None.
Proof.
  intros H. destruct (map_get k m) eqn:E; [|reflexivity].
  exfalso. apply H. apply map_has_in_keys. unfold map_has. now rewrite E.
Qed.

Lemma map_get_delete {V} (k k' : string) (m : list (string * V)) :
  NoDup (map_keys m) ->
  map_get k' (map_delete k m) = if (k =? k')%string then None else map_get k' m.
Proof.
  induction m as [|[k1 v1] m IH]; cbn.
  - now destruct (k =? k')%string.
  - intros H. inversion H as [|? ? Hn Hm]; subst.
    destruct (k1 =? k)%string eqn:E1.
    + apply String.eqb_eq in E1. subst k1.
      destruct (k =? k')%string eqn:E2; [|reflexivity].
      apply String.eqb_eq in E2. subst k'. now apply map_get_not_in.
    + cbn. rewrite (IH Hm). destruct (k1 =? k')%string eqn:E3; [|reflexivity].
      apply String.eqb_eq in E3. subst k'.
      now rewrite (eqb_false_of_neq k k1)
        by (intros ->; now rewrite String.eqb_refl in E1).
Qed.

Lemma map_get_deleteStartingWith (dirPath k : string)
    (m : list (string * RouteDefinition)) :
  map_get k (deleteStartingWith dirPath m) =
  if Str.startsWith k dirPath then None else map_get k m.
Proof.
  unfold deleteStartingWith.
  induction m as [|[k1 v1] m IH]; cbn.
  - now destruct (Str.startsWith k dirPath).
  - destruct (Str.startsWith k1 dirPath) eqn:E1; cbn.
    + rewrite IH. destruct (k1 =? k)%string eqn:E2; [|reflexivity].
      apply String.eqb_eq in E2. subst k1. now rewrite E1.
    + rewrite IH. destruct (k1 =? k)%string eqn:E2; [|reflexivity].
      apply String.eqb_eq in E2. subst k1. now rewrite E1.
Qed.

Lemma NoDup_deleteStartingWith (dirPath : string)
    (m : list (string * RouteDefinition)) :
  NoDup (map_keys m) -> NoDup (map_keys (deleteStartingWith dirPath m)).
Proof.
  unfold deleteStartingWith.
  induction m as [|[k1 v1] m IH]; cbn; [trivial|].
  intros H. inversion H as [|? ? Hn Hm]; subst.
  destruct (Str.startsWith k1 dirPath); cbn; [now apply IH|].
  constructor; [|now apply IH].
  intros Hin. apply Hn. now apply (keys_deleteStartingWith _ dirPath).
Qed.

Lemma tableKeyed_set (k : string) (r : RouteDefinition)
    (m : list (string * RouteDefinition)) :
  handlerPath r = k -> tableKeyed m -> tableKeyed (map_set k r m).
Proof.
  intros <- [Hn Hf]. split; [now apply NoDup_map_set|].
  clear Hn. induction m as [|[k1 v1] m IH]; cbn.
  - repeat constructor.
  - inversion Hf as [|? ? H1 Hm]; subst.
    destruct (k1 =? handlerPath r)%string; constructor; auto.
Qed.

Lemma tableKeyed_delete (k : string) (m : list (string * RouteDefinition)) :
  tableKeyed m -> tableKeyed (map_delete k m).
Proof.
  intros [Hn Hf]. split; [now apply NoDup_map_delete|].
  clear Hn. induction m as [|[k1 v1] m IH]; cbn; [constructor|].
  inversion Hf as [|? ? H1 Hm]; subst.
  destruct (k1 =? k)%string; [assumption|constructor; auto].
Qed.

Lemma tableKeyed_deleteStartingWith (dirPath : string)
    (m : list (string * RouteDefinition)) :
  tableKeyed m -> tableKeyed (deleteStartingWith dirPath m).
Proof.
  intros [Hn Hf]. split; [now apply NoDup_deleteStartingWith|].
  unfold deleteStartingWith. rewrite Forall_forall in *.
  intros kv Hin. apply filter_In in Hin as [Hin _]. now apply Hf.
Qed.

Lemma tableKeyed_setAll (rs : list RouteDefinition) :
  forall m, tableKeyed m -> tableKeyed (setAll rs m).
Proof.
  induction rs as [|r rs IH]; intros m Hm; cbn [setAll]; [assumption|].
  apply IH. now apply tableKeyed_set.
Qed.

Lemma tableKeyed_nil : tableKeyed [].
Proof. split; constructor. Qed.

Lemma Forall_map_set {V} (Q : string * V -> Prop) (k : string) (v : V)
    (m : list (string * V)) :
  Q (k, v) -> Forall Q m -> Forall Q (map_set k v m).
Proof.
  intros Hq. induction 1 as [|[k1 v1] m H1 Hm IH]; cbn.
  - repeat constructor. exact Hq.
  - destruct (k1 =? k)%string; constructor; auto.
Qed.

Lemma Forall_map_delete {V} (Q : string * V -> Prop) (k : string)
    (m : list (string * V)) :
  Forall Q m -> Forall Q (map_delete k m).
Proof.
  induction 1 as [|[k1 v1] m H1 Hm IH]; cbn; [constructor|].
  destruct (k1 =? k)%string; [assumption|constructor; auto].
Qed.

Lemma Forall_deleteStartingWith (Q : string * RouteDefinition -> Prop)
    (dirPath : string) (m : list (string * RouteDefinition)) :
  Forall Q m -> Forall Q (deleteStartingWith dirPath m).
Proof.
  unfold deleteStartingWith. rewrite !Forall_forall.
  intros H kv Hin. apply filter_In in Hin as [Hin _]. now apply H.
Qed.

Lemma Forall_setAll (Q : string * RouteDefinition -> Prop)
    (rs : list RouteDefinition) :
  Forall (fun r => Q (handlerPath r, r)) rs ->
  forall m, Forall Q m -> Forall Q (setAll rs m).
Proof.
  induction 1 as [|r rs Hr Hrs IH]; intros m Hm; cbn [setAll]; [assumption|].
  apply IH. now apply Forall_map_set.
Qed.

(** ** What [parseRouteFile] returns *)

Lemma toLowerCase_lower (s : string) :
  forallb Str.isLower (Str.chars s) = true -> toLowerCase s = s.
Proof.
  induction s as [|c s IH]; [reflexivity|].
  change (Str.chars (String c s)) with (c :: Str.chars s).
  cbn [forallb toLowerCase]. intros H. apply andb_prop in H as [Hc Hs].
  rewrite (IH Hs). f_equal. unfold toLowerChar, Str.isLower in *.
  apply andb_prop in Hc as [H1 _]. apply Nat.leb_le in H1.
  destruct (Nat.leb_spec 65 (nat_of_ascii c)); cbn [andb]; [|reflexivity].
  destruct (Nat.leb_spec (nat_of_ascii c) 90); [lia|reflexivity].
Qed.

Lemma matchRouteFileName_shape (s n m : string) :
  matchRouteFileName s = Some (n, m) -> routeFileShape s n m.
Proof.
  unfold matchRouteFileName, routeFileShape. intros H.
  destruct (matchName_sound _ _ _ _ H) as (k & Hk & Hn & Hs & Hlt & Hm & Hl).
  cbn [rev List.app] in Hn. subst k. repeat split; try assumption.
  - apply chars_inj. rewrite Hs, !chars_app. reflexivity.
  - intros ->. now apply Hk.
Qed.

Lemma parseRouteFile_returns env cwd src (fuel : nat) (filePath basePath : string)
    lm ex (r : RouteDefinition) :
  parseRouteFile env cwd src fuel filePath basePath lm ex = Returned (Some r) ->
  handlerPath r = filePath
  /\ exists fileName,
       routeFileShape (Path.basename filePath) fileName (method r)
       /\ path r = finalPath cwd src filePath basePath fileName.
Proof.
  unfold parseRouteFile.
  destruct (matchRouteFileName (Path.basename filePath)) as [[fn m]|] eqn:Em;
    [|discriminate].
  destruct (parentMiddlewares env src fuel (Path.dirname filePath)); [|discriminate].
  intros H. injection H as <-. cbn [handlerPath method path].
  split; [reflexivity|]. exists fn.
  pose proof (matchRouteFileName_shape _ _ _ Em) as Hshape.
  destruct Hshape as (H1 & H2 & H3 & H4 & H5).
  rewrite (toLowerCase_lower m H5). split; [|reflexivity].
  now repeat split.
Qed.

Section ScanFromParse.
Variable env : Env.
Variables cwd src : string.
Variable P : RouteDefinition -> Prop.
Hypothesis P_parse :
  forall fuel filePath basePath lm ex r,
    parseRouteFile env cwd src fuel filePath basePath lm ex = Returned (Some r) ->
    P r.

Lemma scanEntries_from_parse rec (fuel : nat) (dirPath basePath : string) lm ex :
  (forall c d b rs, scan_routes (rec c d b) = Returned rs -> Forall P rs) ->
  forall entries cache log routes rs,
    Forall P routes ->
    scan_routes (scanEntries env cwd src rec fuel dirPath basePath lm ex
                   entries cache log routes) = Returned rs ->
    Forall P rs.
Proof.
  intros Hrec. induction entries as [|e entries IH]; intros cache log routes rs Hr;
    cbn [scanEntries].
  - cbn. intros H. now injection H as <-.
  - destruct (Str.startsWith (name e) "_"); [now apply IH|].
    destruct (kind e).
    + destruct (Str.endsWith (name e) ".ts"); [|now apply IH].
      destruct ((name e =? "middleware.ts")%string
                || (name e =? "expectations.ts")%string); [now apply IH|].
      destruct (parseRouteFile _ _ _ _ _ _ _ _) as [[route|]| |] eqn:Ep;
        try (now apply IH); try (cbn; discriminate).
      apply IH. apply Forall_app. split; [assumption|].
      constructor; [|constructor]. eapply P_parse; eauto.
    + destruct (scan_routes (rec cache _ _)) as [sub| |] eqn:Es;
        try (cbn; discriminate).
      apply IH. apply Forall_app. split; [assumption|]. eapply Hrec; eauto.
    + now apply IH.
Qed.

(** Whatever holds of every route [parseRouteFile] returns holds of every
    route a scan returns. *)
Lemma scanDirectory_from_parse (fuel : nat) :
  forall cache dirPath basePath rs,
    scan_routes (scanDirectory env cwd src fuel cache dirPath basePath)
      = Returned rs ->
    Forall P rs.
Proof.
  induction fuel as [|fuel IH]; intros cache dirPath basePath rs;
    cbn [scanDirectory]; [discriminate|].
  destruct (existsSync env dirPath); cbn [negb].
  2:{ cbn. intros H. injection H as <-. constructor. }
  destruct (readdirSync env dirPath) as [entries|]; [|discriminate].
  match goal with
  | |- context [scanEntries env cwd src ?rec ?f ?d ?b ?lm ?ex ?es ?c ?l ?rs0] =>
      pose proof (scanEntries_from_parse rec f d b lm ex IH es c l rs0) as Hloop;
      destruct (scan_routes (scanEntries env cwd src rec f d b lm ex es c l rs0))
        eqn:Es
  end; cbv zeta in *; try (cbn; discriminate).
  - rewrite Es. intros H. injection H as <-.
    apply (Hloop a); [apply Forall_nil|reflexivity].
  - rewrite Es. discriminate.
Qed.
End ScanFromParse.

(** ** The table stays keyed by handler path *)

Lemma parsedRoute_of_parse env cwd src (fuel : nat) (filePath basePath : string)
    lm ex (r : RouteDefinition) :
  parseRouteFile env cwd src fuel filePath basePath lm ex = Returned (Some r) ->
  parsedRoute r.
Proof.
  intros H. destruct (parseRouteFile_returns _ _ _ _ _ _ _ _ _ H)
    as (Hh & fn & Hs & _).
  exists fn. now rewrite Hh.
Qed.

Lemma tableSound_routes (b b' : Builder) :
  routes b' = routes b -> tableSound b -> tableSound b'.
Proof. unfold tableSound. now intros ->. Qed.

Lemma tableSound_setAll (rs : list RouteDefinition)
    (m : list (string * RouteDefinition)) :
  Forall parsedRoute rs -> tableKeyed m -> tableParsed m ->
  tableKeyed (setAll rs m) /\ tableParsed (setAll rs m).
Proof.
  intros Hrs Hk Hp. split; [now apply tableKeyed_setAll|].
  apply Forall_setAll; [|exact Hp].
  eapply Forall_impl; [|exact Hrs]. now intros r.
Qed.

Lemma rebuildDirectoryRoutes_sound env (fuel : nat) (dirPath : string)
    (b : Builder) :
  tableSound b ->
  afterReaction tableSound (rebuildDirectoryRoutes env fuel dirPath b).
Proof.
  intros [Hk Hp]. unfold rebuildDirectoryRoutes.
  destruct (scan_routes (scanDirectory env _ _ fuel _ dirPath "")) as [rs| |] eqn:Es;
    cbn [afterReaction]; [| |exact I].
  - pose proof (scanDirectory_from_parse env _ _ parsedRoute
                  (parsedRoute_of_parse env _ _) fuel _ _ _ _ Es) as Hrs.
    match goal with
    | |- tableSound (rebuildApp env ?b1) =>
        apply (tableSound_routes b1); [apply rebuildApp_frame|]
    end.
    unfold tableSound. cbn [setRoutes setExpectationsCache routes].
    apply tableSound_setAll; [assumption| |].
    + now apply tableKeyed_deleteStartingWith.
    + now apply Forall_deleteStartingWith.
  - unfold tableSound. cbn [setRoutes setExpectationsCache routes]. split.
    + now apply tableKeyed_deleteStartingWith.
    + now apply Forall_deleteStartingWith.
Qed.

Lemma handleFileChange_sound env (fuel : nat) (filePath : string) (b : Builder) :
  tableSound b -> afterReaction tableSound (handleFileChange env fuel filePath b).
Proof.
  intros Hb. unfold handleFileChange.
  assert (Hb0 : tableSound (emit (EInvalidate filePath) b)) by exact Hb.
  destruct (Path.basename filePath =? "middleware.ts")%string.
  { pose proof (rebuildDirectoryRoutes_sound env fuel (Path.dirname filePath) _ Hb0) as H.
    destruct (rebuildDirectoryRoutes env fuel _ _); cbn [afterReaction] in *;
      assumption. }
  destruct (Path.basename filePath =? "expectations.ts")%string.
  { match goal with
    | |- context [rebuildDirectoryRoutes env fuel _ ?b1] =>
        pose proof (rebuildDirectoryRoutes_sound env fuel (Path.dirname filePath)
                      b1 Hb0) as H;
        destruct (rebuildDirectoryRoutes env fuel (Path.dirname filePath) b1)
    end; cbn [afterReaction] in *; assumption. }
  destruct (parseRouteFile env _ _ fuel filePath "" None None) as [[route|]| |] eqn:Ep;
    cbn [afterReaction]; try exact I; try assumption.
  apply (tableSound_routes
           (applyRouteToApp env route (appId (app b))
              (setRoutes (map_set filePath route (routes b))
                 (emit (EInvalidate filePath) b)))); [reflexivity|].
  match goal with
  | |- tableSound (applyRouteToApp env route ?id ?b1) =>
      apply (tableSound_routes b1); [apply applyRouteToApp_frame|]
  end.
  destruct Hb as [Hk Hp].
  destruct (parseRouteFile_returns _ _ _ _ _ _ _ _ _ Ep) as (Hh & _).
  split; cbn [setRoutes emit routes].
  - now apply tableKeyed_set.
  - apply Forall_map_set; [|exact Hp]. cbn [snd].
    eapply parsedRoute_of_parse; eauto.
Qed.

Lemma dispatch_sound (s : Step) (b : Builder) :
  tableSound b -> afterReaction tableSound (dispatch s b).
Proof.
  intros Hb. unfold dispatch.
  destruct (step_event s) as [p|p|p|p|]; cbn [eventPath react].
  - destruct (ignored _ _); [exact Hb|]. now apply handleFileChange_sound.
  - destruct (ignored _ _); [exact Hb|]. now apply handleFileChange_sound.
  - destruct (ignored _ _); [exact Hb|]. cbn [afterReaction].
    unfold handleFileRemoval. destruct (map_has p (routes b)); [|exact Hb].
    apply (tableSound_routes (rebuildApp (step_env s)
                                (setRoutes (map_delete p (routes b)) b)));
      [reflexivity|].
    apply (tableSound_routes (setRoutes (map_delete p (routes b)) b));
      [apply rebuildApp_frame|].
    destruct Hb as [Hk Hp]. split; cbn [setRoutes routes].
    + now apply tableKeyed_delete.
    + now apply Forall_map_delete.
  - destruct (ignored _ _); [exact Hb|]. cbn [afterReaction].
    unfold handleDirectoryRemoval.
    apply (tableSound_routes (rebuildApp (step_env s)
                                (setRoutes (deleteStartingWith p (routes b)) b)));
      [reflexivity|].
    apply (tableSound_routes (setRoutes (deleteStartingWith p (routes b)) b));
      [apply rebuildApp_frame|].
    destruct Hb as [Hk Hp]. split; cbn [setRoutes routes].
    + now apply tableKeyed_deleteStartingWith.
    + now apply Forall_deleteStartingWith.
  - exact Hb.
Qed.

Lemma run_sound (steps : list Step) :
  forall b bN, tableSound b -> run steps b = Some bN -> tableSound bN.
Proof.
  induction steps as [|s steps IH]; intros b bN Hb; cbn [run].
  - intros H. now injection H as <-.
  - pose proof (dispatch_sound s b Hb) as Hd.
    destruct (dispatch s b); cbn [afterReaction] in Hd; try discriminate;
      now apply IH.
Qed.

Lemma start_sound env (fuel : nat) (b : Builder) :
  tableSound b -> afterReaction tableSound (start env fuel b).
Proof.
  intros [Hk Hp]. unfold start, buildRoutes.
  destruct (scan_routes (scanDirectory env _ _ fuel _ (sourceDir b) ""))
    as [rs| |] eqn:Es; cbn [afterReaction]; [| |exact I].
  - pose proof (scanDirectory_from_parse env _ _ parsedRoute
                  (parsedRoute_of_parse env _ _) fuel _ _ _ _ Es) as Hrs.
    match goal with
    | |- tableSound (emit _ (rebuildApp env ?b1)) =>
        apply (tableSound_routes (rebuildApp env b1)); [reflexivity|];
        apply (tableSound_routes b1); [apply rebuildApp_frame|]
    end.
    unfold tableSound. cbn [setRoutes setExpectationsCache routes].
    apply tableSound_setAll; [assumption|apply tableKeyed_nil|constructor].
  - split; assumption.
Qed.

(** After [start] and whatever deliveries follow, the table has one entry
    per key, every route is filed under the path of its own handler, and
    every route's method is the non-empty lowercase token between the last
    two dots of the handler's file name. *)
Theorem table_keyed_by_handler (env0 : Env) (fuel0 : nat) (b0 b1 bN : Builder)
    (steps : list Step) :
  routes b0 = [] ->
  start env0 fuel0 b0 = Settled b1 ->
  run steps b1 = Some bN ->
  NoDup (map_keys (routes bN))
  /\ forall key r, In (key, r) (routes bN) ->
       handlerPath r = key
       /\ exists fileName,
            Path.basename key = (fileName ++ "." ++ method r ++ ".ts")%string
            /\ method r <> ""
            /\ forallb Str.isLower (Str.chars (method r)) = true.
Proof.
  intros H0 Hs Hr.
  assert (Hb0 : tableSound b0).
  { unfold tableSound. rewrite H0. split; [apply tableKeyed_nil|constructor]. }
  pose proof (start_sound env0 fuel0 b0 Hb0) as H1. rewrite Hs in H1.
  cbn [afterReaction] in H1.
  destruct (run_sound steps b1 bN H1 Hr) as [[Hn Hk] Hp].
  split; [exact Hn|]. intros key r Hin.
  unfold tableParsed in Hp. rewrite Forall_forall in Hk, Hp.
  specialize (Hk _ Hin). specialize (Hp _ Hin). cbn [fst snd] in Hk, Hp.
  split; [exact Hk|]. destruct Hp as (fn & H2 & _ & _ & H5 & H6).
  exists fn. rewrite <- Hk. now repeat split.
Qed.

Lemma table_keyed_by_handler_witness :
  NoDup (map_keys (routes startedHiddenN))
  /\ forall key r, In (key, r) (routes startedHiddenN) ->
       handlerPath r = key
       /\ exists fileName,
            Path.basename key = (fileName ++ "." ++ method r ++ ".ts")%string
            /\ method r <> ""
            /\ forallb Str.isLower (Str.chars (method r)) = true.
Proof.
  apply (table_keyed_by_handler (envOf fsHidden) 10 builder0 startedHidden
           startedHiddenN stepsHidden).
  - reflexivity.
  - vm_compute. reflexivity.
  - vm_compute. reflexivity.
Defined.

(** ** What a rebuild does to the server *)

Lemma sameButCacheAndTrace_refl (b : Builder) : sameButCacheAndTrace b b.
Proof. now repeat split. Qed.

Lemma sameButCacheAndTrace_trans (b1 b2 b3 : Builder) :
  sameButCacheAndTrace b1 b2 -> sameButCacheAndTrace b2 b3 ->
  sameButCacheAndTrace b1 b3.
Proof.
  unfold sameButCacheAndTrace.
  intros (A1 & A2 & A3 & A4 & A5 & A6) (B1 & B2 & B3 & B4 & B5 & B6).
  repeat split; congruence.
Qed.

Lemma useMiddlewares_regs (env : Env) (id : nat) (mws : list string) :
  forall b,
    sameButCacheAndTrace b (useMiddlewares env id mws b)
    /\ exists added,
         trace (useMiddlewares env id mws b) = (trace b ++ added)%list
         /\ Forall (registrationOn id) added
         /\ filter isRouteEffect added = [].
Proof.
  induction mws as [|mw mws IH]; intros b; cbn [useMiddlewares].
  - split; [apply sameButCacheAndTrace_refl|].
    exists []. now rewrite app_nil_r.
  - assert (Hstep : forall b1 e,
              sameButCacheAndTrace b b1 -> trace b1 = (trace b ++ [e])%list ->
              registrationOn id e -> isRouteEffect e = false ->
              sameButCacheAndTrace b (useMiddlewares env id mws b1)
              /\ exists added,
                   trace (useMiddlewares env id mws b1) = (trace b ++ added)%list
                   /\ Forall (registrationOn id) added
                   /\ filter isRouteEffect added = []).
    { intros b1 e Hs Ht He Hr.
      destruct (IH b1) as (Hs1 & added & Ht1 & Hf & Hn).
      split; [eapply sameButCacheAndTrace_trans; eauto|].
      exists (e :: added). split; [|split].
      - rewrite Ht1, Ht, <- app_assoc. reflexivity.
      - now constructor.
      - cbn [filter]. now rewrite Hr. }
    destruct (map_has mw (middlewareCache b)).
    + eapply Hstep; [now repeat split|reflexivity|reflexivity|reflexivity].
    + destruct (requireDefault env mw) as [v|].
      * eapply Hstep; [now repeat split|reflexivity|reflexivity|reflexivity].
      * eapply Hstep; [now repeat split|reflexivity|exact I|reflexivity].
Qed.

Lemma applyRouteToApp_regs (env : Env) (r : RouteDefinition) (id : nat)
    (b : Builder) :
  sameButCacheAndTrace b (applyRouteToApp env r id b)
  /\ exists added,
       trace (applyRouteToApp env r id b) = (trace b ++ added)%list
       /\ Forall (registrationOn id) added
       /\ filter isRouteEffect added = expectedRoutes env id [r].
Proof.
  unfold applyRouteToApp, expectedRoutes. cbn [flat_map].
  destruct (requireDefault env (handlerPath r)) as [h|].
  - destruct (useMiddlewares_regs env id (middlewares r) b)
      as (Hs & added & Ht & Hf & Hn).
    destruct (isFunctionProp env (toLowerCase (method r))).
    + split; [exact Hs|]. eexists (added ++ [_])%list. split; [|split].
      * cbn [emit trace]. rewrite Ht, <- app_assoc. reflexivity.
      * apply Forall_app. split; [assumption|]. repeat constructor.
      * rewrite filter_app, Hn. reflexivity.
    + split; [exact Hs|]. eexists (added ++ [_])%list. split; [|split].
      * cbn [emit trace]. rewrite Ht, <- app_assoc. reflexivity.
      * apply Forall_app. split; [assumption|]. repeat constructor.
      * rewrite filter_app, Hn. reflexivity.
  - split; [now repeat split|]. eexists [_]. split; [reflexivity|].
    split; [repeat constructor|reflexivity].
Qed.

Lemma expectedRoutes_app (env : Env) (id : nat) (a b : list RouteDefinition) :
  expectedRoutes env id (a ++ b) =
  (expectedRoutes env id a ++ expectedRoutes env id b)%list.
Proof. unfold expectedRoutes. apply flat_map_app. Qed.

Lemma applyRoutes_regs (env : Env) (id : nat) (rs : list RouteDefinition) :
  forall b,
    sameButCacheAndTrace b (applyRoutes env rs id b)
    /\ exists added,
         trace (applyRoutes env rs id b) = (trace b ++ added)%list
         /\ Forall (registrationOn id) added
         /\ filter isRouteEffect added = expectedRoutes env id rs.
Proof.
  induction rs as [|r rs IH]; intros b; cbn [applyRoutes].
  - split; [apply sameButCacheAndTrace_refl|]. exists [].
    now rewrite app_nil_r.
  - destruct (applyRouteToApp_regs env r id b) as (Hs1 & a1 & Ht1 & Hf1 & Hn1).
    destruct (IH (applyRouteToApp env r id b)) as (Hs2 & a2 & Ht2 & Hf2 & Hn2).
    split; [eapply sameButCacheAndTrace_trans; eauto|].
    exists (a1 ++ a2)%list. split; [|split].
    + rewrite Ht2, Ht1, <- app_assoc. reflexivity.
    + apply Forall_app. now split.
    + rewrite filter_app, Hn1, Hn2.
      change (r :: rs) with ([r] ++ rs)%list. now rewrite expectedRoutes_app.
Qed.

Lemma rebuildApp_shape (env : Env) (b : Builder) :
  let n := nextId b in
  exists regs,
    trace (rebuildApp env b) =
      (trace b
       ++ [ENew n; EGroup n match basePath (config b) with
                            | Some s => s | None => "" end]
       ++ regs
       ++ (if server (app b) then [EStop (appId (app b))] else [])
       ++ [EListen n (listenPort b)])%list
    /\ Forall (registrationOn n) regs
    /\ app (rebuildApp env b) = mkApp n true
    /\ nextId (rebuildApp env b) = S n
    /\ routes (rebuildApp env b) = routes b.
Proof.
  intros n. unfold rebuildApp. fold n.
  set (base := match basePath (config b) with Some s => s | None => "" end).
  set (b1 := emit (EGroup n base) (emit (ENew n) b)).
  destruct (applyRoutes_regs env n (map_values (routes b1)) b1)
    as ((Hr & Ha & Hn & Hc & _) & regs & Ht & Hf & _).
  exists regs. rewrite Ha. change (app b1) with (app b).
  assert (Hp : match port (config (if server (app b)
                   then emit (EStop (appId (app b)))
                          (applyRoutes env (map_values (routes b1)) n b1)
                   else applyRoutes env (map_values (routes b1)) n b1)) with
               | Some 0 => 3000 | Some p => p | None => 3000 end = listenPort b).
  { unfold listenPort. destruct (server (app b)); cbn [emit config]; now rewrite Hc. }
  rewrite Hp. split; [|split; [exact Hf|split; [reflexivity|split; [reflexivity|]]]].
  - destruct (server (app b)); cbn [setApp emit trace]; rewrite Ht;
      cbn [b1 emit trace]; rewrite <- !app_assoc; reflexivity.
  - destruct (server (app b)); cbn [setApp emit routes]; rewrite Hr; reflexivity.
Qed.

(** A rebuild, in order: a new instance is made and grouped under the
    base path; registrations follow, on that instance only; the instance
    held so far is stopped if and only if its server is set; the new
    instance listens on the configured port (3000 for none or 0) and
    becomes the one held.  The table is left as it is. *)
Theorem rebuild_sequence (env : Env) (b : Builder) :
  let n := nextId b in
  exists regs,
    trace (rebuildApp env b) =
      (trace b
       ++ [ENew n; EGroup n match basePath (config b) with
                            | Some s => s | None => "" end]
       ++ regs
       ++ (if server (app b) then [EStop (appId (app b))] else [])
       ++ [EListen n (listenPort b)])%list
    /\ Forall (registrationOn n) regs
    /\ app (rebuildApp env b) = mkApp n true
    /\ nextId (rebuildApp env b) = S n
    /\ routes (rebuildApp env b) = routes b.
Proof. exact (rebuildApp_shape env b). Qed.

Lemma rebuildApp_route_effects (env : Env) (b : Builder) :
  filter isRouteEffect (trace (rebuildApp env b)) =
  (filter isRouteEffect (trace b)
   ++ expectedRoutes env (nextId b) (getRoutes b))%list.
Proof.
  unfold rebuildApp.
  set (n := nextId b).
  set (base := match basePath (config b) with Some s => s | None => "" end).
  set (b1 := emit (EGroup n base) (emit (ENew n) b)).
  destruct (applyRoutes_regs env n (map_values (routes b1)) b1)
    as (_ & regs & Ht & _ & Hn).
  assert (H : filter isRouteEffect
                (trace (applyRoutes env (map_values (routes b1)) n b1)) =
              (filter isRouteEffect (trace b)
               ++ expectedRoutes env n (getRoutes b))%list).
  { rewrite Ht, filter_app, Hn. cbn [b1 emit trace].
    rewrite !filter_app. cbn [filter isRouteEffect]. now rewrite !app_nil_r. }
  destruct (server (app _)); cbn [setApp emit trace];
    rewrite !filter_app, H; cbn [filter isRouteEffect]; now rewrite !app_nil_r.
Qed.

(** The routes a rebuild registers are those of the table whose handler
    loads and whose method is a function of the instance, once each, in
    the order of the table; a handler that fails to load or a method the
    instance lacks costs that one registration only. *)
Theorem rebuild_registers_loadable_routes (env : Env) (b : Builder) :
  filter isRouteEffect (trace (rebuildApp env b)) =
  (filter isRouteEffect (trace b)
   ++ expectedRoutes env (nextId b) (getRoutes b))%list.
Proof. exact (rebuildApp_route_effects env b). Qed.

(** ** Removals *)

(** Removing a handler file that has a route deletes that one entry and no
    other (a sibling whose name only begins the same way keeps its route),
    and rebuilds: the instance made by the rebuild is the one held
    afterwards. *)
Theorem unlink_removes_one_entry (env : Env) (filePath : string) (b : Builder) :
  NoDup (map_keys (routes b)) ->
  map_has filePath (routes b) = true ->
  let b' := handleFileRemoval env filePath b in
  (forall k, map_get k (routes b') =
             if (filePath =? k)%string then None else map_get k (routes b))
  /\ app b' = mkApp (nextId b) true
  /\ In (EListen (nextId b) (listenPort b)) (trace b').
Proof.
  intros Hn Hh. unfold handleFileRemoval. rewrite Hh.
  destruct (rebuildApp_shape env (setRoutes (map_delete filePath (routes b)) b))
    as (regs & Ht & _ & Ha & _ & Hr).
  cbv zeta in *. cbn [finishReaction emit routes app trace].
  rewrite Hr, Ha, Ht. cbn [setRoutes routes nextId app config trace].
  split; [|split].
  - intros k. now apply map_get_delete.
  - reflexivity.
  - rewrite !in_app_iff. left. left. right. right. right. right. now left.
Qed.

Lemma unlink_removes_one_entry_witness :
  map_get "/srv/src/a/bc/y.get.ts"
    (routes (handleFileRemoval (envOf fsSiblingsAfter) "/srv/src/a/b/x.get.ts"
               builderSiblings))
  = Some (routeAt "a/bc/y" "/srv/src/a/bc/y.get.ts").
Proof.
  destruct (unlink_removes_one_entry (envOf fsSiblingsAfter)
              "/srv/src/a/b/x.get.ts" builderSiblings) as (H & _).
  - repeat constructor; cbn; intuition discriminate.
  - reflexivity.
  - rewrite H. reflexivity.
Defined.

(** Removing a directory deletes every entry whose key has the directory's
    path as a string prefix, leaves every other entry as it is, and always
    rebuilds, also when no entry was deleted. *)
Theorem unlinkDir_removes_by_string_prefix (env : Env) (dirPath : string)
    (b : Builder) :
  let b' := handleDirectoryRemoval env dirPath b in
  (forall k, map_get k (routes b') =
             if Str.startsWith k dirPath then None else map_get k (routes b))
  /\ app b' = mkApp (nextId b) true
  /\ In (EListen (nextId b) (listenPort b)) (trace b').
Proof.
  unfold handleDirectoryRemoval.
  destruct (rebuildApp_shape env
              (setRoutes (deleteStartingWith dirPath (routes b)) b))
    as (regs & Ht & _ & Ha & _ & Hr).
  cbv zeta in *. cbn [finishReaction emit routes app trace].
  rewrite Hr, Ha, Ht. cbn [setRoutes routes nextId app config trace].
  split; [|split].
  - intros k. apply map_get_deleteStartingWith.
  - reflexivity.
  - rewrite !in_app_iff. left. left. right. right. right. right. now left.
Qed.

(** ** The middleware cache is never invalidated *)

Lemma cachePersists_refl (b : Builder) : cachePersists b b.
Proof. now intros k v. Qed.

Lemma cachePersists_trans (b1 b2 b3 : Builder) :
  cachePersists b1 b2 -> cachePersists b2 b3 -> cachePersists b1 b3.
Proof. intros H1 H2 k v H. now apply H2, H1. Qed.

Lemma cachePersists_same (b b' : Builder) :
  middlewareCache b' = middlewareCache b -> cachePersists b b'.
Proof. intros E k v. now rewrite E. Qed.

Lemma useMiddlewares_persists (env : Env) (id : nat) (mws : list string) :
  forall b, cachePersists b (useMiddlewares env id mws b).
Proof.
  induction mws as [|mw mws IH]; intros b; cbn [useMiddlewares].
  - apply cachePersists_refl.
  - destruct (map_has mw (middlewareCache b)) eqn:Eh.
    + eapply cachePersists_trans; [|apply IH]. now apply cachePersists_same.
    + destruct (requireDefault env mw) as [v|].
      * eapply cachePersists_trans; [|apply IH].
        intros k v0 Hk. cbn [emit setMiddlewareCache middlewareCache].
        rewrite map_get_set. destruct (mw =? k)%string eqn:E; [|exact Hk].
        apply String.eqb_eq in E. subst k. unfold map_has in Eh.
        rewrite Hk in Eh. discriminate.
      * eapply cachePersists_trans; [|apply IH]. now apply cachePersists_same.
Qed.

Lemma applyRoutes_persists (env : Env) (id : nat) (rs : list RouteDefinition) :
  forall b, cachePersists b (applyRoutes env rs id b).
Proof.
  induction rs as [|r rs IH]; intros b; cbn [applyRoutes].
  - apply cachePersists_refl.
  - eapply cachePersists_trans; [|apply IH]. unfold applyRouteToApp.
    destruct (requireDefault env (handlerPath r)); [|now apply cachePersists_same].
    destruct (isFunctionProp env _);
      (eapply cachePersists_trans; [apply useMiddlewares_persists|]);
      now apply cachePersists_same.
Qed.

Lemma rebuildApp_persists (env : Env) (b : Builder) :
  cachePersists b (rebuildApp env b).
Proof.
  unfold rebuildApp.
  match goal with
  | |- context [applyRoutes env ?rs ?n ?b1] =>
      pose proof (applyRoutes_persists env n rs b1) as H
  end.
  eapply cachePersists_trans; [|eapply cachePersists_trans; [exact H|]].
  - now apply cachePersists_same.
  - destruct (server (app _)); now apply cachePersists_same.
Qed.

Lemma rebuildDirectoryRoutes_persists env (fuel : nat) (dirPath : string)
    (b : Builder) :
  afterReaction (cachePersists b) (rebuildDirectoryRoutes env fuel dirPath b).
Proof.
  unfold rebuildDirectoryRoutes.
  destruct (scan_routes _); cbn [afterReaction]; [| |exact I].
  - eapply cachePersists_trans; [|apply rebuildApp_persists].
    now apply cachePersists_same.
  - now apply cachePersists_same.
Qed.

Lemma finish_rebuild_persists env (b b1 : Builder) :
  middlewareCache b1 = middlewareCache b ->
  cachePersists b (finishReaction (rebuildApp env b1)).
Proof.
  intros E. apply (cachePersists_trans b b1); [now apply cachePersists_same|].
  apply (cachePersists_trans b1 (rebuildApp env b1));
    [apply rebuildApp_persists|now apply cachePersists_same].
Qed.

Lemma dispatch_persists (s : Step) (b : Builder) :
  afterReaction (cachePersists b) (dispatch s b).
Proof.
  assert (Hchange : forall p, afterReaction (cachePersists b)
                      (handleFileChange (step_env s) (step_fuel s) p b)).
  { intros p. unfold handleFileChange.
    destruct (Path.basename p =? "middleware.ts")%string.
    { pose proof (rebuildDirectoryRoutes_persists (step_env s) (step_fuel s)
                    (Path.dirname p) (emit (EInvalidate p) b)) as H.
      destruct (rebuildDirectoryRoutes _ _ _ _) as [b2|b2|];
        cbn [afterReaction] in *; try exact I;
        (apply (cachePersists_trans b (emit (EInvalidate p) b));
         [now apply cachePersists_same|]);
        (apply (cachePersists_trans _ b2); [exact H|now apply cachePersists_same]). }
    destruct (Path.basename p =? "expectations.ts")%string.
    { match goal with
      | |- context [rebuildDirectoryRoutes ?e ?f ?d ?b1] =>
          pose proof (rebuildDirectoryRoutes_persists e f d b1) as H;
          destruct (rebuildDirectoryRoutes e f d b1) as [b2|b2|];
          cbn [afterReaction] in *; try exact I;
          (apply (cachePersists_trans b b1); [now apply cachePersists_same|]);
          (apply (cachePersists_trans _ b2);
           [exact H|now apply cachePersists_same])
      end. }
    destruct (parseRouteFile _ _ _ _ _ _ _ _) as [[route|]| |];
      cbn [afterReaction]; try exact I; try (now apply cachePersists_same).
    match goal with
    | |- cachePersists b (finishReaction (applyRouteToApp ?e ?r ?id ?b1)) =>
        pose proof (applyRoutes_persists e id [r] b1) as H;
        cbn [applyRoutes] in H;
        apply (cachePersists_trans b b1); [now apply cachePersists_same|];
        apply (cachePersists_trans _ (applyRouteToApp e r id b1));
          [exact H|now apply cachePersists_same]
    end. }
  unfold dispatch.
  destruct (step_event s) as [p|p|p|p|]; cbn [eventPath react].
  - destruct (ignored _ _); [apply cachePersists_refl|apply Hchange].
  - destruct (ignored _ _); [apply cachePersists_refl|apply Hchange].
  - destruct (ignored _ _); [apply cachePersists_refl|]. cbn [afterReaction].
    unfold handleFileRemoval. destruct (map_has p (routes b));
      [|now apply cachePersists_same].
    now apply finish_rebuild_persists.
  - destruct (ignored _ _); [apply cachePersists_refl|]. cbn [afterReaction].
    unfold handleDirectoryRemoval. now apply finish_rebuild_persists.
  - now apply cachePersists_same.
Qed.

(** A middleware handle, once cached, is what the builder keeps using:
    no delivery, a change of that very [middleware.ts] included, evicts
    or replaces it. *)
Theorem middleware_cache_is_never_invalidated (steps : list Step) :
  forall (b bN : Builder) (mwPath : string) (mw : Value),
    map_get mwPath (middlewareCache b) = Some mw ->
    run steps b = Some bN ->
    map_get mwPath (middlewareCache bN) = Some mw.
Proof.
  induction steps as [|s steps IH]; intros b bN mwPath mw Hc; cbn [run].
  - intros H. now injection H as <-.
  - pose proof (dispatch_persists s b) as Hd.
    destruct (dispatch s b); cbn [afterReaction] in Hd; try discriminate;
      apply IH; now apply Hd.
Qed.

Lemma middleware_cache_is_never_invalidated_witness :
  requireDefault (envOf fsHidden'') "/srv/src/users/middleware.ts"
    = Some (VFunction 6)
  /\ map_get "/srv/src/users/middleware.ts" (middlewareCache startedHiddenR)
     = Some (VFunction 5).
Proof.
  split; [reflexivity|].
  apply (middleware_cache_is_never_invalidated stepsRewritten startedHiddenN).
  - reflexivity.
  - vm_compute. reflexivity.
Defined.

(** ** What a scan and the watchers pass over *)

(** The loop over a listing gives the same routes, cache and log when the
    entries it has no use for are taken out of the listing: entries
    beginning with [_], files not ending in [.ts], [middleware.ts] and
    [expectations.ts], and whatever is neither a file nor a directory. *)
Theorem scan_passes_over_unscannable env cwd src rec (fuel : nat)
    (dirPath basePath : string) lm ex (entries : list Dirent) :
  forall cache log routes,
    scanEntries env cwd src rec fuel dirPath basePath lm ex entries
      cache log routes
    = scanEntries env cwd src rec fuel dirPath basePath lm ex
        (filter scannable entries) cache log routes.
Proof.
  induction entries as [|e entries IH]; intros cache log routes; [reflexivity|].
  cbn [filter]. unfold scannable at 1.
  destruct (Str.startsWith (name e) "_") eqn:Eu; cbn [negb andb].
  - cbn [scanEntries]. rewrite Eu. apply IH.
  - destruct (kind e) eqn:Ek.
    + destruct (Str.endsWith (name e) ".ts") eqn:Et; cbn [andb].
      * destruct ((name e =? "middleware.ts")%string
                  || (name e =? "expectations.ts")%string) eqn:Em; cbn [negb].
        -- cbn [scanEntries]. rewrite Eu, Ek, Et, Em. apply IH.
        -- cbn [scanEntries]. rewrite Eu, Ek, Et, Em.
           destruct (parseRouteFile _ _ _ _ _ _ _ _) as [[route|]| |];
             try reflexivity; apply IH.
      * cbn [scanEntries]. rewrite Eu, Ek, Et. apply IH.
    + cbn [scanEntries]. rewrite Eu, Ek.
      destruct (scan_routes (rec cache _ _)); try reflexivity. apply IH.
    + cbn [scanEntries]. rewrite Eu, Ek. apply IH.
Qed.

Lemma split_nonempty (s : string) : Str.split Str.slash s <> [].
Proof.
  destruct s as [|c s]; cbn [Str.split]; [discriminate|].
  destruct (Ascii.eqb c Str.slash); [discriminate|].
  destruct (Str.split Str.slash s); discriminate.
Qed.

Lemma split_app_sep (a b : string) :
  Str.split Str.slash (a ++ String Str.slash b) =
  (Str.split Str.slash a ++ Str.split Str.slash b)%list.
Proof.
  induction a as [|c a IH]; [reflexivity|].
  cbn [append Str.split]. destruct (Ascii.eqb c Str.slash).
  - now rewrite IH.
  - rewrite IH. pose proof (split_nonempty a) as Hne.
    destruct (Str.split Str.slash a) as [|h t]; [congruence|reflexivity].
Qed.

(** The watcher's [ignored] predicate refuses every path with a segment
    that begins with [_], whatever its stats, and with it every path
    below: a hidden directory hides its whole subtree from the reactor. *)
Theorem hidden_directory_hides_subtree (p q : string) (isFile : option bool) :
  hasHiddenSegment p = true ->
  ignored p isFile = true /\ ignored (p ++ "/" ++ q) isFile = true.
Proof.
  unfold hasHiddenSegment. intros H.
  assert (Hq : existsb (fun seg => Str.startsWith seg "_")
                 (Str.split Str.slash (p ++ "/" ++ q)) = true).
  { change ("/" ++ q)%string with (String Str.slash q).
    rewrite split_app_sep, existsb_app, H. reflexivity. }
  unfold ignored. rewrite H, Hq.
  destruct isFile as [[|]|]; split; try reflexivity;
    now destruct (negb (Str.endsWith _ ".ts")).
Qed.

Lemma hidden_directory_hides_subtree_witness :
  ignored "/srv/src/_private" None = true
  /\ ignored ("/srv/src/_private" ++ "/" ++ "deep/secret.get.ts") (Some true) = true.
Proof.
  split.
  - apply (hidden_directory_hides_subtree "/srv/src/_private" "" None).
    reflexivity.
  - apply (hidden_directory_hides_subtree "/srv/src/_private"
             "deep/secret.get.ts" (Some true)).
    reflexivity.
Defined.

(** The predicate of [Parse.setWatcher] refuses nothing the builder's
    watcher accepts: it only has the extension test, so whatever it
    ignores the builder's [ignored] ignores too. *)
Theorem parse_watcher_ignores_less (p : string) (isFile : option bool) :
  parseIgnored p isFile = true -> ignored p isFile = true.
Proof.
  unfold parseIgnored, ignored. destruct isFile as [[|]|]; try discriminate.
  now intros ->.
Qed.

Lemma parse_watcher_ignores_less_witness :
  ignored "/srv/src/readme.md" (Some true) = true.
Proof.
  apply (parse_watcher_ignores_less "/srv/src/readme.md" (Some true)).
  reflexivity.
Defined.

(** ** The constructor *)

Lemma normalizeSegs_plain_prefix (b : bool) (l1 l2 acc : list string) :
  Forall (fun s => plainSeg s = true) l1 ->
  Path.normalizeSegs b acc (l1 ++ l2) = Path.normalizeSegs b (rev l1 ++ acc) l2.
Proof.
  revert acc. induction l1 as [|x l1 IH]; intros acc H; [reflexivity|].
  inversion H as [|? ? Hx Hl]; subst. cbn [List.app Path.normalizeSegs].
  unfold plainSeg in Hx.
  apply andb_prop in Hx as [Hx H3]. apply andb_prop in Hx as [Hx H2].
  apply andb_prop in Hx as [H0 H1].
  apply negb_true_iff in H0, H2, H3. rewrite H0, H2, H3. cbn [orb].
  rewrite IH by assumption. cbn [rev]. now rewrite <- app_assoc.
Qed.

Lemma split_absPath_prefix (c : list string) (d : string) :
  Forall (fun s => plainSeg s = true) c ->
  Path.normalizeSegs false [] (Str.split Str.slash (absPath c ++ "/" ++ d)) =
  Path.normalizeSegs false (rev c) (Str.split Str.slash d).
Proof.
  intros Hc. change ("/" ++ d)%string with (String Str.slash d).
  rewrite split_app_sep. destruct c as [|x c].
  - reflexivity.
  - rewrite absPath_split by (assumption || discriminate).
    change (Path.normalizeSegs false [] (("" :: x :: c) ++ Str.split Str.slash d))
      with (Path.normalizeSegs false [] ((x :: c) ++ Str.split Str.slash d)).
    rewrite normalizeSegs_plain_prefix by assumption. now rewrite app_nil_r.
Qed.

Lemma join_not_absolute (rel : list string) :
  rel <> [] -> Forall (fun s => plainSeg s = true) rel ->
  Path.isAbsolute (Str.join "/" rel) = false.
Proof.
  intros Hne H. destruct rel as [|x rel]; [congruence|].
  inversion H as [|? ? Hx _]; subst.
  pose proof (plainSeg_nonempty _ Hx) as Hn.
  pose proof (plainSeg_noSlash _ Hx) as Hs.
  destruct x as [|ch x]; [congruence|].
  rewrite noSlash_cons in Hs. apply andb_prop in Hs as [Hs _].
  apply negb_true_iff in Hs.
  unfold Path.isAbsolute.
  assert (E : forall s, Str.startsWith (String ch s) "/" = Ascii.eqb ch Str.slash).
  { intros s. cbn [Str.startsWith]. apply andb_true_r. }
  destruct rel as [|y rel]; [cbn [Str.join]|rewrite join_cons; cbn [append]];
    now rewrite E.
Qed.

(** After construction the source directory is absolute: the default
    [./src] and any relative path of plain segments are resolved against
    the project root into the normalized path below it, and an absolute
    path is kept as it was given. *)
Theorem constructor_resolves_source_directory (c : list string) (a : App)
    (fresh : nat) :
  Forall (fun s => plainSeg s = true) c ->
  sourceDir (newBuilder (absPath c) a fresh None) = absPath (c ++ ["src"])
  /\ (forall cfg rel,
        rel <> [] -> Forall (fun s => plainSeg s = true) rel ->
        sourceDirectory cfg = Some (Str.join "/" rel) ->
        sourceDir (newBuilder (absPath c) a fresh (Some cfg)) = absPath (c ++ rel))
  /\ (forall cfg d,
        sourceDirectory cfg = Some d -> Path.isAbsolute d = true ->
        sourceDir (newBuilder (absPath c) a fresh (Some cfg)) = d).
Proof.
  intros Hc. split; [|split].
  - unfold newBuilder, sourceDir. cbn [spread defaultConfig sourceDirectory
      orElse config]. change (Path.isAbsolute "./src") with false. cbv iota.
    unfold Path.resolve. change (Path.isAbsolute "./src") with false. cbv iota.
    rewrite split_absPath_prefix by assumption.
    change (Str.split Str.slash "./src") with ["."; "src"].
    cbn [Path.normalizeSegs String.eqb Ascii.eqb Bool.eqb orb].
    cbn [rev]. rewrite rev_involutive. reflexivity.
  - intros cfg rel Hne Hrel Hcfg.
    unfold newBuilder, sourceDir. cbn [spread sourceDirectory orElse config].
    rewrite Hcfg. cbn [orElse]. rewrite (join_not_absolute rel Hne Hrel).
    unfold Path.resolve. rewrite (join_not_absolute rel Hne Hrel).
    rewrite split_absPath_prefix by assumption.
    rewrite split_join
      by (assumption || (eapply Forall_impl; [|exact Hrel]; apply plainSeg_noSlash)).
    rewrite normalizeSegs_plain by assumption. now rewrite rev_involutive.
  - intros cfg d Hcfg Hd.
    unfold newBuilder, sourceDir. cbn [spread sourceDirectory orElse config].
    rewrite Hcfg. cbn [orElse]. now rewrite Hd.
Qed.

Lemma constructor_resolves_source_directory_witness :
  sourceDir (newBuilder "/srv" (mkApp 0 false) 1 None) = "/srv/src".
Proof.
  destruct (constructor_resolves_source_directory ["srv"] (mkApp 0 false) 1)
    as [H _]; [repeat constructor|exact H].
Defined.

(** ** Route paths *)

Lemma simpleSeg_plain (s : string) : simpleSeg s = true -> plainSeg s = true.
Proof. unfold simpleSeg. intros H. now apply andb_prop in H as [H _]. Qed.

Lemma replaceBackslashes_simple (s : string) :
  forallb (fun c => negb (Ascii.eqb c Str.backslash)) (Str.chars s) = true ->
  Str.replaceBackslashes s = s.
Proof.
  induction s as [|c s IH]; [reflexivity|].
  change (Str.chars (String c s)) with (c :: Str.chars s).
  cbn [forallb Str.replaceBackslashes]. intros H.
  apply andb_prop in H as [Hc Hs]. apply negb_true_iff in Hc.
  now rewrite Hc, IH.
Qed.

Lemma chars_join_forallb (f : ascii -> bool) (l : list string) :
  f Str.slash = true ->
  Forall (fun s => forallb f (Str.chars s) = true) l ->
  forallb f (Str.chars (Str.join "/" l)) = true.
Proof.
  intros Hf. induction 1 as [|x l Hx Hl IH]; [reflexivity|].
  destruct l as [|y l]; [exact Hx|].
  rewrite join_cons, chars_app, forallb_app, Hx.
  change (Str.chars ("/" ++ ?s)) with (Str.slash :: Str.chars s).
  cbn [forallb andb]. now rewrite Hf, IH.
Qed.

(** [path.join] of a relative normalized path and one more segment. *)
Lemma join_relative (segs : list string) (n : string) :
  segs <> [] -> Forall (fun s => plainSeg s = true) segs -> plainSeg n = true ->
  Path.join (Str.join "/" segs) n = Str.join "/" (segs ++ [n]).
Proof.
  intros Hne Hs Hn.
  assert (Hall : Forall (fun s => plainSeg s = true) (segs ++ [n]))
    by (apply Forall_app; split; [assumption|constructor; auto]).
  assert (Hj : Str.join "/" segs <> "").
  { destruct segs as [|x segs]; [congruence|]. apply join_nonempty.
    inversion Hs; subst. now apply plainSeg_nonempty. }
  unfold Path.join.
  rewrite (eqb_false_of_neq _ _ Hj), (eqb_false_of_neq n "")
    by now apply plainSeg_nonempty.
  rewrite <- join_snoc by assumption.
  assert (Hj' : Str.join "/" (segs ++ [n]) <> "").
  { destruct segs as [|x segs]; [congruence|]. apply join_nonempty.
    inversion Hs; subst. now apply plainSeg_nonempty. }
  unfold Path.normalize. rewrite (eqb_false_of_neq _ _ Hj').
  rewrite join_not_absolute by (assumption || (destruct segs; discriminate)).
  assert (Ht : Str.endsWith (Str.join "/" (segs ++ [n])) "/" = false).
  { rewrite join_snoc by assumption. rewrite <- append_assoc.
    now apply endsWith_slash_plain. }
  rewrite Ht. cbn [negb].
  rewrite split_join
    by ((destruct segs; discriminate)
        || (eapply Forall_impl; [|exact Hall]; apply plainSeg_noSlash)).
  rewrite normalizeSegs_plain by assumption. cbn [rev List.app].
  now rewrite (eqb_false_of_neq _ _ Hj').
Qed.

Lemma join_empty_plain (n : string) :
  plainSeg n = true -> Path.join "" n = n.
Proof.
  intros Hn.
  assert (H1 : (n =? "")%string = false)
    by (apply eqb_false_of_neq; now apply plainSeg_nonempty).
  assert (H2 : Path.isAbsolute n = false)
    by (apply (join_not_absolute [n]); [discriminate|constructor; auto]).
  assert (H3 : Str.endsWith n "/" = false)
    by (apply (endsWith_slash_plain "" n Hn)).
  assert (H4 : Str.split Str.slash n = [n])
    by (apply split_noSlash; now apply plainSeg_noSlash).
  unfold Path.join. cbn [String.eqb]. rewrite H1.
  unfold Path.normalize. rewrite H1, H2, H3, H4. cbn [negb].
  rewrite normalizeSegs_plain by (constructor; auto).
  cbn [rev List.app Str.join]. now rewrite H1.
Qed.

Lemma simpleSeg_noBackslash (s : string) :
  simpleSeg s = true ->
  forallb (fun c => negb (Ascii.eqb c Str.backslash)) (Str.chars s) = true.
Proof. unfold simpleSeg. intros H. now apply andb_prop in H as [_ H]. Qed.

Lemma replaceBackslashes_join (segs : list string) :
  Forall (fun s => simpleSeg s = true) segs ->
  Str.replaceBackslashes (Str.join "/" segs) = Str.join "/" segs.
Proof.
  intros H. apply replaceBackslashes_simple. apply chars_join_forallb.
  - reflexivity.
  - eapply Forall_impl; [|exact H]. apply simpleSeg_noBackslash.
Qed.

Lemma Forall_simple_plain (l : list string) :
  Forall (fun s => simpleSeg s = true) l -> Forall (fun s => plainSeg s = true) l.
Proof. apply Forall_impl. apply simpleSeg_plain. Qed.

Lemma baseFrom_simple_acc (rel : list string) :
  forall segs,
    segs <> [] -> Forall (fun s => simpleSeg s = true) segs ->
    Forall (fun d => simpleSeg (groupName d) = true) rel ->
    baseFrom (Str.join "/" segs) rel = Str.join "/" (segs ++ map groupName rel).
Proof.
  induction rel as [|d rel IH]; intros segs Hne Hs Hr.
  - cbn. now rewrite app_nil_r.
  - inversion Hr as [|? ? Hd Hrel]; subst.
    cbn [baseFrom fold_left map]. fold (baseFrom (stepBase (Str.join "/" segs) d) rel).
    assert (Hstep : stepBase (Str.join "/" segs) d =
                    Str.join "/" (segs ++ [groupName d])).
    { unfold stepBase.
      rewrite join_relative
        by (assumption || (now apply Forall_simple_plain) || now apply simpleSeg_plain).
      apply replaceBackslashes_join. apply Forall_app. split; [assumption|].
      constructor; auto. }
    rewrite Hstep, IH.
    + now rewrite <- app_assoc.
    + destruct segs; discriminate.
    + apply Forall_app. split; [assumption|constructor; auto].
    + assumption.
Qed.

Lemma baseFrom_simple (rel : list string) :
  rel <> [] -> Forall (fun d => simpleSeg (groupName d) = true) rel ->
  baseFrom "" rel = Str.join "/" (map groupName rel).
Proof.
  intros Hne Hr. destruct rel as [|d rel]; [congruence|].
  inversion Hr as [|? ? Hd Hrel]; subst.
  cbn [baseFrom fold_left map]. fold (baseFrom (stepBase "" d) rel).
  assert (Hstep : stepBase "" d = Str.join "/" [groupName d]).
  { unfold stepBase. rewrite join_empty_plain by now apply simpleSeg_plain.
    apply replaceBackslashes_simple. now apply simpleSeg_noBackslash. }
  rewrite Hstep, baseFrom_simple_acc; try assumption.
  - reflexivity.
  - discriminate.
  - constructor; auto.
Qed.

Lemma finalPath_below (cwd src filePath : string) (rel : list string)
    (fileName : string) :
  rel <> [] -> Forall (fun d => simpleSeg (groupName d) = true) rel ->
  simpleSeg fileName = true ->
  finalPath cwd src filePath (baseFrom "" rel) fileName = urlPath rel fileName.
Proof.
  intros Hne Hrel Hfn. unfold finalPath, urlPath.
  destruct rel as [|d rel]; [congruence|].
  rewrite baseFrom_simple by (assumption || discriminate).
  assert (Hg : Forall (fun s => simpleSeg s = true) (map groupName (d :: rel)))
    by now rewrite Forall_map.
  assert (Hn : (Str.join "/" (map groupName (d :: rel)) =? "")%string = false).
  { apply eqb_false_of_neq. cbn [map]. apply join_nonempty.
    inversion Hrel; subst. apply plainSeg_nonempty. now apply simpleSeg_plain. }
  rewrite Hn. destruct (fileName =? "index")%string; [reflexivity|].
  rewrite join_relative
    by (discriminate || (now apply Forall_simple_plain) || now apply simpleSeg_plain).
  apply replaceBackslashes_join. apply Forall_app. split; [assumption|].
  constructor; auto.
Qed.



(** The handler path of a scanned route has one reading as plain names
    below the scanned directory, and the route path is the one of that
    reading. *)
Lemma scan_route_decomposed (env : Env) (cwd : string) (root rel0 : list string)
    (fuel : nat) (cache : ExpectationsCache) (base : string)
    (rs : list RouteDefinition) :
  Forall (fun s => plainSeg s = true) root ->
  wfEnv env ->
  Forall (fun s => plainSeg s = true) rel0 ->
  scan_routes (scanDirectory env cwd (absPath root) fuel cache
                 (absPath (root ++ rel0)) base) = Returned rs ->
  forall r rel n fileName m,
    In r rs ->
    handlerPath r = absPath (root ++ (rel0 ++ rel) ++ [n]) ->
    Forall (fun s => plainSeg s = true) (rel ++ [n]) ->
    matchRouteFileName n = Some (fileName, m) ->
    path r = finalPath cwd (absPath root) (handlerPath r) (baseFrom base rel)
               fileName.
Proof.
  intros Hroot Hwf Hrel0 Hs r rel n fileName m Hr Hh Hp Hm.
  pose proof (scanDirectory_good env cwd root Hroot Hwf fuel rel0 cache base rs
                Hrel0 Hs) as Hg.
  rewrite Forall_forall in Hg.
  destruct (Hg r Hr) as (rel' & n' & fn' & m' & H1 & H2 & _ & H4 & H5).
  assert (E : (rel' ++ [n'] = rel ++ [n])%list).
  { rewrite H1 in Hh. apply absPath_inj in Hh.
    - rewrite <- !app_assoc in Hh.
      apply app_inv_head in Hh. now apply app_inv_head in Hh.
    - apply Forall_app. split; [assumption|].
      rewrite <- app_assoc. apply Forall_app. split; [assumption|].
      now apply visibleSeg_plain.
    - apply Forall_app. split; [assumption|].
      rewrite <- app_assoc. apply Forall_app. split; assumption. }
  apply app_inj_tail in E as [-> ->].
  rewrite Hm in H4. injection H4 as <- <-. exact H5.
Qed.

Lemma finalPath_at_root (cwd : string) (root : list string) (n fileName : string) :
  Forall (fun s => plainSeg s = true) root -> plainSeg n = true ->
  simpleSeg fileName = true ->
  finalPath cwd (absPath root) (absPath (root ++ [n])) (baseFrom "" []) fileName
  = urlPath [] fileName.
Proof.
  intros Hroot Hn Hfn. unfold finalPath, urlPath.
  cbn [baseFrom fold_left String.eqb].
  assert (Hd : derivedBasePath cwd (absPath root) (absPath (root ++ [n])) = "/").
  { unfold derivedBasePath. rewrite dirname_absPath by assumption.
    unfold Path.relative. rewrite String.eqb_refl. reflexivity. }
  rewrite Hd. destruct (fileName =? "index")%string; [reflexivity|].
  change "/" with (absPath []) at 1.
  rewrite join_absPath by (constructor || now apply simpleSeg_plain).
  apply replaceBackslashes_simple.
  change (absPath ([] ++ [fileName])) with ("/" ++ fileName)%string.
  rewrite chars_app, forallb_app, (simpleSeg_noBackslash _ Hfn). reflexivity.
Qed.

(** For directories and handler names that are simple segments, the route
    path a scan of the source root gives a handler is the directories'
    segments (the inner name for a group) joined by slashes, followed by
    the handler name unless that is [index]; it begins with a slash only
    for the handlers directly in the source root.  The handler path of
    every route of the scan reads as visible names below the source root,
    and for every reading of it as plain names the route path is that
    one. *)
Theorem scan_route_paths (env : Env) (cwd : string) (root : list string)
    (fuel : nat) (cache : ExpectationsCache) (rs : list RouteDefinition)
    (r : RouteDefinition) :
  Forall (fun s => plainSeg s = true) root ->
  wfEnv env ->
  scan_routes (scanDirectory env cwd (absPath root) fuel cache (absPath root) "")
    = Returned rs ->
  In r rs ->
  (exists rel n fileName m,
     handlerPath r = absPath (root ++ rel ++ [n])
     /\ Forall visibleSeg (rel ++ [n])
     /\ matchRouteFileName n = Some (fileName, m))
  /\ (forall rel n fileName m,
        handlerPath r = absPath (root ++ rel ++ [n]) ->
        Forall (fun s => plainSeg s = true) (rel ++ [n]) ->
        matchRouteFileName n = Some (fileName, m) ->
        Forall (fun d => simpleSeg (groupName d) = true) rel ->
        simpleSeg fileName = true ->
        path r = urlPath rel fileName).
Proof.
  intros Hroot Hwf Hs Hr. split.
  - pose proof (scanDirectory_good env cwd root Hroot Hwf fuel [] cache "" rs
                  (Forall_nil _)) as Hg.
    rewrite app_nil_r in Hg. specialize (Hg Hs). rewrite Forall_forall in Hg.
    destruct (Hg r Hr) as (rel & n & fn & m & H1 & H2 & _ & H4 & _).
    exists rel, n, fn, m. now repeat split.
  - intros rel n fileName m Hh Hp Hm Hrel Hfn.
    assert (Hs' : scan_routes (scanDirectory env cwd (absPath root) fuel cache
                                 (absPath (root ++ [])) "") = Returned rs)
      by now rewrite app_nil_r.
    rewrite (scan_route_decomposed env cwd root [] fuel cache "" rs Hroot Hwf
               (Forall_nil _) Hs' r rel n fileName m Hr Hh Hp Hm).
    destruct rel as [|d rel].
    + rewrite Hh. cbn [List.app]. apply finalPath_at_root; try assumption.
      now inversion Hp.
    + apply finalPath_below; (assumption || discriminate).
Qed.

Lemma scan_route_paths_witness :
  path routeNestedIndex = urlPath ["(admin)"; "users"] "index"
  /\ urlPath ["(admin)"; "users"] "index" = "admin/users".
Proof.
  split; [|reflexivity].
  destruct (scan_route_paths (envOf fsIndex) "/srv" ["srv"; "src"] 10 []
              routesIndex routeNestedIndex) as [_ H].
  - repeat constructor.
  - apply wfEnv_envOf. reflexivity.
  - vm_compute. reflexivity.
  - vm_compute. tauto.
  - apply (H ["(admin)"; "users"] "index.get.ts" "index" "get");
      try reflexivity; repeat constructor.
Defined.








(** ** The expectations cache *)

Lemma absPath_below_neq (segs more : list string) (n : string) :
  Forall (fun s => plainSeg s = true) segs ->
  Forall (fun s => plainSeg s = true) (n :: more) ->
  absPath segs <> absPath ((segs ++ [n]) ++ more).
Proof.
  intros Hs Hm E. apply absPath_inj in E.
  - apply (f_equal (@List.length string)) in E.
    rewrite !length_app in E. cbn in E. lia.
  - assumption.
  - rewrite <- app_assoc. apply Forall_app. now split.
Qed.

Section CacheFrame.
Variable env : Env.
Variable cwd : string.
Variable root : list string.
Variable src : string.
Hypothesis root_plain : Forall (fun s => plainSeg s = true) root.
Hypothesis env_wf : wfEnv env.

Let plain := fun s : string => plainSeg s = true.

(** [k] is not the path of [root/rel] nor of anything below it. *)
Let outside (rel : list string) (k : string) : Prop :=
  forall rel', Forall plain rel' -> k <> absPath ((root ++ rel) ++ rel').

Lemma scanEntries_cache_frame rec (fuel : nat) (rel : list string)
    (basePath : string) lm ex (k : string) :
  Forall plain rel ->
  (forall c d b, plain d -> outside (rel ++ [d]) k ->
     map_get k (scan_cache (rec c (absPath ((root ++ rel) ++ [d])) b))
     = map_get k c) ->
  (forall d, plain d -> outside (rel ++ [d]) k) ->
  forall entries cache log routes,
    Forall (fun e => plain (name e)) entries ->
    map_get k (scan_cache
                 (scanEntries env cwd src rec fuel (absPath (root ++ rel)) basePath
                    lm ex entries cache log routes))
    = map_get k cache.
Proof.
  intros Hrel Hrec Hout.
  assert (Hall : Forall plain (root ++ rel)) by (apply Forall_app; now split).
  induction entries as [|e entries IH]; intros cache log routes He;
    cbn [scanEntries]; [reflexivity|].
  inversion He as [|? ? Hname Hrest]; subst.
  destruct (Str.startsWith (name e) "_"); [now apply IH|].
  rewrite (join_absPath (root ++ rel) (name e)) by assumption.
  destruct (kind e).
  - destruct (Str.endsWith (name e) ".ts"); [|now apply IH].
    destruct ((name e =? "middleware.ts")%string
              || (name e =? "expectations.ts")%string); [now apply IH|].
    destruct (parseRouteFile _ _ _ _ _ _ _ _) as [[route|]| |];
      try (now apply IH); reflexivity.
  - destruct (scan_routes (rec cache _ _)) eqn:Es; cbn [scan_cache].
    + rewrite IH by assumption. apply Hrec; [assumption|now apply Hout].
    + apply Hrec; [assumption|now apply Hout].
    + apply Hrec; [assumption|now apply Hout].
  - now apply IH.
Qed.

Lemma outside_below (rel : list string) (d : string) (k : string) :
  outside rel k -> plain d -> outside (rel ++ [d]) k.
Proof.
  intros H Hd rel' Hrel'.
  replace ((root ++ rel ++ [d]) ++ rel')%list
    with ((root ++ rel) ++ d :: rel')%list
    by (rewrite <- !app_assoc; reflexivity).
  apply H. now constructor.
Qed.

(** A scan of [root/rel] leaves the cached expectations of every
    directory that is not [root/rel] or below it as they were, however
    the scan ends. *)
Lemma scanDirectory_cache_frame (fuel : nat) :
  forall rel cache basePath k,
    Forall plain rel -> outside rel k ->
    map_get k (scan_cache (scanDirectory env cwd src fuel cache
                             (absPath (root ++ rel)) basePath))
    = map_get k cache.
Proof.
  induction fuel as [|fuel IH]; intros rel cache basePath k Hrel Hout;
    cbn [scanDirectory]; [reflexivity|].
  destruct (existsSync env (absPath (root ++ rel))); cbn [negb]; [|reflexivity].
  destruct (readdirSync env (absPath (root ++ rel))) as [entries|] eqn:Er;
    [|reflexivity].
  assert (Hk : k <> absPath (root ++ rel)).
  { specialize (Hout [] (Forall_nil _)). now rewrite app_nil_r in Hout. }
  assert (Hload : map_get k (snd (fst (loadExpectations env cache
                     (absPath (root ++ rel))
                     (Path.join (absPath (root ++ rel)) "expectations.ts"))))
                  = map_get k cache).
  { unfold loadExpectations. destruct (existsSync env _); [|reflexivity].
    destruct (requireDefault env _); [|reflexivity].
    cbn [fst snd]. rewrite map_get_set.
    now rewrite (eqb_false_of_neq (absPath (root ++ rel)) k) by congruence. }
  match goal with
  | |- context [scanEntries env cwd src ?rec ?f ?d ?b ?lm ?ex ?es ?c ?l ?rs0] =>
      assert (Hloop : map_get k (scan_cache (scanEntries env cwd src rec f d b
                                   lm ex es c l rs0)) = map_get k c)
  end.
  { apply scanEntries_cache_frame; try assumption.
    - intros c d b Hd Ho. rewrite <- app_assoc. apply IH.
      + apply Forall_app. split; [assumption|constructor; [exact Hd|constructor]].
      + exact Ho.
    - intros d Hd. now apply outside_below.
    - eapply env_wf; eassumption. }
  destruct (scan_routes (scanEntries _ _ _ _ _ _ _ _ _ _ _ _ _)) eqn:Es;
    cbv zeta; rewrite ?Es; cbn [scan_cache]; rewrite Hloop; exact Hload.
Qed.

(** A scan of [root/rel] that can list the directory leaves, as the cached
    expectations of [root/rel] itself, what its [expectations.ts] exports
    when that loads, and what was cached before when there is no such file
    or loading it throws. *)
Lemma scanDirectory_cache_here (fuel : nat) (rel : list string)
    (cache : ExpectationsCache) (basePath : string) (entries : list Dirent) :
  Forall plain rel ->
  existsSync env (absPath (root ++ rel)) = true ->
  readdirSync env (absPath (root ++ rel)) = Some entries ->
  map_get (absPath (root ++ rel))
    (scan_cache (scanDirectory env cwd src (S fuel) cache
                   (absPath (root ++ rel)) basePath))
  = map_get (absPath (root ++ rel))
      (snd (fst (loadExpectations env cache (absPath (root ++ rel))
                   (Path.join (absPath (root ++ rel)) "expectations.ts")))).
Proof.
  intros Hrel Hd Hr. cbn [scanDirectory]. rewrite Hd, Hr. cbn [negb].
  assert (Hall : Forall plain (root ++ rel)) by (apply Forall_app; now split).
  match goal with
  | |- context [scanEntries env cwd src ?rec ?f ?d ?b ?lm ?ex ?es ?c ?l ?rs0] =>
      assert (Hloop : map_get (absPath (root ++ rel))
                        (scan_cache (scanEntries env cwd src rec f d b
                                       lm ex es c l rs0))
                      = map_get (absPath (root ++ rel)) c)
  end.
  { assert (Hout : forall d, plain d ->
              outside (rel ++ [d]) (absPath (root ++ rel))).
    { intros d Hd' rel' Hrel'. rewrite app_assoc.
      apply absPath_below_neq; [assumption|now constructor]. }
    apply scanEntries_cache_frame; try assumption.
    - intros c d b Hd' Ho. rewrite <- app_assoc. apply scanDirectory_cache_frame.
      + apply Forall_app. split; [assumption|constructor; [exact Hd'|constructor]].
      + exact Ho.
    - eapply env_wf; eassumption. }
  destruct (scan_routes (scanEntries _ _ _ _ _ _ _ _ _ _ _ _ _)) eqn:Es;
    cbv zeta; rewrite ?Es; cbn [scan_cache]; exact Hloop.
Qed.
End CacheFrame.

Lemma rebuildApp_expectationsCache (env : Env) (b : Builder) :
  expectationsCache (rebuildApp env b) = expectationsCache b.
Proof.
  unfold rebuildApp.
  match goal with
  | |- context [applyRoutes env ?rs ?n ?b1] =>
      destruct (applyRoutes_regs env n rs b1) as ((_ & _ & _ & _ & _ & He) & _)
  end.
  destruct (server (app _)); cbn [setApp emit expectationsCache]; now rewrite He.
Qed.

(** A scan of a directory changes no cached expectations but those of the
    directory itself and of directories below it, however the scan ends. *)
Theorem scan_leaves_other_expectations (env : Env) (cwd src : string)
    (root rel : list string) (fuel : nat) (cache : ExpectationsCache)
    (basePath k : string) :
  Forall (fun s => plainSeg s = true) root ->
  wfEnv env ->
  Forall (fun s => plainSeg s = true) rel ->
  (forall rel', Forall (fun s => plainSeg s = true) rel' ->
                k <> absPath ((root ++ rel) ++ rel')) ->
  map_get k (scan_cache (scanDirectory env cwd src fuel cache
                           (absPath (root ++ rel)) basePath))
  = map_get k cache.
Proof.
  intros Hroot Hwf Hrel Hout.
  now apply (scanDirectory_cache_frame env cwd root src Hroot Hwf).
Qed.

Lemma scan_leaves_other_expectations_witness :
  map_get "/srv/other"
    (scan_cache (scanDirectory (envOf fsExpectBroken) "/srv" "/srv/src" 5
                   [("/srv/other", VUndefined)] "/srv/src" ""))
  = Some VUndefined.
Proof.
  apply (scan_leaves_other_expectations (envOf fsExpectBroken) "/srv" "/srv/src"
           ["srv"; "src"] [] 5 [("/srv/other", VUndefined)] "" "/srv/other").
  - repeat constructor.
  - apply wfEnv_envOf. reflexivity.
  - constructor.
  - intros rel' _. destruct rel'; discriminate.
Defined.

(** A change of a directory's [expectations.ts] replaces what is cached
    for that directory by what the file now exports; when the file cannot
    be loaded (or is gone) nothing stays cached for the directory, the
    value cached before the change included. *)
Theorem expectations_change_refreshes_cache (env : Env) (fuel : nat)
    (root rel : list string) (entries : list Dirent) (b : Builder) :
  Forall (fun s => plainSeg s = true) root ->
  wfEnv env ->
  Forall (fun s => plainSeg s = true) rel ->
  sourceDir b = absPath root ->
  NoDup (map_keys (expectationsCache b)) ->
  existsSync env (absPath (root ++ rel)) = true ->
  readdirSync env (absPath (root ++ rel)) = Some entries ->
  afterReaction
    (fun b' =>
       map_get (absPath (root ++ rel)) (expectationsCache b') =
       if existsSync env (absPath ((root ++ rel) ++ ["expectations.ts"]))
       then requireDefault env (absPath ((root ++ rel) ++ ["expectations.ts"]))
       else None)
    (handleFileChange env (S fuel) (absPath ((root ++ rel) ++ ["expectations.ts"])) b).
Proof.
  intros Hroot Hwf Hrel Hs Hn Hd Hr.
  assert (Hall : Forall (fun s => plainSeg s = true) (root ++ rel))
    by (apply Forall_app; now split).
  unfold handleFileChange.
  rewrite basename_absPath, dirname_absPath by (assumption || reflexivity).
  change ("expectations.ts" =? "middleware.ts")%string with false.
  change ("expectations.ts" =? "expectations.ts")%string with true. cbv iota.
  unfold rebuildDirectoryRoutes.
  cbn [setRoutes setExpectationsCache emit projectRoot expectationsCache routes].
  set (D := absPath (root ++ rel)) in *.
  set (cache0 := map_delete D (expectationsCache b)).
  change (sourceDir (setRoutes _ _)) with (sourceDir b).
  assert (Hhere :
    map_get D (scan_cache (scanDirectory env (projectRoot b) (sourceDir b) (S fuel)
                             cache0 D ""))
    = if existsSync env (absPath ((root ++ rel) ++ ["expectations.ts"]))
      then requireDefault env (absPath ((root ++ rel) ++ ["expectations.ts"]))
      else None).
  { unfold D.
    rewrite (scanDirectory_cache_here env (projectRoot b) root (sourceDir b)
               Hroot Hwf fuel rel cache0 "" entries Hrel Hd Hr).
    rewrite join_absPath by (assumption || reflexivity).
    unfold loadExpectations.
    assert (Hdel : map_get (absPath (root ++ rel)) cache0 = None).
    { unfold cache0, D. rewrite map_get_delete by assumption.
      now rewrite String.eqb_refl. }
    destruct (existsSync env (absPath ((root ++ rel) ++ ["expectations.ts"])));
      [|exact Hdel].
    destruct (requireDefault env _) as [v|]; cbn [fst snd]; [|exact Hdel].
    rewrite map_get_set. now rewrite String.eqb_refl. }
  destruct (scan_routes (scanDirectory env (projectRoot b) (sourceDir b) (S fuel)
              cache0 D "")) eqn:Es; cbn [afterReaction]; [| |exact I].
  - cbn [finishReaction emit expectationsCache].
    rewrite rebuildApp_expectationsCache. exact Hhere.
  - exact Hhere.
Qed.

Lemma expectations_change_refreshes_cache_witness :
  map_get "/srv/src/users" (expectationsCache builderStale) <> None
  /\ afterReaction
       (fun b' => map_get "/srv/src/users" (expectationsCache b') = None)
       (handleFileChange (envOf fsExpectBroken) 5
          "/srv/src/users/expectations.ts" builderStale).
Proof.
  split; [discriminate|].
  apply (expectations_change_refreshes_cache (envOf fsExpectBroken) 4
           ["srv"; "src"] ["users"]
           [mkDirent "expectations.ts" IsFile; mkDirent "list.get.ts" IsFile]
           builderStale).
  - repeat constructor.
  - apply wfEnv_envOf. reflexivity.
  - repeat constructor.
  - reflexivity.
  - repeat constructor. cbn. tauto.
  - reflexivity.
  - reflexivity.
Defined.

(** ** Repeated and failing reactions *)

Lemma map_set_twice {V} (k : string) (v : V) (m : list (string * V)) :
  map_set k v (map_set k v m) = map_set k v m.
Proof.
  induction m as [|[k1 v1] m IH]; cbn.
  - now rewrite String.eqb_refl.
  - destruct (k1 =? k)%string eqn:E; cbn.
    + now rewrite String.eqb_refl.
    + now rewrite E, IH.
Qed.

(** Delivering the change of a regular handler file a second time leaves
    the table as the first delivery left it, and registers the route once
    more on the same instance: nothing is unregistered in between. *)
Theorem change_twice_registers_twice (env : Env) (fuel : nat) (filePath : string)
    (b : Builder) (route : RouteDefinition) :
  Path.basename filePath <> "middleware.ts" ->
  Path.basename filePath <> "expectations.ts" ->
  parseRouteFile env (projectRoot b) (sourceDir b) fuel filePath "" None None
    = Returned (Some route) ->
  exists b1 b2,
    handleFileChange env fuel filePath b = Settled b1
    /\ handleFileChange env fuel filePath b1 = Settled b2
    /\ routes b2 = routes b1
    /\ app b2 = app b
    /\ filter isRouteEffect (trace b2) =
       (filter isRouteEffect (trace b)
        ++ expectedRoutes env (appId (app b)) [route]
        ++ expectedRoutes env (appId (app b)) [route])%list.
Proof.
  intros Hm He Hp.
  assert (Hstep : forall b0,
            projectRoot b0 = projectRoot b -> sourceDir b0 = sourceDir b ->
            exists b1,
              handleFileChange env fuel filePath b0 = Settled b1
              /\ routes b1 = map_set filePath route (routes b0)
              /\ app b1 = app b0
              /\ projectRoot b1 = projectRoot b /\ sourceDir b1 = sourceDir b
              /\ filter isRouteEffect (trace b1) =
                 (filter isRouteEffect (trace b0)
                  ++ expectedRoutes env (appId (app b0)) [route])%list).
  { intros b0 Hpr Hsd. unfold handleFileChange.
    rewrite (eqb_false_of_neq _ _ Hm), (eqb_false_of_neq _ _ He).
    change (projectRoot (emit (EInvalidate filePath) b0)) with (projectRoot b0).
    change (sourceDir (emit (EInvalidate filePath) b0)) with (sourceDir b0).
    rewrite Hpr, Hsd, Hp. eexists. split; [reflexivity|].
    cbn [finishReaction emit routes app projectRoot trace].
    change (sourceDir (finishReaction ?x)) with (sourceDir x).
    destruct (applyRouteToApp_regs env route (appId (app b0))
                (setRoutes (map_set filePath route (routes b0))
                   (emit (EInvalidate filePath) b0)))
      as ((Hr & Ha & _ & Hc & Hpj & _) & added & Ht & _ & Hn).
    rewrite Hr, Ha, Hpj, (sourceDir_config _ _ Hc), Ht.
    cbn [setRoutes emit routes app projectRoot trace].
    repeat split; try assumption.
    rewrite !filter_app, Hn. cbn [filter isRouteEffect].
    now rewrite !app_nil_r. }
  destruct (Hstep b eq_refl eq_refl) as (b1 & H1 & Hr1 & Ha1 & Hp1 & Hs1 & Ht1).
  destruct (Hstep b1 Hp1 Hs1) as (b2 & H2 & Hr2 & Ha2 & _ & _ & Ht2).
  exists b1, b2. split; [exact H1|]. split; [exact H2|]. split; [|split].
  - now rewrite Hr2, Hr1, map_set_twice.
  - congruence.
  - rewrite Ht2, Ht1, Ha1, <- app_assoc. reflexivity.
Qed.

Lemma change_twice_registers_twice_witness :
  exists b1 b2,
    handleFileChange (envOf fsUsers) 10 "/srv/src/users/list.get.ts" builder0
      = Settled b1
    /\ handleFileChange (envOf fsUsers) 10 "/srv/src/users/list.get.ts" b1
       = Settled b2
    /\ routes b2 = routes b1
    /\ filter isRouteEffect (trace b2) =
       [ERoute 0 "get" "/users/list" (VFunction 1);
        ERoute 0 "get" "/users/list" (VFunction 1)].
Proof.
  destruct (change_twice_registers_twice (envOf fsUsers) 10
              "/srv/src/users/list.get.ts" builder0 routeUsersList)
    as (b1 & b2 & H1 & H2 & H3 & _ & H5).
  - vm_compute. discriminate.
  - vm_compute. discriminate.
  - vm_compute. reflexivity.
  - exists b1, b2. repeat split; assumption.
Defined.

(** When the scan of the first build throws, [start] catches it: the
    promise is fulfilled, the table and the instance held are as before, no
    server is created, stopped or started, and the failure is logged. *)
Theorem start_survives_scan_error (env : Env) (fuel : nat) (b : Builder) :
  scan_routes (scanDirectory env (projectRoot b) (sourceDir b) fuel
                 (expectationsCache b) (sourceDir b) "") = Threw ->
  exists b',
    start env fuel b = Settled b'
    /\ routes b' = routes b /\ app b' = app b
    /\ trace b' = (trace b ++ [EError "Error building routes"; ELogRouteTree])%list.
Proof.
  intros H. unfold start, buildRoutes. rewrite H.
  eexists. split; [reflexivity|]. cbn. now rewrite <- app_assoc.
Qed.

Lemma start_survives_scan_error_witness :
  exists b',
    start (envOf fsBroken) 3 builder0 = Settled b'
    /\ routes b' = [] /\ app b' = mkApp 0 true.
Proof.
  destruct (start_survives_scan_error (envOf fsBroken) 3 builder0)
    as (b' & H1 & H2 & H3 & _).
  - vm_compute. reflexivity.
  - exists b'. repeat split; assumption.
Defined.

(** When the source directory does not exist, [start] still builds: the
    table is emptied, and a new instance with no route registered is
    started on the configured port. *)
Theorem start_without_source_directory (env : Env) (fuel : nat) (b : Builder) :
  existsSync env (sourceDir b) = false ->
  exists b',
    start env (S fuel) b = Settled b'
    /\ routes b' = [] /\ app b' = mkApp (nextId b) true
    /\ filter isRouteEffect (trace b') = filter isRouteEffect (trace b)
    /\ In (EListen (nextId b) (listenPort b)) (trace b').
Proof.
  intros H. unfold start, buildRoutes. cbn [scanDirectory]. rewrite H.
  cbn [negb scan_routes scan_cache setAll].
  set (b1 := setRoutes [] (setExpectationsCache (expectationsCache b) b)).
  eexists. split; [reflexivity|].
  destruct (rebuildApp_shape env b1) as (regs & Ht & _ & Ha & _ & Hr).
  cbv zeta in *. cbn [emit routes app trace].
  rewrite Hr, Ha. split; [reflexivity|]. split; [reflexivity|]. split.
  - rewrite filter_app, (rebuildApp_route_effects env b1).
    cbn [b1 getRoutes setRoutes routes map_values map expectedRoutes flat_map
         filter isRouteEffect setExpectationsCache trace].
    now rewrite !app_nil_r.
  - rewrite Ht. cbn [b1 setRoutes setExpectationsCache trace nextId app config].
    change (listenPort b1) with (listenPort b).
    rewrite !in_app_iff. cbn [In]. tauto.
Qed.

Lemma start_without_source_directory_witness :
  exists b',
    start (envOf (dir "" [dir "srv" []])) 5 builder0 = Settled b'
    /\ routes b' = [] /\ app b' = mkApp 1 true.
Proof.
  destruct (start_without_source_directory (envOf (dir "" [dir "srv" []])) 4
              builder0) as (b' & H1 & H2 & H3 & _).
  - reflexivity.
  - exists b'. repeat split; assumption.
Defined.

(** When the rescan after a change of [middleware.ts] throws, the reaction
    is rejected after the routes under the directory (by string prefix)
    were dropped from the table and before any rebuild: the instance held
    is the same and no server is created, stopped or started. *)
Theorem failed_rescan_drops_routes (env : Env) (fuel : nat) (filePath : string)
    (b : Builder) :
  Path.basename filePath = "middleware.ts" ->
  scan_routes (scanDirectory env (projectRoot b) (sourceDir b) fuel
                 (expectationsCache b) (Path.dirname filePath) "") = Threw ->
  exists b',
    handleFileChange env fuel filePath b = Rejected b'
    /\ routes b' = deleteStartingWith (Path.dirname filePath) (routes b)
    /\ app b' = app b
    /\ trace b' = (trace b ++ [EInvalidate filePath])%list.
Proof.
  intros Hb Hs. unfold handleFileChange. rewrite Hb.
  change ("middleware.ts" =? "middleware.ts")%string with true. cbv iota.
  unfold rebuildDirectoryRoutes.
  cbn [setRoutes emit projectRoot expectationsCache routes].
  change (sourceDir (setRoutes _ _)) with (sourceDir b). rewrite Hs.
  eexists. split; [reflexivity|]. now cbn.
Qed.

Lemma failed_rescan_drops_routes_witness :
  exists b',
    handleFileChange (envOf fsBroken) 3 "/srv/src/locked/middleware.ts"
      builderLocked = Rejected b'
    /\ map_keys (routes b') = ["/srv/src/list.get.ts"]
    /\ app b' = app builderLocked.
Proof.
  destruct (failed_rescan_drops_routes (envOf fsBroken) 3
              "/srv/src/locked/middleware.ts" builderLocked)
    as (b' & H1 & H2 & H3 & _).
  - reflexivity.
  - vm_compute. reflexivity.
  - exists b'. split; [exact H1|]. split; [|exact H3]. rewrite H2. reflexivity.
Defined.

Example rebuild_of_mixed_table :
  map_keys (routes builderMixed)
    = ["/srv/src/a.get.ts"; "/srv/src/b.frob.ts"; "/srv/src/c.post.ts";
       "/srv/src/d.post.ts"]
  /\ filter isRouteEffect (trace builderMixed)
     = [ERoute 1 "get" "/a" (VFunction 1); ERoute 1 "post" "/d" (VFunction 4)].
Proof. split; reflexivity. Qed.

(** ** When the walk up the ancestors never ends *)

Lemma firstn_snoc_le {A} (k : nat) (l : list A) (x : A) :
  k <= List.length l -> firstn k (l ++ [x]) = firstn k l.
Proof.
  intros H. rewrite firstn_app.
  replace (k - List.length l) with 0 by lia. cbn. apply app_nil_r.
Qed.

Lemma parentMiddlewares_never_ends (env : Env) (src : string) (fuel : nat) :
  forall segs,
    Forall (fun s => plainSeg s = true) segs ->
    (forall k, absPath (firstn k segs) <> src) ->
    parentMiddlewares env src fuel (absPath segs) = None.
Proof.
  induction fuel as [|fuel IH]; intros segs Hp Hsrc; [reflexivity|].
  cbn [parentMiddlewares].
  assert (H1 : (absPath segs =? src)%string = false).
  { apply eqb_false_of_neq. specialize (Hsrc (List.length segs)).
    now rewrite firstn_all in Hsrc. }
  rewrite H1. change (absPath segs =? ".")%string with false. cbn [negb andb].
  destruct segs as [|n segs0] using rev_ind.
  - change (Path.dirname (absPath [])) with (absPath []).
    now rewrite (IH [] Hp Hsrc).
  - clear IHsegs0. apply Forall_app in Hp as [Hp0 Hn].
    inversion Hn as [|? ? Hn' _]; subst.
    rewrite dirname_absPath by assumption.
    rewrite (IH segs0 Hp0); [reflexivity|].
    intros k. destruct (Nat.le_gt_cases k (List.length segs0)) as [Hk|Hk].
    + rewrite <- (firstn_snoc_le k segs0 n Hk). apply Hsrc.
    + rewrite firstn_all2 by lia.
      pose proof (Hsrc (List.length segs0)) as H'.
      rewrite firstn_snoc_le in H' by lia. now rewrite firstn_all in H'.
Qed.

(** [parseRouteFile] ends only for a handler whose directory is the
    source directory or below it, compared as strings: when the configured
    source directory is the path of neither the handler's directory nor
    any of its ancestors (a handler elsewhere, or a source directory
    written with a trailing slash), the walk up the ancestors reaches [/]
    and stays there, so that no amount of fuel lets the call return. *)
Theorem parse_hangs_outside_source_directory (env : Env) (cwd src : string)
    (segs : list string) (n fileName m basePath : string)
    (lm : option string) (ex : option Value) :
  Forall (fun s => plainSeg s = true) segs -> plainSeg n = true ->
  matchRouteFileName n = Some (fileName, m) ->
  (forall k, absPath (firstn k segs) <> src) ->
  forall fuel,
    parseRouteFile env cwd src fuel (absPath (segs ++ [n])) basePath lm ex
    = NoFuel.
Proof.
  intros Hs Hn Hm Hsrc fuel. unfold parseRouteFile.
  rewrite basename_absPath, dirname_absPath by assumption.
  rewrite Hm. now rewrite parentMiddlewares_never_ends.
Qed.

Lemma parse_hangs_outside_source_directory_witness :
  parseRouteFile (envOf fsUsers) "/srv" "/srv/src/" 1000
    "/srv/src/users/list.get.ts" "" None None = NoFuel.
Proof.
  refine (parse_hangs_outside_source_directory (envOf fsUsers) "/srv" "/srv/src/"
            ["srv"; "src"; "users"] "list.get.ts" "list" "get" "" None None
            _ _ _ _ 1000).
  - repeat constructor.
  - reflexivity.
  - reflexivity.
  - intros k. destruct k as [|[|[|[|k]]]]; discriminate.
Defined.

Lemma scanDirectory_ends_witness :
  scan_routes (scanDirectory (envOf fsHidden) "/srv" "/srv/src" 8 []
                 "/srv/src" "") <> NoFuel.
Proof.
  apply (scanDirectory_ends fsHidden "/srv" ["srv"; "src"]
           ltac:(repeat constructor) eq_refl 3 [] 8 [] "").
  - constructor.
  - cbn. lia.
  - cbn. lia.
Defined.

(** ** Incremental application, call by call *)









